(** * Game of Life: Grid, World and the two codecs of Zoo

    A shallow embedding of the C++ sources (grid.cpp, world.cpp, zoo.cpp).
    Unsigned and signed 32-bit integers are integers of [Z] with the
    wrap-around written out; a [std::vector<Cell>] is a list read with
    [!!] and updated with [<[ _ := _ ]>]; a C++ exception is a [Throw]
    outcome; member functions that mutate an object thread it as the state
    of a small state-and-exception monad, so that what was written before
    an exception is still visible after it. *)

From Stdlib Require Import ZArith Lia Bool.
From Stdlib.Strings Require Import Byte.
From stdpp Require Import base list strings.

Local Open Scope Z_scope.

(** ** Machine integers *)

(** [unsigned int]: arithmetic modulo 2^32. *)
Definition u32 (z : Z) : Z := z mod 2 ^ 32.

(** Conversion to [int] (two's complement, as every supported target does). *)
Definition to_int (z : Z) : Z := (z + 2 ^ 31) mod 2 ^ 32 - 2 ^ 31.

(** ** Exceptions and outcomes *)

Inductive exn : Type :=
| invalid_argument (what : string)   (* std::invalid_argument *)
| runtime_error (what : string)      (* std::runtime_error *)
| undefined_behaviour.               (* a vector indexed outside its storage *)

Inductive result (A : Type) : Type :=
| Ok (a : A)
| Throw (e : exn).
Arguments Ok {A} a.
Arguments Throw {A} e.

(** A computation over a mutable object of type [S]: the outcome and the
    object as it is when the computation returns or throws. *)
Definition M (S A : Type) : Type := S -> result A * S.

Definition ret {S A : Type} (a : A) : M S A := fun s => (Ok a, s).
Definition throw {S A : Type} (e : exn) : M S A := fun s => (Throw e, s).
Definition lift {S A : Type} (r : result A) : M S A := fun s => (r, s).
Definition gets {S A : Type} (f : S -> A) : M S A := fun s => (Ok (f s), s).
Definition modify {S : Type} (f : S -> S) : M S unit := fun s => (Ok tt, f s).
Definition bind {S A B : Type} (m : M S A) (k : A -> M S B) : M S B :=
  fun s => match m s with
           | (Ok a, s') => k a s'
           | (Throw e, s') => (Throw e, s')
           end.

Notation "'let*' x ':=' m 'in' k" := (bind m (fun x => k))
  (at level 10, x name, m at level 100, k at level 200).

(** Runs a computation on a local object: an exception unwinds the local. *)
Definition run_local {S : Type} (m : M S unit) (s : S) : result S :=
  match m s with
  | (Ok _, s') => Ok s'
  | (Throw e, _) => Throw e
  end.

(** [n] iterations of a loop body from counter value [i]. *)
Fixpoint for_iter {S : Type} (n : nat) (i : Z) (body : Z -> M S unit) : M S unit :=
  match n with
  | O => ret tt
  | S n' => let* _ := body i in for_iter n' (i + 1) body
  end.

(** [for (i = lo; i < hi; i++) body], for a bound [hi] the body leaves alone. *)
Definition for_range {S : Type} (lo hi : Z) (body : Z -> M S unit) : M S unit :=
  for_iter (Z.to_nat (hi - lo)) lo body.

(** [for (i = i0; cond(i) ; i++) body] where the condition reads the state;
    [n] bounds the number of iterations. *)
Fixpoint for_cond {S : Type} (n : nat) (i : Z) (cond : Z -> S -> bool)
    (body : Z -> M S unit) : M S unit :=
  fun s =>
    match n with
    | O => (Ok tt, s)
    | S n' =>
        if cond i s
        then (let* _ := body i in for_cond n' (i + 1) cond body) s
        else (Ok tt, s)
    end.

(** ** grid.h: Cell and Grid *)

Inductive Cell : Type := DEAD | ALIVE.

Definition cell_eqb (a b : Cell) : bool :=
  match a, b with
  | DEAD, DEAD | ALIVE, ALIVE => true
  | _, _ => false
  end.

Record Grid : Type := mkGrid {
  width : Z;
  height : Z;
  gridVector : list Cell
}.

(** [v[i]] read and written; outside the storage the behaviour is undefined. *)
Definition vec_read (v : list Cell) (i : Z) : result Cell :=
  match v !! Z.to_nat i with
  | Some c => Ok c
  | None => Throw undefined_behaviour
  end.

Definition vec_write (v : list Cell) (i : Z) (c : Cell) : result (list Cell) :=
  if i <? Z.of_nat (length v) then Ok (<[Z.to_nat i := c]> v)
  else Throw undefined_behaviour.

(** Grid::Grid(width, height) *)
Definition Grid_new (w h : Z) : Grid :=
  mkGrid w h (replicate (Z.to_nat (u32 (w * h))) DEAD).

(** Grid::Grid() *)
Definition Grid_empty : Grid := Grid_new 0 0.

Definition get_width (g : Grid) : Z := width g.
Definition get_height (g : Grid) : Z := height g.

(** Grid::get_total_cells *)
Definition get_total_cells (g : Grid) : Z := u32 (height g * width g).

(** Grid::get_index_new_grid and Grid::get_index *)
Definition get_index_new_grid (x y newWidth : Z) : Z := u32 (u32 (newWidth * y) + x).
Definition get_index (g : Grid) (x y : Z) : Z := get_index_new_grid x y (width g).

(** Grid::are_valid_coordinates *)
Definition are_valid_coordinates (g : Grid) (x y : Z) : bool :=
  (0 <=? x) && (x <? width g) && (0 <=? y) && (y <? height g).

(** Cell Grid::operator()(x, y) const *)
Definition Grid_call_const (g : Grid) (x y : Z) : result Cell :=
  if negb (are_valid_coordinates g x y)
  then Throw (invalid_argument "Cell operator() : Invalid coordinates.")
  else vec_read (gridVector g) (get_index g x y).

(** Cell& Grid::operator()(x, y), the reference read: [c = grid(x, y)] *)
Definition Grid_call (x y : Z) : M Grid Cell := fun g =>
  if negb (are_valid_coordinates g x y)
  then (Throw (runtime_error "Cell& operator() : Invalid coordinates."), g)
  else (vec_read (gridVector g) (get_index g x y), g).

(** Cell& Grid::operator()(x, y), the reference assigned: [grid(x, y) = c] *)
Definition Grid_assign (x y : Z) (c : Cell) : M Grid unit := fun g =>
  if negb (are_valid_coordinates g x y)
  then (Throw (runtime_error "Cell& operator() : Invalid coordinates."), g)
  else match vec_write (gridVector g) (get_index g x y) c with
       | Ok v => (Ok tt, mkGrid (width g) (height g) v)
       | Throw e => (Throw e, g)
       end.

(** Grid::get *)
Definition Grid_get (g : Grid) (x y : Z) : result Cell :=
  if negb (are_valid_coordinates g x y)
  then Throw (invalid_argument "get() : Invalid coordinates.")
  else Grid_call_const g x y.

(** Grid::set *)
Definition Grid_set (x y : Z) (cell : Cell) : M Grid unit := fun g =>
  if negb (are_valid_coordinates g x y)
  then (Throw (invalid_argument "set() : Invalid coordinates."), g)
  else Grid_assign x y cell g.

(** Grid::crop; [newGrid(x - x0, y - y0) = this->get(x, y)] evaluates its
    right operand first. *)
Definition Grid_crop (this : Grid) (x0 y0 x1 y1 : Z) : result Grid :=
  if (x0 >=? width this) || (x0 <? 0) || (x1 >? width this) || (x1 <? 0)
     || (y0 >=? height this) || (y0 <? 0) || (y1 >? height this) || (y1 <? 0)
  then Throw (invalid_argument "crop() : Invalid coordinates.")
  else if (x0 >? x1) || (y0 >? y1)
  then Throw (invalid_argument "crop() : Negative size of crop window.")
  else
    let newWidth := u32 (x1 - x0) in
    let newHeight := u32 (y1 - y0) in
    run_local
      (for_range y0 y1 (fun y =>
         for_range x0 x1 (fun x =>
           let* c := lift (Grid_get this x y) in
           Grid_assign (u32 (x - x0)) (u32 (y - y0)) c)))
      (Grid_new newWidth newHeight).

(** Grid::merge. The loop over [y] runs while [y < width] and
    [y < y0 + other.get_width()], the loop over [x] while [x < height] and
    [x < x0 + other.get_height()], as the source has them. *)
Definition Grid_merge (other : Grid) (x0 y0 : Z) (alive_only : bool) : M Grid unit :=
  fun this =>
    if (u32 (get_width other + x0) >? width this)
       || (u32 (get_height other + y0) >? height this)
       || negb (are_valid_coordinates this x0 y0)
    then (Throw (invalid_argument "merge() : The other grid does not fit in this grid."), this)
    else
      for_range y0 (Z.min (width this) (u32 (y0 + get_width other))) (fun y =>
        for_range x0 (Z.min (height this) (u32 (x0 + get_height other))) (fun x =>
          let* c := lift (Grid_call_const other (u32 (x - x0)) (u32 (y - y0))) in
          if cell_eqb c ALIVE && alive_only
          then Grid_set x y ALIVE
          else
            let* mine := (if alive_only
                          then fun g => (Grid_get g x y, g)
                          else ret DEAD) in
            if alive_only && cell_eqb mine ALIVE
            then Grid_set (u32 (x - x0)) (u32 (y - y0)) ALIVE
            else
              let* c' := lift (Grid_call_const other (u32 (x - x0)) (u32 (y - y0))) in
              Grid_set x y c'))
      this.

(** The body shared by the four cases of Grid::rotate: every cell of [this]
    is copied to the place [dest x y] of [newGrid]. *)
Definition rotate_fill (this : Grid) (dest : Z -> Z -> Z * Z) : M Grid unit :=
  for_range 0 (height this) (fun y =>
    for_range 0 (width this) (fun x =>
      let* c := lift (Grid_get this x y) in
      Grid_assign (fst (dest x y)) (snd (dest x y)) c)).

(** Grid::rotate; [%] is C++'s remainder, truncated towards zero. *)
Definition Grid_rotate (this : Grid) (rotation : Z) : result Grid :=
  let realRotation :=
    if rotation <? 0 then Z.rem rotation (-4) else Z.rem rotation 4 in
  let w := width this in
  let h := height this in
  match realRotation with
  | 0 => run_local (rotate_fill this (fun x y => (x, y))) (Grid_new w h)
  | -3 | 1 =>
      run_local (rotate_fill this (fun x y => (u32 (u32 (h - y) - 1), x)))
                (Grid_new h w)
  | -2 | 2 =>
      run_local (rotate_fill this
                   (fun x y => (u32 (u32 (w - x) - 1), u32 (u32 (h - y) - 1))))
                (Grid_new w h)
  | -1 | 3 =>
      run_local (rotate_fill this (fun x y => (y, u32 (u32 (w - x) - 1))))
                (Grid_new h w)
  | _ => Ok Grid_empty
  end.

(** One step of the counting loops of Grid::get_alive_cells and
    Grid::get_dead_cells: [if (gridVector[i] == which) counter++]. *)
Definition count_if (v : list Cell) (which : Cell) (i : Z) : M Z unit :=
  let* c := lift (vec_read v i) in
  if cell_eqb c which then modify (fun counter => u32 (counter + 1)) else ret tt.

(** Grid::get_alive_cells *)
Definition get_alive_cells (g : Grid) : result Z :=
  run_local
    (for_range 0 (u32 (height g * width g)) (fun i => count_if (gridVector g) ALIVE i))
    0.

(** Grid::get_dead_cells *)
Definition get_dead_cells (g : Grid) : result Z :=
  run_local
    (for_range 0 (u32 (height g * width g)) (fun i => count_if (gridVector g) DEAD i))
    0.

(** [newVec[k] = c] in the loops of Grid::resize. *)
Definition vec_store (k : Z) (c : Cell) : M (list Cell) unit := fun newVec =>
  match vec_write newVec k c with
  | Ok v => (Ok tt, v)
  | Throw e => (Throw e, newVec)
  end.

(** Grid::resize(new_width, new_height). The loops run while
    [i < height && i < newHeight] and [j < width && j < newWidth]; the vectors
    are indexed directly, without a check of the coordinates. *)
Definition Grid_resize (newWidth newHeight : Z) : M Grid unit := fun this =>
  match
    run_local
      (for_range 0 (Z.min (height this) newHeight) (fun i =>
         for_range 0 (Z.min (width this) newWidth) (fun j =>
           let* c := lift (vec_read (gridVector this) (get_index this j i)) in
           vec_store (get_index_new_grid j i newWidth) c)))
      (replicate (Z.to_nat (u32 (newWidth * newHeight))) DEAD)
  with
  | Ok newVec => (Ok tt, mkGrid newWidth newHeight newVec)
  | Throw e => (Throw e, this)
  end.

(** The character a Cell is: [DEAD = ' '], [ALIVE = '#']. *)
Definition cell_char (c : Cell) : byte :=
  match c with
  | DEAD => x20
  | ALIVE => x23
  end.

(** [os << c] on an output stream, which is the characters written so far. *)
Definition put (c : byte) : M (list byte) unit := modify (fun os => os ++ [c]).

(** The border line of operator<<: a plus, [width] dashes, a plus,
    [std::endl]. *)
Definition print_border (rhs : Grid) : M (list byte) unit :=
  let* _ := put x2b in
  let* _ := for_range 0 (get_width rhs) (fun _ => put x2d) in
  let* _ := put x2b in
  put x0a.

(** operator<<(std::ostream&, const Grid&) *)
Definition Grid_print (rhs : Grid) : M (list byte) unit :=
  let* _ := print_border rhs in
  let* _ :=
    for_range 0 (get_height rhs) (fun y =>
      let* _ := put x7c in
      let* _ :=
        for_range 0 (get_width rhs) (fun x =>
          let* c := lift (Grid_call_const rhs x y) in
          put (cell_char c)) in
      let* _ := put x7c in
      put x0a) in
  print_border rhs.

(** The class invariant of a Grid: both extents are unsigned ints, so is the
    cell count (get_total_cells returns it), and the vector holds that many
    cells. *)
Record Grid_wf (g : Grid) : Prop := {
  wf_width : 0 <= width g < 2 ^ 32;
  wf_height : 0 <= height g < 2 ^ 32;
  wf_total : width g * height g < 2 ^ 32;
  wf_cells : Z.of_nat (length (gridVector g)) = width g * height g
}.

(** The place of a cell in the vector, row by row. *)
Definition idx (g : Grid) (x y : Z) : nat := Z.to_nat (width g * y + x).

(** ** world.h, world.cpp: World *)

(** Sequencing of const member functions, which only return or throw. *)
Definition rbind {A B : Type} (r : result A) (k : A -> result B) : result B :=
  match r with
  | Ok a => k a
  | Throw e => Throw e
  end.

Notation "'let?' x ':=' r 'in' k" := (rbind r (fun x => k))
  (at level 10, x name, r at level 100, k at level 200).

Record World : Type := mkWorld {
  currGrid : Grid;
  nextGrid : Grid
}.

(** A member function of Grid run on one of the two buffers of a World. *)
Definition on_curr {A : Type} (m : M Grid A) : M World A := fun w =>
  let (r, g) := m (currGrid w) in (r, mkWorld g (nextGrid w)).
Definition on_next {A : Type} (m : M Grid A) : M World A := fun w =>
  let (r, g) := m (nextGrid w) in (r, mkWorld (currGrid w) g).

(** World::World(width, height) *)
Definition World_new (w h : Z) : World := mkWorld (Grid_new w h) (Grid_new w h).

(** World::World(initial_state) *)
Definition World_of_grid (initial_state : Grid) : result World :=
  run_local
    (for_range 0 (get_height initial_state) (fun y =>
       for_range 0 (get_width initial_state) (fun x =>
         let* c := lift (Grid_call_const initial_state x y) in
         let* _ := on_curr (Grid_assign x y c) in
         let* c' := lift (Grid_call_const initial_state x y) in
         on_next (Grid_assign x y c'))))
    (World_new (get_width initial_state) (get_height initial_state)).

Definition World_get_width (w : World) : Z := get_width (currGrid w).
Definition World_get_height (w : World) : Z := get_height (currGrid w).

(** World::get_state *)
Definition get_state (w : World) : Grid := currGrid w.

(** [counter++] on the cell read at [(cx, cy)] of the current grid *)
Definition count_cell (g : Grid) (cx cy : Z) : M Z unit :=
  let* c := lift (Grid_call_const g cx cy) in
  if cell_eqb c ALIVE then modify (fun counter => u32 (counter + 1)) else ret tt.

(** World::count_neighbours. The [int] locals are the converted unsigned
    values; a loop [for (int j = lo; j <= hi; j++)] is the range [lo, hi + 1). *)
Definition count_neighbours (this : World) (x y : Z) (torodial : bool) : result Z :=
  let w := World_get_width this in
  let h := World_get_height this in
  let x_minus := to_int (u32 (x - 1)) in
  let x_plus := to_int (u32 (x + 1)) in
  let y_minus := to_int (u32 (y - 1)) in
  let y_plus := to_int (u32 (y + 1)) in
  let? counter :=
    (if torodial then
       let '(x_minus, x_plus) :=
         if x_minus =? -1 then (to_int (to_int w - 1), x_plus)
         else if x_plus =? to_int w then (x_minus, 0)
         else (x_minus, x_plus) in
       let '(y_minus, y_plus) :=
         if y_minus =? -1 then (to_int (u32 (h - 1)), y_plus)
         else if y_plus =? to_int h then (y_minus, 0)
         else (y_minus, y_plus) in
       let arraySize := 3 in
       let setX := [u32 x_minus; x; u32 x_plus] in
       let setY := [u32 y_minus; y; u32 y_plus] in
       run_local
         (for_range 0 arraySize (fun i =>
            for_range 0 arraySize (fun j =>
              count_cell (currGrid this)
                (nth (Z.to_nat j) setX 0) (nth (Z.to_nat i) setY 0))))
         0
     else
       let '(x_minus, x_plus) :=
         if x_minus =? -1 then (to_int (x_minus + 1), x_plus)
         else if x_plus =? to_int w then (x_minus, to_int (x_plus - 1))
         else (x_minus, x_plus) in
       let '(y_minus, y_plus) :=
         if y_minus =? -1 then (to_int (y_minus + 1), y_plus)
         else if y_plus =? to_int h then (y_minus, to_int (y_plus - 1))
         else (y_minus, y_plus) in
       run_local
         (for_range y_minus (y_plus + 1) (fun j =>
            for_range x_minus (x_plus + 1) (fun i =>
              count_cell (currGrid this) (u32 i) (u32 j))))
         0) in
  let? c := Grid_call_const (currGrid this) x y in
  Ok (if cell_eqb c ALIVE then u32 (counter - 1) else counter).

(** World::step, the body of the two loops. *)
Definition step_cell (torodial : bool) (y x : Z) : M World unit :=
  let* n := (fun w => (count_neighbours w x y torodial, w)) in
  let neighbours := to_int n in
  let* c := on_curr (Grid_call x y) in
  if cell_eqb c ALIVE then
    if (neighbours <? 2) || (neighbours >? 3)
    then on_next (Grid_assign x y DEAD)
    else if (neighbours =? 2) || (neighbours =? 3)
    then on_next (Grid_assign x y ALIVE)
    else ret tt
  else if neighbours =? 3
  then on_next (Grid_assign x y ALIVE)
  else on_next (Grid_assign x y DEAD).

(** World::step. Both loops are bounded by [get_height()], as the source
    has them; [std::swap] exchanges the two buffers. *)
Definition World_step (torodial : bool) : M World unit := fun this =>
  (let* _ :=
     for_range 0 (World_get_height this) (fun y =>
       for_range 0 (World_get_height this) (fun x =>
         step_cell torodial y x)) in
   modify (fun w => mkWorld (nextGrid w) (currGrid w)))
  this.

(** World::advance *)
Definition World_advance (steps : Z) (torodial : bool) : M World unit :=
  for_range 0 steps (fun _ => World_step torodial).

(** World::get_total_cells, World::get_alive_cells, World::get_dead_cells *)
Definition World_get_total_cells (w : World) : Z :=
  u32 (get_height (currGrid w) * get_width (currGrid w)).

(** World::resize(new_width, new_height): the current grid is resized, the
    next grid is replaced by a fresh one. *)
Definition World_resize (new_width new_height : Z) : M World unit :=
  let* _ := on_curr (Grid_resize new_width new_height) in
  modify (fun w => mkWorld (currGrid w) (Grid_new new_width new_height)).

(** ** zoo.cpp: the binary codec *)

(** A file is its sequence of bytes. *)
Definition byte_val (b : byte) : Z := Z.of_N (Byte.to_N b).

Definition byte_of (z : Z) : byte :=
  match Byte.of_N (Z.to_N (z mod 256)) with
  | Some b => b
  | None => Byte.x00
  end.

(** The value of a little-endian run of bytes (the host is little-endian). *)
Fixpoint le_value (bs : list byte) : Z :=
  match bs with
  | [] => 0
  | b :: bs' => byte_val b + 256 * le_value bs'
  end.

(** [ofs.write] of the four bytes of an integer *)
Definition write4 (v : Z) : list byte :=
  [byte_of (u32 v); byte_of (u32 v / 2 ^ 8);
   byte_of (u32 v / 2 ^ 16); byte_of (u32 v / 2 ^ 24)].

(** A [std::ifstream] opened on a file: the bytes not yet read and the
    state bits. *)
Record ifstream : Type := mkIfs {
  unread : list byte;
  eofbit : bool;
  failbit : bool
}.

(** [ifs.read(reinterpret_cast<char*>(&var), 4)] on a variable holding the
    bit pattern [old]: a stream that is not good extracts nothing and sets
    failbit; a stream that ends early stores the bytes it has over the low
    bytes of the variable and sets eofbit and failbit. *)
Definition ifs_read4 (old : Z) : M ifstream Z := fun ifs =>
  if eofbit ifs || failbit ifs
  then (Ok old, mkIfs (unread ifs) (eofbit ifs) true)
  else
    let got := take 4 (unread ifs) in
    let k := Z.of_nat (length got) in
    if k =? 4
    then (Ok (le_value got), mkIfs (drop 4 (unread ifs)) false false)
    else (Ok (le_value got + 2 ^ (8 * k) * (old / 2 ^ (8 * k))),
          mkIfs [] true true).

(** The locals of the decoding loop. *)
Record load_state : Type := mkLoad {
  ifs : ifstream;
  bytesHolder : Z;
  grid : Grid
}.

Definition on_ifs {A : Type} (m : M ifstream A) : M load_state A := fun s =>
  let (r, i) := m (ifs s) in (r, mkLoad i (bytesHolder s) (grid s)).
Definition on_grid {A : Type} (m : M Grid A) : M load_state A := fun s =>
  let (r, g) := m (grid s) in (r, mkLoad (ifs s) (bytesHolder s) g).

(** The values the uninitialised locals [height], [width] and
    [bytesHolder] of Zoo::load_binary hold before they are read into: they
    are indeterminate, and every statement about the decoder is for all of
    them. *)
Record indeterminate : Type := mkIndet {
  indet_height : Z;
  indet_width : Z;
  indet_bytesHolder : Z
}.

(** The number of 4-byte chunks both codec functions compute from the
    extents: [(width * height) / 32], one more when [(height * width) % 32]
    is not zero. The visible products are of [int]s in the decoder and of
    [unsigned int]s in the encoder; the division and the remainder are
    unsigned in both. *)
Definition loops_of (width_times_height height_times_width bitsInt : Z) : Z :=
  let loops := to_int (u32 width_times_height / bitsInt) in
  if negb (u32 height_times_width mod bitsInt =? 0)
  then to_int (loops + 1) else loops.

(** Zoo::load_binary, the body of the loop over the bits [j] of chunk [i]. *)
Definition load_bit (width i j : Z) : M load_state unit :=
  let sizeOfInt := 4 in
  let bitsInt := u32 (8 * sizeOfInt) in
  let* bytesHolder := gets bytesHolder in
  let a := u32 (bytesHolder * 2 ^ u32 (u32 (bitsInt - 1) - j)) in
  let a := a / 2 ^ u32 (bitsInt - 1) in
  if a =? 1
  then
    let n := u32 (u32 (u32 (i * sizeOfInt) * 8) + j) in
    if u32 width =? 0 then throw undefined_behaviour
    else
      let x := to_int (n mod u32 width) in
      let y := to_int (n / u32 width) in
      on_grid (Grid_assign (u32 x) (u32 y) ALIVE)
  else ret tt.

(** Zoo::load_binary, the body of the loop over the chunks. *)
Definition load_chunk (width i : Z) : M load_state unit :=
  let sizeOfInt := 4 in
  let* at_end := gets (fun s => eofbit (ifs s)) in
  if at_end : bool
  then throw (runtime_error "load_binary() : Unexpected end of file.")
  else
    let* old := gets bytesHolder in
    let* v := on_ifs (ifs_read4 old) in
    let* _ := modify (fun s => mkLoad (ifs s) v (grid s)) in
    for_range 0 (u32 (sizeOfInt * 8)) (fun j => load_bit width i j).

(** Zoo::load_binary; [file] is [None] when the path cannot be opened. The
    first integer of the file is read into [height], the second into
    [width], as the source has them. *)
Definition load_binary (file : option (list byte)) (u : indeterminate) : result Grid :=
  match file with
  | None => Throw (runtime_error "load_binary() : File cannot be opened.")
  | Some bytes =>
      let sizeOfInt := 4 in
      let bitsInt := u32 (8 * sizeOfInt) in
      let ifs0 := mkIfs bytes false false in
      let '(rh, ifs1) := ifs_read4 (u32 (indet_height u)) ifs0 in
      let? ph := rh in
      let height := to_int ph in
      let '(rw, ifs2) := ifs_read4 (u32 (indet_width u)) ifs1 in
      let? pw := rw in
      let width := to_int pw in
      let grid0 := Grid_new (u32 width) (u32 height) in
      let loops := loops_of (to_int (width * height)) (to_int (height * width)) bitsInt in
      let? s :=
        run_local (for_range 0 loops (fun i => load_chunk width i))
          (mkLoad ifs2 (u32 (indet_bytesHolder u)) grid0) in
      Ok (grid s)
  end.

(** The locals of the encoding loop. *)
Record save_state : Type := mkSave {
  sx : Z;
  sy : Z;
  outOfBounds : bool;
  bufferInt : Z;
  ofs : list byte
}.

(** Zoo::save_binary, the body of the loop over the bits [j] of a chunk.
    [bufferInt += pow(2, j)] adds a power of two above every bit set so far,
    so the sum in [double] is an exact integer below 2^32. *)
Definition save_bit (grid : Grid) (j : Z) : M save_state unit :=
  let* x := gets sx in
  let* y := gets sy in
  let* oob := gets outOfBounds in
  let* c := lift (fst (Grid_call x y grid)) in
  let* _ :=
    if cell_eqb c ALIVE && negb oob
    then modify (fun s => mkSave (sx s) (sy s) (outOfBounds s)
                            (bufferInt s + 2 ^ j) (ofs s))
    else ret tt in
  if x =? u32 (get_width grid - 1)
  then
    if y =? u32 (get_height grid - 1)
    then modify (fun s => mkSave (sx s) (sy s) true (bufferInt s) (ofs s))
    else modify (fun s => mkSave 0 (u32 (sy s + 1)) (outOfBounds s)
                            (bufferInt s) (ofs s))
  else modify (fun s => mkSave (u32 (sx s + 1)) (sy s) (outOfBounds s)
                          (bufferInt s) (ofs s)).

(** Zoo::save_binary, the body of the loop over the chunks. *)
Definition save_chunk (grid : Grid) (i : Z) : M save_state unit :=
  let* _ :=
    for_cond 32 0 (fun j s => (j <? 32) && negb (outOfBounds s))
      (fun j => save_bit grid j) in
  modify (fun s => mkSave (sx s) (sy s) (outOfBounds s) 0
                     (ofs s ++ write4 (bufferInt s))).

(** Zoo::save_binary returns the bytes written; [can_open] is false when
    the path cannot be opened for writing. *)
Definition save_binary (can_open : bool) (grid : Grid) : result (list byte) :=
  if negb can_open
  then Throw (runtime_error "load_binary() : File cannot be opened.")
  else
    let width := to_int (get_width grid) in
    let height := to_int (get_height grid) in
    let header := write4 width ++ write4 height in
    let loops :=
      loops_of (u32 (get_width grid * get_height grid))
               (u32 (get_height grid * get_width grid)) 32 in
    let? s :=
      run_local (for_range 0 loops (fun i => save_chunk grid i))
        (mkSave 0 0 (get_width grid =? 0) 0 header) in
    Ok (ofs s).

(** ** zoo.cpp: the text codec *)

(** [ofs << n] for an [unsigned int]: its decimal digits, most significant
    first; ten digits are enough below 2^32. *)
Definition digit_char (d : Z) : byte := byte_of (48 + d).

Fixpoint decimal_digits (fuel : nat) (n : Z) (acc : list byte) : list byte :=
  match fuel with
  | O => acc
  | S fuel' =>
      let acc' := digit_char (n mod 10) :: acc in
      if n / 10 =? 0 then acc' else decimal_digits fuel' (n / 10) acc'
  end.

Definition to_decimal (n : Z) : list byte := decimal_digits 10 n [].

(** [os << s] for a run of characters. *)
Definition puts (s : list byte) : M (list byte) unit := modify (fun os => os ++ s).

(** Zoo::save_ascii returns the characters written; [can_open] is false
    when the path cannot be opened for writing. *)
Definition save_ascii (can_open : bool) (grid : Grid) : result (list byte) :=
  if negb can_open
  then Throw (runtime_error "save_ascii() : File cannot be opened.")
  else
    run_local
      (let* _ := puts (to_decimal (get_width grid)) in
       let* _ := put x20 in
       let* _ := puts (to_decimal (get_height grid)) in
       let* _ := put x0a in
       for_range 0 (get_height grid) (fun y =>
         let* _ :=
           for_range 0 (get_width grid) (fun x =>
             let* c := lift (fst (Grid_call x y grid)) in
             put (cell_char c)) in
         put x0a))
      [].

(** [ifs.get()] stored in a [char]: the next character, or the end-of-file
    value -1, which is the character 0xff, with eofbit and failbit set. *)
Definition ifs_get : M ifstream byte := fun ifs =>
  if eofbit ifs || failbit ifs
  then (Ok xff, mkIfs (unread ifs) (eofbit ifs) true)
  else
    match unread ifs with
    | [] => (Ok xff, mkIfs [] true true)
    | b :: rest => (Ok b, mkIfs rest false false)
    end.

(** The loop [while (inC != delim) { intermediateS += inC; inC = ifs.get(); }]
    of Zoo::load_ascii on a good stream: the characters collected and the
    characters left after the delimiter. When the stream ends first, [get]
    returns the end-of-file character from then on and the condition of the
    loop stays true: the loop has no way out and the string grows for as long
    as the program is left running, [None]. *)
Fixpoint read_until (delim inC : byte) (unread : list byte) (intermediateS : list byte)
    : option (list byte * list byte) :=
  if Byte.eqb inC delim then Some (intermediateS, unread)
  else
    match unread with
    | [] => None
    | b :: rest => read_until delim b rest (intermediateS ++ [inC])
    end.

(** The two exceptions of [std::stoi]. *)
Inductive stoi_error : Type := stoi_invalid_argument | stoi_out_of_range.

Definition isspace (b : byte) : bool :=
  let c := byte_val b in (c =? 32) || ((9 <=? c) && (c <=? 13)).

Definition isdigit (b : byte) : bool :=
  let c := byte_val b in (48 <=? c) && (c <=? 57).

Fixpoint skip_spaces (s : list byte) : list byte :=
  match s with
  | b :: rest => if isspace b then skip_spaces rest else s
  | [] => []
  end.

(** The value of the leading decimal digits of [s], after the value [acc]
    of the digits before them. *)
Fixpoint leading_digits (s : list byte) (acc : Z) : Z :=
  match s with
  | b :: rest =>
      if isdigit b then leading_digits rest (10 * acc + (byte_val b - 48)) else acc
  | [] => acc
  end.

(** [std::stoi(s)]: white space is skipped, a sign is accepted, the digits
    that follow are the value and what comes after them is ignored; no digit
    is an invalid argument, a value that is no [int] is out of range. *)
Definition stoi (s : list byte) : stoi_error + Z :=
  let s := skip_spaces s in
  let '(negative, s) :=
    match s with
    | b :: rest =>
        if Byte.eqb b x2d then (true, rest)
        else if Byte.eqb b x2b then (false, rest)
        else (false, s)
    | [] => (false, s)
    end in
  match s with
  | b :: _ =>
      if isdigit b then
        let v := leading_digits s 0 in
        let v := if negative : bool then - v else v in
        if (v <? - 2 ^ 31) || (v >? 2 ^ 31 - 1) then inl stoi_out_of_range else inr v
      else inl stoi_invalid_argument
  | [] => inl stoi_invalid_argument
  end.

(** The locals of the loops of Zoo::load_ascii over the cells. *)
Record ascii_state : Type := mkAscii {
  ascii_ifs : ifstream;
  ascii_grid : Grid
}.

Definition ascii_get : M ascii_state byte := fun s =>
  let (r, i) := ifs_get (ascii_ifs s) in (r, mkAscii i (ascii_grid s)).
Definition ascii_assign (x y : Z) (c : Cell) : M ascii_state unit := fun s =>
  let (r, g) := Grid_assign x y c (ascii_grid s) in (r, mkAscii (ascii_ifs s) g).

(** Zoo::load_ascii, the body of the loop over the cells of a row. *)
Definition load_ascii_cell (x y : Z) : M ascii_state unit :=
  let* inC := ascii_get in
  if Byte.eqb inC x23 then ascii_assign x y ALIVE
  else if Byte.eqb inC x20 then ascii_assign x y DEAD
  else throw (runtime_error "load_ascii() : Character for a cell is incorrect.").

(** Zoo::load_ascii, the body of the loop over the rows. *)
Definition load_ascii_row (width height y : Z) : M ascii_state unit :=
  let* _ := for_range 0 width (fun x => load_ascii_cell x y) in
  let* inC := ascii_get in
  if negb (Byte.eqb inC x0a) && negb (y =? u32 (height - 1))
  then throw (runtime_error "load_ascii() : Missing new line character when expected.")
  else ret tt.

(** Zoo::load_ascii; [file] is [None] when the path cannot be opened, and
    the result is [None] when one of the two header loops has no way out. *)
Definition load_ascii (file : option (list byte)) : option (result Grid) :=
  match file with
  | None => Some (Throw (runtime_error "load_ascii() : File cannot be opened."))
  | Some bytes =>
      let '(r, ifs1) := ifs_get (mkIfs bytes false false) in
      let inC := match r with Ok c => c | Throw _ => xff end in
      match read_until x20 inC (unread ifs1) [] with
      | None => None
      | Some (intermediateS, rest) =>
          match stoi intermediateS with
          | inl stoi_invalid_argument =>
              Some (Throw (runtime_error
                "load_ascii() : Cannot parse width, invalid input argument."))
          | inl stoi_out_of_range =>
              Some (Throw (runtime_error
                "load_ascii() : Cannot parse width, out of range."))
          | inr w =>
              let width := u32 w in
              match read_until x0a x20 rest [] with
              | None => None
              | Some (intermediateS, rest) =>
                  match stoi intermediateS with
                  | inl stoi_invalid_argument =>
                      Some (Throw (runtime_error
                        "load_ascii() : Cannot parse height, invalid input argument."))
                  | inl stoi_out_of_range =>
                      Some (Throw (runtime_error
                        "load_ascii() : Cannot parse height, out of range."))
                  | inr h =>
                      let height := u32 h in
                      Some
                        (let? s :=
                           run_local
                             (for_range 0 height (fun y =>
                                load_ascii_row width height y))
                             (mkAscii (mkIfs rest false false)
                                      (Grid_new width height)) in
                         Ok (ascii_grid s))
                  end
              end
          end
      end
  end.

(** ** Vocabulary of the statements *)

(** One iteration of the copying loops of crop and rotate: the cell
    [(x, y)] of [this] goes to the place [dest x y] of the new grid. *)
Definition copy_cell (this : Grid) (dest : Z -> Z -> Z * Z) (y x : Z) : M Grid unit :=
  let* c := lift (Grid_get this x y) in
  Grid_assign (fst (dest x y)) (snd (dest x y)) c.

(** The cells a row-by-row loop has handled when iteration [(x, y)] starts. *)
Definition done_before (y x y' x' : Z) : Prop := y' < y \/ (y' = y /\ x' < x).

(** The invariant of a row-by-row loop over the window [[x0, x1) x [y0, y1)]
    that assigns [val x y] to the place [dest x y] of the grid [tgt s] of its
    state and leaves [keep] alone: the grid keeps its shape [w x h], holds the
    values assigned so far, and is as in [s0] everywhere else. *)
Definition filled {S : Type} (tgt : S -> Grid) (keep : S -> Prop)
    (x0 y0 x1 y1 : Z) (dest : Z -> Z -> Z * Z) (val : Z -> Z -> Cell) (w h : Z)
    (s0 : S) (y x : Z) (s : S) : Prop :=
  keep s /\ Grid_wf (tgt s) /\ width (tgt s) = w /\ height (tgt s) = h
  /\ (forall x' y', x0 <= x' < x1 -> y0 <= y' < y1 -> done_before y x y' x' ->
        Grid_get (tgt s) (fst (dest x' y')) (snd (dest x' y')) = Ok (val x' y'))
  /\ (forall p q, 0 <= p -> 0 <= q ->
        (forall x' y', x0 <= x' < x1 -> y0 <= y' < y1 -> dest x' y' <> (p, q)) ->
        Grid_get (tgt s) p q = Grid_get (tgt s0) p q).

(** The value of a cell, DEAD outside the grid. *)
Definition cell_of (g : Grid) (x y : Z) : Cell :=
  match Grid_get g x y with
  | Ok c => c
  | Throw _ => DEAD
  end.

(** The sum of [f] over the [n] integers from [lo] on. *)
Fixpoint sum_from (n : nat) (lo : Z) (f : Z -> Z) : Z :=
  match n with
  | O => 0
  | S n' => f lo + sum_from n' (lo + 1) f
  end.

(** The two integers of the header of a file as unsigned bit patterns, in
    file order, and the number of chunks the decoder expects after them:
    the cell count modulo 2^32 divided by 32, rounded up. *)
Definition header_first (bytes : list byte) : Z := le_value (take 4 bytes).
Definition header_second (bytes : list byte) : Z := le_value (take 4 (drop 4 bytes)).
Definition header_chunks (bytes : list byte) : Z :=
  (u32 (header_second bytes * header_first bytes) + 31) / 32.

(** What the decoder's grid looks like at every point of the decoding loop:
    the extents read from the header and as many cells as Grid's
    constructor allocated for them. *)
Definition decoded_shape (w h : Z) (g : Grid) : Prop :=
  width g = w /\ height g = h /\ Z.of_nat (length (gridVector g)) = u32 (w * h).

(** 1 for an ALIVE cell of the grid, 0 for a DEAD cell and for a
    coordinate outside the grid. *)
Definition alive_at (g : Grid) (x y : Z) : Z :=
  match Grid_get g x y with
  | Ok ALIVE => 1
  | _ => 0
  end.

(** The eight offsets of the 3x3 neighbourhood without its centre, and the
    number of live neighbours under the two boundary policies as the
    specification words them: outside cells are dead, or every axis wraps
    modulo its extent. *)
Definition neighbourhood : list (Z * Z) :=
  [(-1, -1); (0, -1); (1, -1); (-1, 0); (1, 0); (-1, 1); (0, 1); (1, 1)].

Definition bounded_neighbours (g : Grid) (x y : Z) : Z :=
  foldr (fun d n => alive_at g (x + fst d) (y + snd d) + n) 0 neighbourhood.

Definition toroidal_neighbours (g : Grid) (x y : Z) : Z :=
  foldr (fun d n =>
           alive_at g ((x + fst d) mod width g) ((y + snd d) mod height g) + n)
        0 neighbourhood.

(** The rule of the Game of Life. *)
Definition life_rule (c : Cell) (n : Z) : Cell :=
  match c with
  | ALIVE => if (n =? 2) || (n =? 3) then ALIVE else DEAD
  | DEAD => if n =? 3 then ALIVE else DEAD
  end.

(** The number of live neighbours under the policy [torodial] selects. *)
Definition live_neighbours (torodial : bool) (g : Grid) (x y : Z) : Z :=
  if torodial then toroidal_neighbours g x y else bounded_neighbours g x y.

(** The bit of cell number [p] of a vector of cells: 1 for an ALIVE cell, 0
    for a DEAD cell and past the end of the vector. *)
Definition cell_bit (v : list Cell) (p : Z) : Z :=
  match v !! Z.to_nat p with
  | Some ALIVE => 1
  | _ => 0
  end.

(** The 32 cells from number [32 * i] on, packed least significant bit first. *)
Definition chunk_value (v : list Cell) (i : Z) : Z :=
  sum_from 32 0 (fun j => cell_bit v (32 * i + j) * 2 ^ j).

(** The bytes of the [n] chunks from chunk [i] on. *)
Fixpoint chunks_from (v : list Cell) (n : nat) (i : Z) : list byte :=
  match n with
  | O => []
  | S n' => write4 (chunk_value v i) ++ chunks_from v n' (i + 1)
  end.

(** The file format: width, height, and the chunks of the cells. *)
Definition encoded (g : Grid) : list byte :=
  write4 (width g) ++ write4 (height g)
  ++ chunks_from (gridVector g) (Z.to_nat ((width g * height g + 31) / 32)) 0.

(** Where the encoder stands before cell number [p]: at its coordinates, or
    out of bounds once every cell is written. *)
Definition at_cell (g : Grid) (p : Z) (s : save_state) : Prop :=
  (p < width g * height g ->
   outOfBounds s = false /\ 0 <= sx s < width g /\ 0 <= sy s < height g
   /\ width g * sy s + sx s = p)
  /\ (width g * height g <= p -> outOfBounds s = true).

(** The cells the decoder has settled when it is before cell number [m]:
    they are those of [v]; the cells from [m] on are still DEAD. *)
Definition decoded_upto (v : list Cell) (m : Z) (g : Grid) : Prop :=
  forall p : nat, (p < length v)%nat ->
    gridVector g !! p = if Z.of_nat p <? m then v !! p else Some DEAD.

(** The number of cells of a vector that are [which]. *)
Fixpoint cells_equal_to (which : Cell) (v : list Cell) : Z :=
  match v with
  | [] => 0
  | c :: v' => (if cell_eqb c which then 1 else 0) + cells_equal_to which v'
  end.

(** What a member function keeps of a grid [g] whatever its outcome: the
    class invariant and the extents. *)
Definition same_shape (g g' : Grid) : Prop :=
  Grid_wf g' /\ width g' = width g /\ height g' = height g.

(** The place, in the grid turned by [k] quarter turns clockwise, of the
    cell [(x, y)] of a grid of [w] by [h] cells. *)
Definition rotated_place (k w h x y : Z) : Z * Z :=
  match k mod 4 with
  | 0 => (x, y)
  | 1 => (h - 1 - y, x)
  | 2 => (w - 1 - x, h - 1 - y)
  | _ => (y, w - 1 - x)
  end.

(** The extents of the grid turned by [k] quarter turns. *)
Definition rotated_extents (k w h : Z) : Z * Z :=
  if Z.even k then (w, h) else (h, w).

(** The texts [line y], [line (y + 1)], ... of [n] iterations of a loop that
    writes, one after the other. *)
Fixpoint lines_from (n : nat) (y : Z) (line : Z -> list byte) : list byte :=
  match n with
  | O => []
  | S n' => line y ++ lines_from n' (y + 1) line
  end.

(** The cells of row [y] of a grid, as the vector stores them. *)
Definition row_cells (g : Grid) (y : Z) : list Cell :=
  take (Z.to_nat (width g)) (drop (Z.to_nat (width g * y)) (gridVector g)).

(** The text operator<< writes for a grid: a border, a line for each row
    between two bars, a border. *)
Definition border_line (g : Grid) : list byte :=
  x2b :: replicate (Z.to_nat (width g)) x2d ++ [x2b; x0a].

Definition row_line (g : Grid) (y : Z) : list byte :=
  x7c :: map cell_char (row_cells g y) ++ [x7c; x0a].

Definition rendered (g : Grid) : list byte :=
  border_line g ++ lines_from (Z.to_nat (height g)) 0 (row_line g) ++ border_line g.

(** The two buffers of a world have the class invariant and the same
    extents. *)
Definition World_wf (w : World) : Prop :=
  Grid_wf (currGrid w) /\ Grid_wf (nextGrid w)
  /\ width (nextGrid w) = width (currGrid w)
  /\ height (nextGrid w) = height (currGrid w).

(** The value of chunk [i] of a binary file: the four bytes after the header
    and [i] chunks, little-endian. *)
Definition chunk_of (bytes : list byte) (i : Z) : Z :=
  le_value (take 4 (drop (Z.to_nat (8 + 4 * i)) bytes)).

(** The cell at place [p] of the vector is there and ALIVE. *)
Definition alive_in (v : list Cell) (p : Z) : bool :=
  match v !! Z.to_nat p with
  | Some ALIVE => true
  | _ => false
  end.

(** The text Zoo::save_ascii writes for a grid: the two extents in decimal,
    then a line of cell characters for each row. *)
Definition ascii_row (g : Grid) (y : Z) : list byte :=
  map cell_char (row_cells g y) ++ [x0a].

Definition ascii_header (g : Grid) : list byte :=
  to_decimal (width g) ++ [x20] ++ to_decimal (height g) ++ [x0a].

Definition ascii_text (g : Grid) : list byte :=
  ascii_header g ++ lines_from (Z.to_nat (height g)) 0 (ascii_row g).

(** The same text without the new line that ends the last row. *)
Definition ascii_text_open (g : Grid) : list byte :=
  ascii_header g ++ lines_from (Z.to_nat (height g - 1)) 0 (ascii_row g)
  ++ map cell_char (row_cells g (height g - 1)).

(** The loops of Zoo::load_ascii have filled the grid with the cells of [g]
    up to, and without, the cell [(x, y)]; [s0] is the state they began in. *)
Definition ascii_filled (g : Grid) (s0 : ascii_state) (y x : Z) (s : ascii_state) : Prop :=
  filled ascii_grid (fun _ => True) 0 0 (width g) (height g)
    (fun x y => (x, y)) (fun x y => cell_of g x y) (width g) (height g) s0 y x s.

(** A character is a decimal digit, by its code. *)
Definition is_digit_byte (b : byte) : Prop := 48 <= byte_val b <= 57.

(** * Properties *)

(** ** Machine integers *)

Lemma u32_small (z : Z) : 0 <= z < 2 ^ 32 -> u32 z = z.
Proof. intros H. unfold u32. apply Z.mod_small. exact H. Qed.

Lemma u32_range (z : Z) : 0 <= u32 z < 2 ^ 32.
Proof. unfold u32. apply Z.mod_pos_bound. lia. Qed.

Lemma to_int_small (z : Z) : - 2 ^ 31 <= z < 2 ^ 31 -> to_int z = z.
Proof. intros H. unfold to_int. rewrite Z.mod_small; lia. Qed.

(** ** The loop rule *)

Section Loops.
Context {S : Type}.
Variable body : Z -> M S unit.
Variable I : Z -> S -> Prop.

(** An invariant that every iteration re-establishes without throwing
    holds when the loop is left, and the loop does not throw. *)
Lemma for_iter_inv (n : nat) (lo : Z) (s : S) :
  I lo s ->
  (forall i t, lo <= i < lo + Z.of_nat n -> I i t ->
     exists t', body i t = (Ok tt, t') /\ I (i + 1) t') ->
  exists s', for_iter n lo body s = (Ok tt, s') /\ I (lo + Z.of_nat n) s'.
Proof.
  revert lo s. induction n as [|n IH]; intros lo s H0 Hstep.
  - exists s. simpl. rewrite Z.add_0_r. split; [reflexivity | exact H0].
  - destruct (Hstep lo s ltac:(lia) H0) as (t & Hb & Ht).
    destruct (IH (lo + 1) t Ht) as (s' & Hs' & HI).
    { intros i u Hi Hu. apply Hstep; [lia | exact Hu]. }
    exists s'. split.
    + simpl. unfold bind. rewrite Hb. exact Hs'.
    + replace (lo + Z.of_nat (Datatypes.S n)) with (lo + 1 + Z.of_nat n) by lia.
      exact HI.
Qed.

Lemma for_range_inv (lo hi : Z) (s : S) :
  lo <= hi ->
  I lo s ->
  (forall i t, lo <= i < hi -> I i t ->
     exists t', body i t = (Ok tt, t') /\ I (i + 1) t') ->
  exists s', for_range lo hi body s = (Ok tt, s') /\ I hi s'.
Proof.
  intros Hle H0 Hstep. unfold for_range.
  destruct (for_iter_inv (Z.to_nat (hi - lo)) lo s H0) as (s' & Hs' & HI).
  { intros i t Hi. apply Hstep. lia. }
  exists s'. split; [exact Hs' |].
  replace (lo + Z.of_nat (Z.to_nat (hi - lo))) with hi in HI by lia.
  exact HI.
Qed.
(** A loop whose invariant holds up to an iteration that throws, throws. *)
Lemma for_iter_throws (n : nat) (lo j : Z) (e : exn) (s : S) :
  lo <= j < lo + Z.of_nat n ->
  I lo s ->
  (forall i t, lo <= i < j -> I i t ->
     exists t', body i t = (Ok tt, t') /\ I (i + 1) t') ->
  (forall t, I j t -> exists t', body j t = (Throw e, t')) ->
  exists s', for_iter n lo body s = (Throw e, s').
Proof.
  revert lo s. induction n as [| n IH]; intros lo s Hj H0 Hstep Hthrow; [lia |].
  simpl. unfold bind.
  destruct (Z.eq_dec lo j) as [-> | Hne].
  - destruct (Hthrow s H0) as (t' & Hb). rewrite Hb. eauto.
  - destruct (Hstep lo s ltac:(lia) H0) as (t & Hb & Ht). rewrite Hb.
    apply (IH (lo + 1) t); [lia | exact Ht | | exact Hthrow].
    intros i u Hi. apply Hstep. lia.
Qed.

Lemma for_range_throws (lo hi j : Z) (e : exn) (s : S) :
  lo <= j < hi ->
  I lo s ->
  (forall i t, lo <= i < j -> I i t ->
     exists t', body i t = (Ok tt, t') /\ I (i + 1) t') ->
  (forall t, I j t -> exists t', body j t = (Throw e, t')) ->
  exists s', for_range lo hi body s = (Throw e, s').
Proof.
  intros Hj. unfold for_range. apply for_iter_throws. lia.
Qed.
End Loops.

Section ForCond.
Context {S : Type}.
Variable cond : Z -> S -> bool.
Variable body : Z -> M S unit.
Variable I : Z -> S -> Prop.

(** The rule of a loop whose condition reads the state: the loop is left
    with the invariant, at the bound or where the condition fails. *)
Lemma for_cond_inv (n : nat) (i0 : Z) (s : S) :
  I i0 s ->
  (forall i t, i0 <= i < i0 + Z.of_nat n -> I i t -> cond i t = true ->
     exists t', body i t = (Ok tt, t') /\ I (i + 1) t') ->
  exists s' k,
    for_cond n i0 cond body s = (Ok tt, s')
    /\ i0 <= k <= i0 + Z.of_nat n /\ I k s'
    /\ (k < i0 + Z.of_nat n -> cond k s' = false).
Proof.
  revert i0 s. induction n as [| n IH]; intros i0 s H0 Hstep.
  - exists s, i0. simpl. split; [reflexivity |]. split; [lia |].
    split; [exact H0 | lia].
  - simpl for_cond. destruct (cond i0 s) eqn:Hc.
    + destruct (Hstep i0 s ltac:(lia) H0 Hc) as (t & Hb & Ht).
      destruct (IH (i0 + 1) t Ht) as (s' & k & Hrun & Hk & HI & Hend).
      { intros i u Hi. apply Hstep. lia. }
      exists s', k. unfold bind. rewrite Hb.
      split; [exact Hrun |]. split; [lia |]. split; [exact HI |].
      intros Hlt. apply Hend. lia.
    + exists s, i0. split; [reflexivity |]. split; [lia |].
      split; [exact H0 | intros _; exact Hc].
Qed.
End ForCond.

(** ** Grid: reading and writing cells *)

Lemma valid_iff (g : Grid) (x y : Z) :
  are_valid_coordinates g x y = true <-> 0 <= x < width g /\ 0 <= y < height g.
Proof. unfold are_valid_coordinates. rewrite !andb_true_iff. lia. Qed.

Lemma invalid_iff (g : Grid) (x y : Z) :
  0 <= x -> 0 <= y ->
  are_valid_coordinates g x y = false <-> x >= width g \/ y >= height g.
Proof.
  intros Hx Hy. rewrite <- not_true_iff_false, valid_iff. lia.
Qed.

Lemma get_index_idx (g : Grid) (x y : Z) :
  Grid_wf g -> 0 <= x < width g -> 0 <= y < height g ->
  get_index g x y = width g * y + x /\ (idx g x y < length (gridVector g))%nat.
Proof.
  intros [Hw Hh Ht Hc] Hx Hy.
  assert (Hb : 0 <= width g * y /\ width g * y + x < width g * height g) by nia.
  unfold get_index, get_index_new_grid, idx.
  rewrite (u32_small (width g * y)) by lia.
  rewrite u32_small by lia. split; [reflexivity | lia].
Qed.

Lemma idx_inj (g : Grid) (x y x' y' : Z) :
  0 <= x < width g -> 0 <= x' < width g -> 0 <= y -> 0 <= y' ->
  idx g x y = idx g x' y' -> x = x' /\ y = y'.
Proof.
  unfold idx. intros Hx Hx' Hy Hy' H.
  assert (E : width g * y + x = width g * y' + x') by nia.
  assert (y = y') by nia. subst y'. lia.
Qed.

Lemma Grid_get_valid (g : Grid) (x y : Z) :
  Grid_wf g -> 0 <= x < width g -> 0 <= y < height g ->
  exists c, gridVector g !! idx g x y = Some c /\ Grid_get g x y = Ok c
            /\ Grid_call_const g x y = Ok c /\ Grid_call x y g = (Ok c, g).
Proof.
  intros Hwf Hx Hy.
  destruct (get_index_idx g x y Hwf Hx Hy) as [Hi Hlt].
  destruct (lookup_lt_is_Some_2 _ _ Hlt) as [c Hc].
  assert (Hv : are_valid_coordinates g x y = true) by (apply valid_iff; lia).
  exists c. unfold Grid_get, Grid_call_const, Grid_call, vec_read.
  rewrite Hv, Hi. fold (idx g x y). rewrite Hc. simpl. auto.
Qed.

Lemma Grid_get_invalid (g : Grid) (x y : Z) :
  are_valid_coordinates g x y = false ->
  Grid_get g x y = Throw (invalid_argument "get() : Invalid coordinates.").
Proof. intros H. unfold Grid_get. rewrite H. reflexivity. Qed.

Lemma Grid_assign_valid (g : Grid) (x y : Z) (c : Cell) :
  Grid_wf g -> 0 <= x < width g -> 0 <= y < height g ->
  Grid_assign x y c g =
    (Ok tt, mkGrid (width g) (height g) (<[idx g x y := c]> (gridVector g)))
  /\ Grid_wf (mkGrid (width g) (height g) (<[idx g x y := c]> (gridVector g))).
Proof.
  intros Hwf Hx Hy.
  destruct (get_index_idx g x y Hwf Hx Hy) as [Hi Hlt].
  assert (Hv : are_valid_coordinates g x y = true) by (apply valid_iff; lia).
  split.
  - unfold Grid_assign, vec_write. rewrite Hv, Hi. simpl.
    fold (idx g x y).
    destruct (Z.ltb_spec (width g * y + x) (Z.of_nat (length (gridVector g))))
      as [_ | Hge]; [reflexivity |].
    unfold idx in Hlt. destruct Hwf. lia.
  - destruct Hwf as [Hw Hh Ht Hc].
    constructor; simpl; try assumption. rewrite length_insert. exact Hc.
Qed.

(** Reading a grid after one assignment. *)
Lemma Grid_get_insert (g : Grid) (x y x' y' : Z) (c : Cell) :
  Grid_wf g -> 0 <= x < width g -> 0 <= y < height g ->
  0 <= x' -> 0 <= y' ->
  Grid_get (mkGrid (width g) (height g) (<[idx g x y := c]> (gridVector g))) x' y'
  = if decide (x' = x /\ y' = y) then Ok c else Grid_get g x' y'.
Proof.
  intros Hwf Hx Hy Hx' Hy'.
  set (g' := mkGrid _ _ _).
  assert (Hwf' : Grid_wf g') by (apply Grid_assign_valid; assumption).
  destruct (are_valid_coordinates g x' y') eqn:Hv.
  - apply valid_iff in Hv. destruct Hv as [Hvx Hvy].
    destruct (Grid_get_valid g' x' y' Hwf') as (c' & Hl & Hg & _); [exact Hvx | exact Hvy |].
    destruct (Grid_get_valid g x' y' Hwf Hvx Hvy) as (c0 & Hl0 & Hg0 & _).
    rewrite Hg, Hg0. unfold g', idx in Hl. simpl in Hl. fold (idx g x y) (idx g x' y') in Hl.
    destruct (get_index_idx g x y Hwf Hx Hy) as [_ Hlt].
    destruct (decide (x' = x /\ y' = y)) as [[-> ->] | Hne].
    + rewrite list_lookup_insert_eq in Hl by exact Hlt. congruence.
    + rewrite list_lookup_insert_ne in Hl.
      * congruence.
      * intros E. apply idx_inj in E; lia.
  - assert (Hv' : are_valid_coordinates g' x' y' = false) by exact Hv.
    rewrite (Grid_get_invalid _ _ _ Hv'), (Grid_get_invalid _ _ _ Hv).
    destruct (decide (x' = x /\ y' = y)) as [[-> ->] | Hne]; [| reflexivity].
    apply not_true_iff_false in Hv. exfalso. apply Hv. apply valid_iff. lia.
Qed.

(** ** Indexing *)

(** C9. On a grid of width [w] and height [h], [set(x, y, v)] at a valid
    coordinate followed by [get(x, y)] returns [v], the extents and every
    other cell stay as they were; at any [x >= w] or [y >= h], [get], [set]
    and both forms of [operator()] throw their invalid-coordinates exception
    and the grid is the one it was. *)
Theorem Grid_set_get_indexing (g : Grid) (x y : Z) (v : Cell) :
  Grid_wf g -> 0 <= x < 2 ^ 32 -> 0 <= y < 2 ^ 32 ->
  (x < width g /\ y < height g ->
     exists g',
       Grid_set x y v g = (Ok tt, g') /\
       Grid_get g' x y = Ok v /\
       width g' = width g /\ height g' = height g /\
       (forall x' y', 0 <= x' < 2 ^ 32 -> 0 <= y' < 2 ^ 32 ->
          ~ (x' = x /\ y' = y) -> Grid_get g' x' y' = Grid_get g x' y'))
  /\
  (x >= width g \/ y >= height g ->
     Grid_get g x y = Throw (invalid_argument "get() : Invalid coordinates.") /\
     Grid_set x y v g = (Throw (invalid_argument "set() : Invalid coordinates."), g) /\
     Grid_call_const g x y
       = Throw (invalid_argument "Cell operator() : Invalid coordinates.") /\
     Grid_call x y g
       = (Throw (runtime_error "Cell& operator() : Invalid coordinates."), g) /\
     Grid_assign x y v g
       = (Throw (runtime_error "Cell& operator() : Invalid coordinates."), g)).
Proof.
  intros Hwf Hx Hy. split.
  - intros [Hxw Hyh].
    destruct (Grid_assign_valid g x y v Hwf) as [Ha Hwf']; [lia | lia |].
    eexists. split; [| split; [| split; [| split]]].
    + unfold Grid_set.
      replace (are_valid_coordinates g x y) with true
        by (symmetry; apply valid_iff; lia).
      simpl. exact Ha.
    + rewrite Grid_get_insert by (assumption || lia).
      destruct (decide (x = x /\ y = y)) as [_ | Hne]; [reflexivity | lia].
    + reflexivity.
    + reflexivity.
    + intros x' y' Hx' Hy' Hne.
      rewrite Grid_get_insert by (assumption || lia).
      destruct (decide (x' = x /\ y' = y)) as [He | _]; [contradiction | reflexivity].
  - intros Hout.
    assert (Hv : are_valid_coordinates g x y = false) by (apply invalid_iff; lia).
    unfold Grid_get, Grid_set, Grid_call_const, Grid_call, Grid_assign.
    rewrite Hv. simpl. auto.
Qed.

Lemma Grid_set_get_indexing_witness :
  Grid_wf (Grid_new 2 2) /\ 0 <= 1 < 2 ^ 32 /\ 0 <= 0 < 2 ^ 32 /\
  ((1 < width (Grid_new 2 2) /\ 0 < height (Grid_new 2 2) ->
     exists g',
       Grid_set 1 0 ALIVE (Grid_new 2 2) = (Ok tt, g') /\
       Grid_get g' 1 0 = Ok ALIVE /\
       width g' = width (Grid_new 2 2) /\ height g' = height (Grid_new 2 2) /\
       (forall x' y', 0 <= x' < 2 ^ 32 -> 0 <= y' < 2 ^ 32 ->
          ~ (x' = 1 /\ y' = 0) -> Grid_get g' x' y' = Grid_get (Grid_new 2 2) x' y'))
   /\
   (1 >= width (Grid_new 2 2) \/ 0 >= height (Grid_new 2 2) ->
     Grid_get (Grid_new 2 2) 1 0
       = Throw (invalid_argument "get() : Invalid coordinates.") /\
     Grid_set 1 0 ALIVE (Grid_new 2 2)
       = (Throw (invalid_argument "set() : Invalid coordinates."), Grid_new 2 2) /\
     Grid_call_const (Grid_new 2 2) 1 0
       = Throw (invalid_argument "Cell operator() : Invalid coordinates.") /\
     Grid_call 1 0 (Grid_new 2 2)
       = (Throw (runtime_error "Cell& operator() : Invalid coordinates."), Grid_new 2 2) /\
     Grid_assign 1 0 ALIVE (Grid_new 2 2)
       = (Throw (runtime_error "Cell& operator() : Invalid coordinates."), Grid_new 2 2))).
Proof.
  assert (Hwf : Grid_wf (Grid_new 2 2)) by (constructor; simpl; lia).
  split; [exact Hwf |]. split; [lia |]. split; [lia |].
  apply (Grid_set_get_indexing (Grid_new 2 2) 1 0 ALIVE Hwf); lia.
Defined.

(** ** Merge: the placement offset *)

(** C10. Grid::merge also requires the offset [(x0, y0)] to be a coordinate
    of the destination: whenever [x0 >= width] or [y0 >= height] (so for every
    merge into a 0x0 grid, and for an empty source placed flush at the right
    or bottom edge) it throws std::invalid_argument and the destination is
    untouched, whether or not the overlay fits. *)
Theorem Grid_merge_rejects_edge_offset (this other : Grid) (x0 y0 : Z)
    (alive_only : bool) :
  0 <= x0 -> 0 <= y0 ->
  x0 >= width this \/ y0 >= height this ->
  Grid_merge other x0 y0 alive_only this
  = (Throw (invalid_argument "merge() : The other grid does not fit in this grid."),
     this).
Proof.
  intros Hx Hy Hout. unfold Grid_merge.
  replace (are_valid_coordinates this x0 y0) with false
    by (symmetry; apply invalid_iff; lia).
  rewrite !orb_true_r. reflexivity.
Qed.

Lemma Grid_merge_rejects_edge_offset_witness :
  0 <= 2 /\ 0 <= 0 /\
  (2 >= width (Grid_new 2 2) \/ 0 >= height (Grid_new 2 2)) /\
  u32 (get_width (Grid_new 0 1) + 2) <= width (Grid_new 2 2) /\
  u32 (get_height (Grid_new 0 1) + 0) <= height (Grid_new 2 2) /\
  Grid_merge (Grid_new 0 1) 2 0 true (Grid_new 2 2)
  = (Throw (invalid_argument "merge() : The other grid does not fit in this grid."),
     Grid_new 2 2).
Proof.
  split; [lia |]. split; [lia |]. split; [simpl; lia |].
  split; [vm_compute; discriminate |]. split; [vm_compute; discriminate |].
  apply (Grid_merge_rejects_edge_offset (Grid_new 2 2) (Grid_new 0 1) 2 0 true);
    simpl; lia.
Defined.

(** ** Filling a window of cells *)

Section FillWindow.
Context {S : Type}.
Variable tgt : S -> Grid.
Variable keep : S -> Prop.
Variable body : Z -> Z -> M S unit.
Variables x0 y0 x1 y1 : Z.
Variable dest : Z -> Z -> Z * Z.
Variable val : Z -> Z -> Cell.
Variables w h : Z.
Variable s0 : S.

Hypothesis x_window : x0 <= x1.
Hypothesis y_window : y0 <= y1.
Hypothesis dest_valid : forall x y, x0 <= x < x1 -> y0 <= y < y1 ->
  0 <= fst (dest x y) < w /\ 0 <= snd (dest x y) < h.
Hypothesis dest_inj : forall x y x' y',
  x0 <= x < x1 -> y0 <= y < y1 -> x0 <= x' < x1 -> y0 <= y' < y1 ->
  dest x y = dest x' y' -> x = x' /\ y = y'.
Hypothesis body_assigns : forall x y s,
  x0 <= x < x1 -> y0 <= y < y1 ->
  keep s -> Grid_wf (tgt s) -> width (tgt s) = w -> height (tgt s) = h ->
  exists s',
    body y x s = (Ok tt, s') /\ keep s'
    /\ tgt s' = mkGrid (width (tgt s)) (height (tgt s))
                  (<[idx (tgt s) (fst (dest x y)) (snd (dest x y)) := val x y]>
                     (gridVector (tgt s))).
Hypothesis start : keep s0 /\ Grid_wf (tgt s0) /\ width (tgt s0) = w /\ height (tgt s0) = h.

Lemma fill_step (y x : Z) (s : S) :
  x0 <= x < x1 -> y0 <= y < y1 ->
  filled tgt keep x0 y0 x1 y1 dest val w h s0 y x s ->
  exists s', body y x s = (Ok tt, s')
             /\ filled tgt keep x0 y0 x1 y1 dest val w h s0 y (x + 1) s'.
Proof.
  intros Hx Hy (Hkeep & Hwf & Hw & Hh & Hcells & Hframe).
  destruct (body_assigns x y s Hx Hy Hkeep Hwf Hw Hh) as (s' & Hb & Hkeep' & Htgt).
  destruct (dest_valid x y Hx Hy) as [Hdx Hdy].
  exists s'. split; [exact Hb |].
  assert (Hwf' : Grid_wf (tgt s'))
    by (rewrite Htgt; apply Grid_assign_valid; (assumption || lia)).
  split; [exact Hkeep' |]. split; [exact Hwf' |].
  split; [rewrite Htgt; exact Hw |]. split; [rewrite Htgt; exact Hh |].
  split.
  - intros x' y' Hx' Hy' Hdone.
    destruct (dest_valid x' y' Hx' Hy') as [Hdx' Hdy'].
    rewrite Htgt, Grid_get_insert by (assumption || lia).
    destruct (decide (fst (dest x' y') = fst (dest x y)
                      /\ snd (dest x' y') = snd (dest x y))) as [[E1 E2] | Hne].
    + assert (E : dest x' y' = dest x y)
        by (destruct (dest x' y'), (dest x y); simpl in *; congruence).
      destruct (dest_inj x' y' x y Hx' Hy' Hx Hy E) as [-> ->]. reflexivity.
    + apply Hcells; try assumption.
      unfold done_before in *.
      destruct (decide (x' = x /\ y' = y)) as [[-> ->] | Hxy]; [tauto | lia].
  - intros p q Hp Hq Hout.
    rewrite Htgt, Grid_get_insert by (assumption || lia).
    destruct (decide (p = fst (dest x y) /\ q = snd (dest x y))) as [[-> ->] | _].
    + exfalso. apply (Hout x y Hx Hy). destruct (dest x y); reflexivity.
    + apply Hframe; assumption.
Qed.

(** The two nested loops do not throw, and leave every value of the window
    at its destination and the rest of the grid as it was. *)
Lemma fill_window_spec :
  exists s',
    for_range y0 y1 (fun y => for_range x0 x1 (fun x => body y x)) s0 = (Ok tt, s')
    /\ keep s' /\ Grid_wf (tgt s') /\ width (tgt s') = w /\ height (tgt s') = h
    /\ (forall x y, x0 <= x < x1 -> y0 <= y < y1 ->
          Grid_get (tgt s') (fst (dest x y)) (snd (dest x y)) = Ok (val x y))
    /\ (forall p q, 0 <= p -> 0 <= q ->
          (forall x y, x0 <= x < x1 -> y0 <= y < y1 -> dest x y <> (p, q)) ->
          Grid_get (tgt s') p q = Grid_get (tgt s0) p q).
Proof.
  destruct (for_range_inv
              (fun y => for_range x0 x1 (fun x => body y x))
              (fun y s => filled tgt keep x0 y0 x1 y1 dest val w h s0 y x0 s)
              y0 y1 s0) as (s' & Hrun & Hfin).
  - exact y_window.
  - destruct start as (Hk & Hwf & Hw & Hh).
    split; [exact Hk |]. split; [exact Hwf |]. split; [exact Hw |].
    split; [exact Hh |]. split.
    + intros x' y' Hx' Hy' Hdone. unfold done_before in Hdone. lia.
    + reflexivity.
  - intros y s Hy Hinv.
    destruct (for_range_inv (fun x => body y x)
                (fun x s => filled tgt keep x0 y0 x1 y1 dest val w h s0 y x s)
                x0 x1 s) as (t & Hrun & Hfin).
    + exact x_window.
    + exact Hinv.
    + intros x t Hx Ht. apply fill_step; [lia | lia | exact Ht].
    + exists t. split; [exact Hrun |].
      destruct Hfin as (Hk & Hwf & Hw & Hh & Hcells & Hframe).
      split; [exact Hk |]. split; [exact Hwf |]. split; [exact Hw |].
      split; [exact Hh |]. split; [| exact Hframe].
      intros x' y' Hx' Hy' Hdone. apply Hcells; try assumption.
      unfold done_before in *. lia.
  - exists s'. split; [exact Hrun |].
    destruct Hfin as (Hk & Hwf & Hw & Hh & Hcells & Hframe).
    split; [exact Hk |]. split; [exact Hwf |]. split; [exact Hw |].
    split; [exact Hh |]. split; [| exact Hframe].
    intros x y Hx Hy. apply Hcells; try assumption.
    unfold done_before. lia.
Qed.
End FillWindow.

(** The two nested loops of crop and of rotate: nothing throws, the
    destination keeps its shape, and every cell of the window is found at
    its destination. *)
Lemma copy_window_spec (this : Grid) (x0 y0 x1 y1 : Z) (dest : Z -> Z -> Z * Z)
    (ng : Grid) :
  Grid_wf this -> Grid_wf ng ->
  0 <= x0 <= x1 /\ x1 <= width this -> 0 <= y0 <= y1 /\ y1 <= height this ->
  (forall x y, x0 <= x < x1 -> y0 <= y < y1 ->
     0 <= fst (dest x y) < width ng /\ 0 <= snd (dest x y) < height ng) ->
  (forall x y x' y',
     x0 <= x < x1 -> y0 <= y < y1 -> x0 <= x' < x1 -> y0 <= y' < y1 ->
     dest x y = dest x' y' -> x = x' /\ y = y') ->
  exists ng',
    for_range y0 y1 (fun y => for_range x0 x1 (fun x => copy_cell this dest y x)) ng
      = (Ok tt, ng')
    /\ Grid_wf ng' /\ width ng' = width ng /\ height ng' = height ng
    /\ forall x y, x0 <= x < x1 -> y0 <= y < y1 ->
         Grid_get ng' (fst (dest x y)) (snd (dest x y)) = Grid_get this x y.
Proof.
  intros Hwf Hng Hx Hy Hvalid Hinj.
  destruct (fill_window_spec (fun g : Grid => g) (fun _ => True)
              (copy_cell this dest) x0 y0 x1 y1 dest (cell_of this)
              (width ng) (height ng) ng)
    as (ng' & Hrun & _ & Hwf' & Ew & Eh & Hcells & _); try assumption; try lia.
  - intros x y g Hwx Hwy _ Hg Egw Egh.
    destruct (Grid_get_valid this x y Hwf) as (c & _ & Hget & _); [lia | lia |].
    destruct (Hvalid x y Hwx Hwy) as [Hdx Hdy].
    destruct (Grid_assign_valid g (fst (dest x y)) (snd (dest x y)) c Hg)
      as [Hassign _]; [lia | lia |].
    eexists. split; [| split; [exact I |]].
    + unfold copy_cell, bind, lift. rewrite Hget. exact Hassign.
    + unfold cell_of. rewrite Hget. reflexivity.
  - auto.
  - exists ng'. split; [exact Hrun |]. split; [exact Hwf' |].
    split; [exact Ew |]. split; [exact Eh |].
    intros x y Hwx Hwy. rewrite (Hcells x y Hwx Hwy). unfold cell_of.
    destruct (Grid_get_valid this x y Hwf) as (c & _ & Hget & _); [lia | lia |].
    rewrite Hget. reflexivity.
Qed.

(** ** Fresh grids and equality of grids *)

Lemma Grid_new_wf (w h : Z) :
  0 <= w < 2 ^ 32 -> 0 <= h < 2 ^ 32 -> w * h < 2 ^ 32 -> Grid_wf (Grid_new w h).
Proof.
  intros Hw Hh Ht. constructor; simpl; try assumption.
  rewrite length_replicate, u32_small by nia. nia.
Qed.

(** Two well-formed grids of one shape that read alike are the same grid. *)
Lemma Grid_ext (g1 g2 : Grid) :
  Grid_wf g1 -> Grid_wf g2 ->
  width g1 = width g2 -> height g1 = height g2 ->
  (forall x y, 0 <= x < width g1 -> 0 <= y < height g1 ->
     Grid_get g1 x y = Grid_get g2 x y) ->
  g1 = g2.
Proof.
  intros Hwf1 Hwf2 Ew Eh Hcells.
  assert (Hvec : gridVector g1 = gridVector g2).
  { apply list_eq. intros i.
    destruct (decide (i < length (gridVector g1))%nat) as [Hlt | Hge].
    - pose proof (wf_cells _ Hwf1) as Hc1. pose proof (wf_width _ Hwf1) as Hw1.
      pose proof (wf_height _ Hwf1) as Hh1.
      set (z := Z.of_nat i).
      assert (Hz : 0 <= z < width g1 * height g1) by lia.
      assert (Hwpos : 0 < width g1) by nia.
      assert (Hx : 0 <= z mod width g1 < width g1) by (apply Z.mod_pos_bound; lia).
      assert (Hy : 0 <= z / width g1 < height g1).
      { split; [apply Z.div_pos; lia |]. apply Z.div_lt_upper_bound; lia. }
      assert (Hi1 : idx g1 (z mod width g1) (z / width g1) = i).
      { unfold idx. rewrite <- Z.div_mod by lia. unfold z. lia. }
      assert (Hi2 : idx g2 (z mod width g1) (z / width g1) = i).
      { unfold idx. rewrite <- Ew. exact Hi1. }
      destruct (Grid_get_valid g1 _ _ Hwf1 Hx Hy) as (c1 & Hl1 & Hg1 & _).
      destruct (Grid_get_valid g2 (z mod width g1) (z / width g1) Hwf2)
        as (c2 & Hl2 & Hg2 & _); [lia | lia |].
      rewrite Hi1 in Hl1. rewrite Hi2 in Hl2.
      specialize (Hcells _ _ Hx Hy). rewrite Hg1, Hg2 in Hcells.
      congruence.
    - rewrite !lookup_ge_None_2; [reflexivity | | lia].
      pose proof (wf_cells _ Hwf1). pose proof (wf_cells _ Hwf2). nia. }
  destruct g1, g2; simpl in *; congruence.
Qed.

(** ** Crop *)

Lemma Grid_crop_window (g : Grid) (x0 y0 x1 y1 : Z) :
  Grid_wf g ->
  0 <= x0 <= x1 /\ x1 <= width g -> 0 <= y0 <= y1 /\ y1 <= height g ->
  exists g',
    run_local
      (for_range y0 y1 (fun y =>
         for_range x0 x1 (fun x =>
           let* c := lift (Grid_get g x y) in
           Grid_assign (u32 (x - x0)) (u32 (y - y0)) c)))
      (Grid_new (u32 (x1 - x0)) (u32 (y1 - y0))) = Ok g'
    /\ Grid_wf g' /\ width g' = x1 - x0 /\ height g' = y1 - y0
    /\ forall i j, 0 <= i < x1 - x0 -> 0 <= j < y1 - y0 ->
         Grid_get g' i j = Grid_get g (x0 + i) (y0 + j).
Proof.
  intros Hwf Hx Hy.
  pose proof (wf_width _ Hwf) as Hw. pose proof (wf_height _ Hwf) as Hh.
  pose proof (wf_total _ Hwf) as Ht.
  assert (Enw : u32 (x1 - x0) = x1 - x0) by (apply u32_small; lia).
  assert (Enh : u32 (y1 - y0) = y1 - y0) by (apply u32_small; lia).
  rewrite Enw, Enh.
  assert (Hnew : Grid_wf (Grid_new (x1 - x0) (y1 - y0)))
    by (apply Grid_new_wf; nia).
  destruct (copy_window_spec g x0 y0 x1 y1
              (fun x y => (u32 (x - x0), u32 (y - y0)))
              (Grid_new (x1 - x0) (y1 - y0)) Hwf Hnew Hx Hy)
    as (g' & Hrun & Hwf' & Ew & Eh & Hcells).
  - intros x y Hwx Hwy. simpl. rewrite !u32_small by lia. lia.
  - intros x y x' y' Hwx Hwy Hwx' Hwy' E. injection E as E1 E2.
    rewrite !u32_small in E1, E2 by lia. lia.
  - exists g'. unfold copy_cell in Hrun. simpl in Hrun.
    unfold run_local. rewrite Hrun.
    split; [reflexivity |]. split; [exact Hwf' |].
    split; [exact Ew |]. split; [exact Eh |].
    intros i j Hi Hj.
    specialize (Hcells (x0 + i) (y0 + j) ltac:(lia) ltac:(lia)).
    simpl in Hcells.
    replace (x0 + i - x0) with i in Hcells by lia.
    replace (y0 + j - y0) with j in Hcells by lia.
    rewrite !u32_small in Hcells by lia. exact Hcells.
Qed.

(** C7, as the code has it. Grid::crop throws std::invalid_argument exactly
    when [x0 >= w], [x1 > w], [y0 >= h], [y1 > h], [x0 > x1] or [y0 > y1]:
    the top-left corner must be a coordinate of the grid, so a window that
    starts at the right or bottom edge is rejected even when it is empty.
    Otherwise it returns a new grid of size [(x1 - x0) x (y1 - y0)] whose cell
    [(i, j)] is the source cell [(x0 + i, y0 + j)]; crop is a const member
    function, so the source is as it was. *)
Theorem Grid_crop_spec (g : Grid) (x0 y0 x1 y1 : Z) :
  Grid_wf g ->
  0 <= x0 < 2 ^ 32 -> 0 <= y0 < 2 ^ 32 -> 0 <= x1 < 2 ^ 32 -> 0 <= y1 < 2 ^ 32 ->
  (x0 >= width g \/ x1 > width g \/ y0 >= height g \/ y1 > height g
   \/ x0 > x1 \/ y0 > y1 ->
   exists what, Grid_crop g x0 y0 x1 y1 = Throw (invalid_argument what))
  /\
  (~ (x0 >= width g \/ x1 > width g \/ y0 >= height g \/ y1 > height g
      \/ x0 > x1 \/ y0 > y1) ->
   exists g',
     Grid_crop g x0 y0 x1 y1 = Ok g'
     /\ Grid_wf g' /\ width g' = x1 - x0 /\ height g' = y1 - y0
     /\ forall i j, 0 <= i < x1 - x0 -> 0 <= j < y1 - y0 ->
          Grid_get g' i j = Grid_get g (x0 + i) (y0 + j)).
Proof.
  intros Hwf Hx0 Hy0 Hx1 Hy1. unfold Grid_crop.
  destruct ((x0 >=? width g) || (x0 <? 0) || (x1 >? width g) || (x1 <? 0)
            || (y0 >=? height g) || (y0 <? 0) || (y1 >? height g) || (y1 <? 0))
    eqn:Hbounds.
  - split; [intros _; eexists; reflexivity |].
    intros Hok. exfalso. apply Hok.
    rewrite !orb_true_iff in Hbounds. lia.
  - rewrite !orb_false_iff in Hbounds.
    destruct ((x0 >? x1) || (y0 >? y1)) eqn:Hneg.
    + split; [intros _; eexists; reflexivity |].
      intros Hok. exfalso. apply Hok.
      rewrite orb_true_iff in Hneg. lia.
    + rewrite orb_false_iff in Hneg.
      split; [intros Hbad; exfalso; lia |].
      intros _. apply Grid_crop_window; [exact Hwf | lia | lia].
Qed.

Lemma Grid_crop_spec_witness :
  Grid_wf (Grid_new 3 3) /\
  0 <= 1 < 2 ^ 32 /\ 0 <= 1 < 2 ^ 32 /\ 0 <= 3 < 2 ^ 32 /\ 0 <= 3 < 2 ^ 32 /\
  ~ (1 >= width (Grid_new 3 3) \/ 3 > width (Grid_new 3 3)
     \/ 1 >= height (Grid_new 3 3) \/ 3 > height (Grid_new 3 3)
     \/ 1 > 3 \/ 1 > 3) /\
  exists g',
    Grid_crop (Grid_new 3 3) 1 1 3 3 = Ok g'
    /\ Grid_wf g' /\ width g' = 3 - 1 /\ height g' = 3 - 1
    /\ forall i j, 0 <= i < 3 - 1 -> 0 <= j < 3 - 1 ->
         Grid_get g' i j = Grid_get (Grid_new 3 3) (1 + i) (1 + j).
Proof.
  assert (Hwf : Grid_wf (Grid_new 3 3)) by (constructor; simpl; lia).
  assert (Hok : ~ (1 >= width (Grid_new 3 3) \/ 3 > width (Grid_new 3 3)
                   \/ 1 >= height (Grid_new 3 3) \/ 3 > height (Grid_new 3 3)
                   \/ 1 > 3 \/ 1 > 3)) by (simpl; lia).
  split; [exact Hwf |]. do 4 (split; [lia |]). split; [exact Hok |].
  refine (proj2 (Grid_crop_spec (Grid_new 3 3) 1 1 3 3 Hwf _ _ _ _) Hok); lia.
Defined.

(** C7 as stated fails: on a 2x2 grid the empty window with
    [x0 = x1 = w] meets none of the stated error conditions, and crop
    throws. *)
Lemma Grid_crop_empty_window_at_edge_throws :
  ~ (2 > width (Grid_new 2 2) \/ 2 > width (Grid_new 2 2)
     \/ 0 > height (Grid_new 2 2) \/ 0 > height (Grid_new 2 2)
     \/ 2 > 2 \/ 0 > 0)
  /\ Grid_crop (Grid_new 2 2) 2 0 2 0
     = Throw (invalid_argument "crop() : Invalid coordinates.").
Proof. split; [simpl; lia | reflexivity]. Qed.

(** ** Rotate *)

Lemma rotate_fill_spec (this ng : Grid) (dest : Z -> Z -> Z * Z) :
  Grid_wf this -> Grid_wf ng ->
  (forall x y, 0 <= x < width this -> 0 <= y < height this ->
     0 <= fst (dest x y) < width ng /\ 0 <= snd (dest x y) < height ng) ->
  (forall x y x' y',
     0 <= x < width this -> 0 <= y < height this ->
     0 <= x' < width this -> 0 <= y' < height this ->
     dest x y = dest x' y' -> x = x' /\ y = y') ->
  exists ng',
    run_local (rotate_fill this dest) ng = Ok ng'
    /\ Grid_wf ng' /\ width ng' = width ng /\ height ng' = height ng
    /\ forall x y, 0 <= x < width this -> 0 <= y < height this ->
         Grid_get ng' (fst (dest x y)) (snd (dest x y)) = Grid_get this x y.
Proof.
  intros Hwf Hng Hvalid Hinj.
  pose proof (wf_width _ Hwf) as Hw. pose proof (wf_height _ Hwf) as Hh.
  destruct (copy_window_spec this 0 0 (width this) (height this) dest ng Hwf Hng)
    as (ng' & Hrun & Hrest); try assumption; try lia.
  exists ng'. split; [| exact Hrest].
  unfold run_local, rotate_fill. unfold copy_cell in Hrun. rewrite Hrun.
  reflexivity.
Qed.

(** Only [rotation mod 4] decides which case of the switch runs. *)
Lemma Grid_rotate_mod4 (g : Grid) (k : Z) :
  Grid_rotate g k = Grid_rotate g (k mod 4).
Proof.
  unfold Grid_rotate.
  set (r := if k <? 0 then Z.rem k (-4) else Z.rem k 4).
  set (r' := if k mod 4 <? 0 then Z.rem (k mod 4) (-4) else Z.rem (k mod 4) 4).
  assert (Hm : 0 <= k mod 4 < 4) by (apply Z.mod_pos_bound; lia).
  assert (Hr' : r' = k mod 4).
  { unfold r'. destruct (Z.ltb_spec (k mod 4) 0); [lia |].
    apply Z.rem_small. lia. }
  assert (Hr : (r = 0 /\ r' = 0) \/ (r = 1 /\ r' = 1) \/ (r = 2 /\ r' = 2)
               \/ (r = 3 /\ r' = 3) \/ (r = -3 /\ r' = 1) \/ (r = -2 /\ r' = 2)
               \/ (r = -1 /\ r' = 3)).
  { rewrite Hr'. unfold r. destruct (Z.ltb_spec k 0).
    - change (Z.rem k (-4)) with (Z.rem k (Z.opp 4)).
      rewrite Z.rem_opp_r by lia.
      Z.to_euclidean_division_equations. lia.
    - Z.to_euclidean_division_equations. lia. }
  destruct Hr
    as [[-> ->] | [[-> ->] | [[-> ->] | [[-> ->] | [[-> ->] | [[-> ->] | [-> ->]]]]]]];
    reflexivity.
Qed.

Lemma Grid_rotate_0 (g : Grid) : Grid_wf g -> Grid_rotate g 0 = Ok g.
Proof.
  intros Hwf.
  pose proof (wf_width _ Hwf) as Hw. pose proof (wf_height _ Hwf) as Hh.
  pose proof (wf_total _ Hwf) as Ht.
  destruct (rotate_fill_spec g (Grid_new (width g) (height g)) (fun x y => (x, y)) Hwf)
    as (g' & Hrun & Hwf' & Ew & Eh & Hcells).
  - apply Grid_new_wf; assumption.
  - intros x y Hx Hy. simpl. lia.
  - intros x y x' y' _ _ _ _ E. injection E as -> ->. auto.
  - change (Grid_rotate g 0)
      with (run_local (rotate_fill g (fun x y => (x, y)))
              (Grid_new (width g) (height g))).
    rewrite Hrun. f_equal. simpl in Ew, Eh.
    apply Grid_ext; try assumption.
    intros x y Hx Hy. apply (Hcells x y); lia.
Qed.

Lemma Grid_rotate_1 (g : Grid) :
  Grid_wf g ->
  exists g',
    Grid_rotate g 1 = Ok g' /\ Grid_wf g'
    /\ width g' = height g /\ height g' = width g
    /\ forall x y, 0 <= x < width g -> 0 <= y < height g ->
         Grid_get g' (height g - 1 - y) x = Grid_get g x y.
Proof.
  intros Hwf.
  pose proof (wf_width _ Hwf) as Hw. pose proof (wf_height _ Hwf) as Hh.
  pose proof (wf_total _ Hwf) as Ht.
  destruct (rotate_fill_spec g (Grid_new (height g) (width g))
              (fun x y => (u32 (u32 (height g - y) - 1), x)) Hwf)
    as (g' & Hrun & Hwf' & Ew & Eh & Hcells).
  - apply Grid_new_wf; lia.
  - intros x y Hx Hy. simpl. rewrite !u32_small; rewrite ?u32_small; lia.
  - intros x y x' y' Hx Hy Hx' Hy' E. injection E as E1 E2.
    rewrite !(u32_small (height g - _)) in E1 by lia.
    rewrite !u32_small in E1 by lia. lia.
  - exists g'. split; [exact Hrun |]. split; [exact Hwf' |].
    split; [exact Ew |]. split; [exact Eh |].
    intros x y Hx Hy. specialize (Hcells x y Hx Hy). simpl in Hcells.
    rewrite (u32_small (height g - y)) in Hcells by lia.
    rewrite u32_small in Hcells by lia.
    replace (height g - 1 - y) with (height g - y - 1) by lia. exact Hcells.
Qed.

Lemma Grid_rotate_2 (g : Grid) :
  Grid_wf g ->
  exists g',
    Grid_rotate g 2 = Ok g' /\ Grid_wf g'
    /\ width g' = width g /\ height g' = height g
    /\ forall x y, 0 <= x < width g -> 0 <= y < height g ->
         Grid_get g' (width g - 1 - x) (height g - 1 - y) = Grid_get g x y.
Proof.
  intros Hwf.
  pose proof (wf_width _ Hwf) as Hw. pose proof (wf_height _ Hwf) as Hh.
  pose proof (wf_total _ Hwf) as Ht.
  destruct (rotate_fill_spec g (Grid_new (width g) (height g))
              (fun x y => (u32 (u32 (width g - x) - 1), u32 (u32 (height g - y) - 1)))
              Hwf)
    as (g' & Hrun & Hwf' & Ew & Eh & Hcells).
  - apply Grid_new_wf; lia.
  - intros x y Hx Hy. simpl. rewrite !u32_small; rewrite ?u32_small; lia.
  - intros x y x' y' Hx Hy Hx' Hy' E. injection E as E1 E2.
    rewrite !(u32_small (width g - _)) in E1 by lia.
    rewrite !(u32_small (height g - _)) in E2 by lia.
    rewrite !u32_small in E1, E2 by lia. lia.
  - exists g'. split; [exact Hrun |]. split; [exact Hwf' |].
    split; [exact Ew |]. split; [exact Eh |].
    intros x y Hx Hy. specialize (Hcells x y Hx Hy). simpl in Hcells.
    rewrite (u32_small (height g - y)), (u32_small (width g - x)) in Hcells by lia.
    rewrite !u32_small in Hcells by lia.
    replace (height g - 1 - y) with (height g - y - 1) by lia.
    replace (width g - 1 - x) with (width g - x - 1) by lia. exact Hcells.
Qed.

Lemma Grid_rotate_3 (g : Grid) :
  Grid_wf g ->
  exists g',
    Grid_rotate g 3 = Ok g' /\ Grid_wf g'
    /\ width g' = height g /\ height g' = width g
    /\ forall x y, 0 <= x < width g -> 0 <= y < height g ->
         Grid_get g' y (width g - 1 - x) = Grid_get g x y.
Proof.
  intros Hwf.
  pose proof (wf_width _ Hwf) as Hw. pose proof (wf_height _ Hwf) as Hh.
  pose proof (wf_total _ Hwf) as Ht.
  destruct (rotate_fill_spec g (Grid_new (height g) (width g))
              (fun x y => (y, u32 (u32 (width g - x) - 1))) Hwf)
    as (g' & Hrun & Hwf' & Ew & Eh & Hcells).
  - apply Grid_new_wf; lia.
  - intros x y Hx Hy. simpl. rewrite !u32_small; rewrite ?u32_small; lia.
  - intros x y x' y' Hx Hy Hx' Hy' E. injection E as E1 E2.
    rewrite !(u32_small (width g - _)) in E2 by lia.
    rewrite !u32_small in E2 by lia. lia.
  - exists g'. split; [exact Hrun |]. split; [exact Hwf' |].
    split; [exact Ew |]. split; [exact Eh |].
    intros x y Hx Hy. specialize (Hcells x y Hx Hy). simpl in Hcells.
    rewrite (u32_small (width g - x)) in Hcells by lia.
    rewrite u32_small in Hcells by lia.
    replace (width g - 1 - x) with (width g - x - 1) by lia. exact Hcells.
Qed.

Lemma Grid_rotate_1_four_times (g : Grid) :
  Grid_wf g ->
  exists g1 g2 g3,
    Grid_rotate g 1 = Ok g1 /\ Grid_rotate g1 1 = Ok g2
    /\ Grid_rotate g2 1 = Ok g3 /\ Grid_rotate g3 1 = Ok g.
Proof.
  intros Hwf.
  destruct (Grid_rotate_1 g Hwf) as (g1 & R1 & Hwf1 & W1 & H1 & C1).
  destruct (Grid_rotate_1 g1 Hwf1) as (g2 & R2 & Hwf2 & W2 & H2 & C2).
  destruct (Grid_rotate_1 g2 Hwf2) as (g3 & R3 & Hwf3 & W3 & H3 & C3).
  destruct (Grid_rotate_1 g3 Hwf3) as (g4 & R4 & Hwf4 & W4 & H4 & C4).
  exists g1, g2, g3. repeat (split; [assumption |]).
  rewrite R4. f_equal. apply Grid_ext; try assumption; try lia.
  intros x y Hx Hy.
  specialize (C4 y (width g - 1 - x) ltac:(lia) ltac:(lia)).
  specialize (C3 (width g - 1 - x) (height g - 1 - y) ltac:(lia) ltac:(lia)).
  specialize (C2 (height g - 1 - y) x ltac:(lia) ltac:(lia)).
  specialize (C1 x y ltac:(lia) ltac:(lia)).
  replace (height g3 - 1 - (width g - 1 - x)) with x in C4 by lia.
  replace (height g2 - 1 - (height g - 1 - y)) with y in C3 by lia.
  replace (height g1 - 1 - x) with (width g - 1 - x) in C2 by lia.
  congruence.
Qed.

Lemma Grid_rotate_shape (g : Grid) (k : Z) :
  Grid_wf g ->
  exists g',
    Grid_rotate g k = Ok g'
    /\ (Z.odd k = true -> width g' = height g /\ height g' = width g)
    /\ (Z.even k = true -> width g' = width g /\ height g' = height g).
Proof.
  intros Hwf. rewrite Grid_rotate_mod4.
  assert (Hodd : Z.odd k = Z.odd (k mod 4)).
  { rewrite (Z.div_mod k 4) at 1 by lia.
    replace (4 * (k / 4) + k mod 4) with (k mod 4 + 2 * (2 * (k / 4))) by lia.
    apply Z.odd_add_mul_2. }
  assert (Heven : Z.even k = Z.even (k mod 4))
    by (rewrite <- !Z.negb_odd, Hodd; reflexivity).
  rewrite Hodd, Heven.
  assert (Hm : 0 <= k mod 4 < 4) by (apply Z.mod_pos_bound; lia).
  assert (Hcase : k mod 4 = 0 \/ k mod 4 = 1 \/ k mod 4 = 2 \/ k mod 4 = 3) by lia.
  destruct Hcase as [-> | [-> | [-> | ->]]].
  - exists g. split; [apply Grid_rotate_0; exact Hwf |].
    split; [discriminate | auto].
  - destruct (Grid_rotate_1 g Hwf) as (g' & R & _ & W & H & _).
    exists g'. split; [exact R |]. split; [auto | discriminate].
  - destruct (Grid_rotate_2 g Hwf) as (g' & R & _ & W & H & _).
    exists g'. split; [exact R |]. split; [discriminate | auto].
  - destruct (Grid_rotate_3 g Hwf) as (g' & R & _ & W & H & _).
    exists g'. split; [exact R |]. split; [auto | discriminate].
Qed.

(** C8. For every grid and every integer [k], [rotate(k)] is
    [rotate(k mod 4)]; [rotate(0)] returns a grid equal to the original;
    four applications of [rotate(1)] return the original; a rotation by an
    odd [k] swaps width and height and a rotation by an even [k] keeps
    them. *)
Theorem Grid_rotate_group_law (g : Grid) (k : Z) :
  Grid_wf g ->
  Grid_rotate g k = Grid_rotate g (k mod 4)
  /\ Grid_rotate g 0 = Ok g
  /\ (exists g1 g2 g3,
        Grid_rotate g 1 = Ok g1 /\ Grid_rotate g1 1 = Ok g2
        /\ Grid_rotate g2 1 = Ok g3 /\ Grid_rotate g3 1 = Ok g)
  /\ (exists g',
        Grid_rotate g k = Ok g'
        /\ (Z.odd k = true -> width g' = height g /\ height g' = width g)
        /\ (Z.even k = true -> width g' = width g /\ height g' = height g)).
Proof.
  intros Hwf.
  split; [apply Grid_rotate_mod4 |].
  split; [apply Grid_rotate_0; exact Hwf |].
  split; [apply Grid_rotate_1_four_times; exact Hwf |].
  apply Grid_rotate_shape; exact Hwf.
Qed.

Lemma Grid_rotate_group_law_witness :
  Grid_wf (mkGrid 2 1 [ALIVE; DEAD]) /\
  (Grid_rotate (mkGrid 2 1 [ALIVE; DEAD]) (-7)
   = Grid_rotate (mkGrid 2 1 [ALIVE; DEAD]) (-7 mod 4)
   /\ Grid_rotate (mkGrid 2 1 [ALIVE; DEAD]) 0 = Ok (mkGrid 2 1 [ALIVE; DEAD])
   /\ (exists g1 g2 g3,
         Grid_rotate (mkGrid 2 1 [ALIVE; DEAD]) 1 = Ok g1
         /\ Grid_rotate g1 1 = Ok g2
         /\ Grid_rotate g2 1 = Ok g3
         /\ Grid_rotate g3 1 = Ok (mkGrid 2 1 [ALIVE; DEAD]))
   /\ (exists g',
         Grid_rotate (mkGrid 2 1 [ALIVE; DEAD]) (-7) = Ok g'
         /\ (Z.odd (-7) = true ->
             width g' = height (mkGrid 2 1 [ALIVE; DEAD])
             /\ height g' = width (mkGrid 2 1 [ALIVE; DEAD]))
         /\ (Z.even (-7) = true ->
             width g' = width (mkGrid 2 1 [ALIVE; DEAD])
             /\ height g' = height (mkGrid 2 1 [ALIVE; DEAD])))).
Proof.
  assert (Hwf : Grid_wf (mkGrid 2 1 [ALIVE; DEAD])) by (constructor; simpl; lia).
  split; [exact Hwf |].
  exact (Grid_rotate_group_law (mkGrid 2 1 [ALIVE; DEAD]) (-7) Hwf).
Defined.

(** ** Merge with alive_only *)

(** C6 fails on the code. Merging a 1x1 DEAD grid at [(1, 1)] into a 3x3
    grid whose only ALIVE cell is [(1, 1)], with [alive_only], turns the
    cell [(0, 0)] outside the overlay window ALIVE: the branch for a live
    destination cell calls [set(x - x0, y - y0, ALIVE)]. And the loop bounds
    exchange the extents of the two grids: merging the 2x1 all-ALIVE grid at
    [(0, 0)] into a 2x2 grid writes cell [(0, 0)], never reaches [(1, 0)],
    and throws on reading [other(0, 1)]. *)
Theorem Grid_merge_alive_only_writes_outside_window :
  Grid_merge (mkGrid 1 1 [DEAD]) 1 1 true
    (mkGrid 3 3 [DEAD; DEAD; DEAD; DEAD; ALIVE; DEAD; DEAD; DEAD; DEAD])
  = (Ok tt, mkGrid 3 3 [ALIVE; DEAD; DEAD; DEAD; ALIVE; DEAD; DEAD; DEAD; DEAD])
  /\
  Grid_merge (mkGrid 2 1 [ALIVE; ALIVE]) 0 0 true (Grid_new 2 2)
  = (Throw (invalid_argument "Cell operator() : Invalid coordinates."),
     mkGrid 2 2 [ALIVE; DEAD; DEAD; DEAD]).
Proof. split; vm_compute; reflexivity. Qed.

(** ** Neighbour counting *)

Lemma alive_at_range (g : Grid) (x y : Z) : 0 <= alive_at g x y <= 1.
Proof. unfold alive_at. destruct (Grid_get g x y) as [[] |]; lia. Qed.

Lemma alive_at_outside (g : Grid) (x y : Z) :
  x < 0 \/ x >= width g \/ y < 0 \/ y >= height g -> alive_at g x y = 0.
Proof.
  intros H. unfold alive_at. rewrite Grid_get_invalid; [reflexivity |].
  apply not_true_iff_false. rewrite valid_iff. lia.
Qed.

Lemma count_cell_valid (g : Grid) (cx cy n : Z) :
  Grid_wf g -> 0 <= cx < width g -> 0 <= cy < height g ->
  0 <= n < 2 ^ 32 - 1 ->
  count_cell g cx cy n = (Ok tt, n + alive_at g cx cy).
Proof.
  intros Hwf Hx Hy Hn.
  destruct (Grid_get_valid g cx cy Hwf Hx Hy) as (c & _ & Hget & Hcall & _).
  unfold count_cell, bind, lift, alive_at. rewrite Hcall, Hget.
  destruct c; simpl; unfold ret, modify.
  - rewrite Z.add_0_r. reflexivity.
  - rewrite u32_small by lia. reflexivity.
Qed.

Lemma to_int_pred (x : Z) :
  0 <= x < 2 ^ 31 -> to_int (u32 (x - 1)) = x - 1.
Proof.
  intros Hx. destruct (Z.eq_dec x 0) as [-> | Hne]; [reflexivity |].
  rewrite u32_small, to_int_small; lia.
Qed.

Lemma to_int_succ (x : Z) :
  0 <= x < 2 ^ 31 - 1 -> to_int (u32 (x + 1)) = x + 1.
Proof. intros Hx. rewrite u32_small, to_int_small; lia. Qed.


Lemma sum_from_range (n : nat) (lo : Z) (f : Z -> Z) (b : Z) :
  (forall i, lo <= i < lo + Z.of_nat n -> 0 <= f i <= b) ->
  0 <= sum_from n lo f <= Z.of_nat n * b.
Proof.
  revert lo. induction n as [| n IH]; intros lo Hf; simpl sum_from; [lia |].
  pose proof (Hf lo ltac:(lia)). pose proof (IH (lo + 1) ltac:(intros; apply Hf; lia)).
  nia.
Qed.

(** A counting loop over a run of coordinates adds up what it reads. *)
Lemma count_loop (n : nat) (lo c0 : Z) (body : Z -> M Z unit) (f : Z -> Z) (b : Z) :
  0 <= c0 -> c0 + Z.of_nat n * b < 2 ^ 32 ->
  (forall i, lo <= i < lo + Z.of_nat n -> 0 <= f i <= b) ->
  (forall i c, lo <= i < lo + Z.of_nat n -> 0 <= c -> c + b < 2 ^ 32 ->
     body i c = (Ok tt, c + f i)) ->
  for_iter n lo body c0 = (Ok tt, c0 + sum_from n lo f).
Proof.
  revert lo c0. induction n as [| n IH]; intros lo c0 Hc0 Hb Hf Hbody.
  - simpl. rewrite Z.add_0_r. reflexivity.
  - simpl for_iter. unfold bind.
    pose proof (Hf lo ltac:(lia)) as Hflo.
    assert (Hrest : 0 <= Z.of_nat n * b).
    { destruct n; [lia |]. apply Z.mul_nonneg_nonneg; lia. }
    rewrite Hbody by lia.
    rewrite IH.
    + simpl sum_from. f_equal. lia.
    + lia.
    + lia.
    + intros i Hi. apply Hf. lia.
    + intros i c Hi. apply Hbody. lia.
Qed.

(** The window the bounded policy reads on one axis holds the three
    coordinates around [x] that lie on the axis. *)
Lemma bounded_window (x w : Z) (f : Z -> Z) :
  2 <= w < 2 ^ 31 -> 0 <= x < w ->
  (forall i, i < 0 \/ i >= w -> f i = 0) ->
  exists lo hi,
    (if x - 1 =? -1 then (to_int (x - 1 + 1), x + 1)
     else if x + 1 =? w then (x - 1, to_int (x + 1 - 1))
     else (x - 1, x + 1)) = (lo, hi)
    /\ 0 <= lo <= x /\ x <= hi < w /\ hi <= lo + 2
    /\ sum_from (Z.to_nat (hi + 1 - lo)) lo f = f (x - 1) + f x + f (x + 1).
Proof.
  intros Hw Hx Hf.
  destruct (Z.eqb_spec (x - 1) (-1)) as [E | E].
  - assert (x = 0) by lia. subst x. exists 0, 1.
    split; [reflexivity |]. split; [lia |]. split; [lia |]. split; [lia |].
    change (Z.to_nat (1 + 1 - 0)) with 2%nat. simpl sum_from.
    rewrite (Hf (0 - 1)) by lia. simpl. lia.
  - destruct (Z.eqb_spec (x + 1) w) as [E' | E'].
    + exists (x - 1), x. rewrite to_int_small by lia.
      split; [f_equal; lia |]. split; [lia |]. split; [lia |]. split; [lia |].
      replace (Z.to_nat (x + 1 - (x - 1))) with 2%nat by lia. simpl sum_from.
      rewrite (Hf (x + 1)) by lia. replace (x - 1 + 1) with x by lia. lia.
    + exists (x - 1), (x + 1).
      split; [reflexivity |]. split; [lia |]. split; [lia |]. split; [lia |].
      replace (Z.to_nat (x + 1 + 1 - (x - 1))) with 3%nat by lia. simpl sum_from.
      replace (x - 1 + 1) with x by lia. lia.
Qed.

(** Where the bounded count is right: in a world whose extents are both at
    least 2 it is the number of live cells among the neighbours inside the
    grid. *)
Lemma count_neighbours_bounded_ok (this : World) (x y : Z) :
  Grid_wf (currGrid this) ->
  2 <= width (currGrid this) < 2 ^ 31 -> 2 <= height (currGrid this) < 2 ^ 31 ->
  0 <= x < width (currGrid this) -> 0 <= y < height (currGrid this) ->
  count_neighbours this x y false = Ok (bounded_neighbours (currGrid this) x y).
Proof.
  intros Hwf Hw Hh Hx Hy. set (g := currGrid this) in *.
  unfold count_neighbours, World_get_width, World_get_height, get_width, get_height.
  fold g.
  rewrite (to_int_pred x), (to_int_pred y), (to_int_succ x), (to_int_succ y) by lia.
  rewrite (to_int_small (width g)), (to_int_small (height g)) by lia.
  destruct (Grid_get_valid g x y Hwf Hx Hy) as (c & _ & Hget & Hcall & _).
  rewrite Hcall.
  assert (Hc : alive_at g x y = if cell_eqb c ALIVE then 1 else 0)
    by (unfold alive_at; rewrite Hget; destruct c; reflexivity).
  set (row := fun j => alive_at g (x - 1) j + alive_at g x j + alive_at g (x + 1) j).
  destruct (bounded_window y (height g) row Hh Hy)
    as (ylo & yhi & Ey & Hylo & Hyhi & Hylen & Hysum).
  { intros j Hj. unfold row. rewrite !alive_at_outside by lia. reflexivity. }
  rewrite Ey.
  assert (Hrows : forall j, ylo <= j <= yhi ->
            exists xlo xhi,
              (if x - 1 =? -1 then (to_int (x - 1 + 1), x + 1)
               else if x + 1 =? width g then (x - 1, to_int (x + 1 - 1))
               else (x - 1, x + 1)) = (xlo, xhi)
              /\ 0 <= xlo <= x /\ x <= xhi < width g /\ xhi <= xlo + 2
              /\ sum_from (Z.to_nat (xhi + 1 - xlo)) xlo (fun i => alive_at g i j) = row j).
  { intros j Hj. apply (bounded_window x (width g) (fun i => alive_at g i j) Hw Hx).
    intros i Hi. apply alive_at_outside. lia. }
  destruct (Hrows y ltac:(lia)) as (xlo & xhi & Ex & Hxlo & Hxhi & Hxlen & _).
  rewrite Ex.
  assert (Hcount :
    for_range ylo (yhi + 1)
      (fun j => for_range xlo (xhi + 1) (fun i => count_cell g (u32 i) (u32 j))) 0
    = (Ok tt, 0 + sum_from (Z.to_nat (yhi + 1 - ylo)) ylo row)).
  { unfold for_range at 1.
    apply (count_loop _ _ _ _ row 3).
    - lia.
    - lia.
    - intros j Hj. unfold row. pose proof (alive_at_range g (x - 1) j).
      pose proof (alive_at_range g x j). pose proof (alive_at_range g (x + 1) j). lia.
    - intros j c0 Hj Hc0 Hc3.
      destruct (Hrows j ltac:(lia)) as (xlo' & xhi' & Ex' & _ & _ & _ & Hsum).
      rewrite Ex in Ex'. injection Ex' as <- <-. rewrite <- Hsum.
      unfold for_range.
      apply (count_loop _ _ _ _ (fun i => alive_at g i j) 1).
      + lia.
      + lia.
      + intros i Hi. apply alive_at_range.
      + intros i c1 Hi Hc1 Hc1'.
        rewrite !u32_small by lia. apply count_cell_valid; try assumption; lia. }
  unfold run_local. rewrite Hcount. simpl rbind.
  rewrite Hysum. unfold row, bounded_neighbours. simpl foldr.
  rewrite !Z.add_0_r. f_equal.
  pose proof (alive_at_range g (x - 1) (y - 1)).
  pose proof (alive_at_range g x (y - 1)).
  pose proof (alive_at_range g (x + 1) (y - 1)).
  pose proof (alive_at_range g (x - 1) y).
  pose proof (alive_at_range g (x + 1) y).
  pose proof (alive_at_range g (x - 1) (y + 1)).
  pose proof (alive_at_range g x (y + 1)).
  pose proof (alive_at_range g (x + 1) (y + 1)).
  change (x + -1) with (x - 1). change (y + -1) with (y - 1).
  destruct (cell_eqb c ALIVE).
  - rewrite u32_small by lia. lia.
  - lia.
Qed.

(** The two wrapped coordinates the toroidal policy reads on one axis of
    extent at least 2 are the neighbours modulo the extent. *)
Lemma toroidal_window (x w wm1 : Z) :
  2 <= w < 2 ^ 31 -> 0 <= x < w -> wm1 = w - 1 ->
  (if x - 1 =? -1 then (to_int wm1, x + 1)
   else if x + 1 =? w then (x - 1, 0)
   else (x - 1, x + 1)) = ((x - 1) mod w, (x + 1) mod w).
Proof.
  intros Hw Hx ->.
  destruct (Z.eqb_spec (x - 1) (-1)) as [E | E].
  - assert (x = 0) by lia. subst x. rewrite to_int_small by lia.
    f_equal.
    + apply (Z.mod_unique_pos _ _ (-1)); lia.
    + symmetry. apply Z.mod_small. lia.
  - destruct (Z.eqb_spec (x + 1) w) as [E' | E']; f_equal; symmetry.
    + apply Z.mod_small. lia.
    + rewrite E'. apply Z.mod_same. lia.
    + apply Z.mod_small. lia.
    + apply Z.mod_small. lia.
Qed.

(** Where the toroidal count is right: in a world whose extents are both at
    least 2 it is the number of live cells among the eight neighbours taken
    modulo the extents. *)
Lemma count_neighbours_toroidal_ok (this : World) (x y : Z) :
  Grid_wf (currGrid this) ->
  2 <= width (currGrid this) < 2 ^ 31 -> 2 <= height (currGrid this) < 2 ^ 31 ->
  0 <= x < width (currGrid this) -> 0 <= y < height (currGrid this) ->
  count_neighbours this x y true = Ok (toroidal_neighbours (currGrid this) x y).
Proof.
  intros Hwf Hw Hh Hx Hy. set (g := currGrid this) in *.
  unfold count_neighbours, World_get_width, World_get_height, get_width, get_height.
  fold g.
  rewrite (to_int_pred x), (to_int_pred y), (to_int_succ x), (to_int_succ y) by lia.
  rewrite (to_int_small (width g)), (to_int_small (height g)) by lia.
  rewrite (toroidal_window x (width g)) by lia.
  rewrite (toroidal_window y (height g)) by (try apply u32_small; lia).
  destruct (Grid_get_valid g x y Hwf Hx Hy) as (c & _ & Hget & Hcall & _).
  rewrite Hcall.
  assert (Hc : alive_at g x y = if cell_eqb c ALIVE then 1 else 0)
    by (unfold alive_at; rewrite Hget; destruct c; reflexivity).
  unfold toroidal_neighbours. simpl foldr.
  change (x + -1) with (x - 1). change (y + -1) with (y - 1).
  rewrite !Z.add_0_r, (Z.mod_small x), (Z.mod_small y) by lia.
  assert (Hxm : 0 <= (x - 1) mod width g < width g) by (apply Z.mod_pos_bound; lia).
  assert (Hxp : 0 <= (x + 1) mod width g < width g) by (apply Z.mod_pos_bound; lia).
  assert (Hym : 0 <= (y - 1) mod height g < height g) by (apply Z.mod_pos_bound; lia).
  assert (Hyp : 0 <= (y + 1) mod height g < height g) by (apply Z.mod_pos_bound; lia).
  set (xm := (x - 1) mod width g) in *. set (xp := (x + 1) mod width g) in *.
  set (ym := (y - 1) mod height g) in *. set (yp := (y + 1) mod height g) in *.
  rewrite (u32_small xm), (u32_small xp), (u32_small ym), (u32_small yp) by lia.
  pose proof (alive_at_range g xm ym). pose proof (alive_at_range g x ym).
  pose proof (alive_at_range g xp ym). pose proof (alive_at_range g xm y).
  pose proof (alive_at_range g xp y). pose proof (alive_at_range g xm yp).
  pose proof (alive_at_range g x yp). pose proof (alive_at_range g xp yp).
  pose proof (alive_at_range g x y).
  unfold run_local, for_range. simpl for_iter. unfold bind, ret.
  repeat rewrite count_cell_valid by (assumption || lia).
  simpl rbind. f_equal.
  destruct (cell_eqb c ALIVE).
  - rewrite u32_small by lia. lia.
  - lia.
Qed.

(** C2 fails on the code. In a 1x1 world, [count_neighbours(0, 0, false)]
    throws: [x_minus] is clamped to 0 and the [else if] then leaves
    [x_plus = 1 = width] unclamped, so the cell [(1, 0)] is read. *)
Theorem count_neighbours_bounded_1x1_throws :
  count_neighbours (World_new 1 1) 0 0 false
  = Throw (invalid_argument "Cell operator() : Invalid coordinates.").
Proof. vm_compute. reflexivity. Qed.

(** C3 fails on the code. In a 1x1 world, [count_neighbours(0, 0, true)]
    throws: [x_minus] wraps to [width - 1] and the [else if] then leaves
    [x_plus = 1 = width] unwrapped, so the cell [(1, 0)] is read. The same
    happens in every world of width 1 or height 1, here 1x3. *)
Theorem count_neighbours_toroidal_width_1_throws :
  count_neighbours (World_new 1 1) 0 0 true
  = Throw (invalid_argument "Cell operator() : Invalid coordinates.")
  /\
  count_neighbours (World_new 1 3) 0 1 true
  = Throw (invalid_argument "Cell operator() : Invalid coordinates.").
Proof. split; vm_compute; reflexivity. Qed.

(** ** Step *)

Lemma live_neighbours_range (torodial : bool) (g : Grid) (x y : Z) :
  0 <= live_neighbours torodial g x y <= 8.
Proof.
  unfold live_neighbours, toroidal_neighbours, bounded_neighbours.
  destruct torodial; simpl foldr;
    repeat match goal with
           | |- context [alive_at ?g ?a ?b] =>
               let v := fresh "v" in
               pose proof (alive_at_range g a b);
               set (v := alive_at g a b) in *; clearbody v
           end; lia.
Qed.

Lemma count_neighbours_ok (this : World) (x y : Z) (torodial : bool) :
  Grid_wf (currGrid this) ->
  2 <= width (currGrid this) < 2 ^ 31 -> 2 <= height (currGrid this) < 2 ^ 31 ->
  0 <= x < width (currGrid this) -> 0 <= y < height (currGrid this) ->
  count_neighbours this x y torodial
  = Ok (live_neighbours torodial (currGrid this) x y).
Proof.
  intros. destruct torodial;
    [apply count_neighbours_toroidal_ok | apply count_neighbours_bounded_ok];
    assumption.
Qed.

Lemma step_cell_assigns (torodial : bool) (g : Grid) (x y : Z) (s : World) :
  Grid_wf g -> 2 <= width g < 2 ^ 31 -> 2 <= height g < 2 ^ 31 ->
  0 <= x < width g -> 0 <= y < height g ->
  currGrid s = g ->
  Grid_wf (nextGrid s) -> width (nextGrid s) = width g ->
  height (nextGrid s) = height g ->
  exists s',
    step_cell torodial y x s = (Ok tt, s') /\ currGrid s' = g
    /\ nextGrid s'
       = mkGrid (width (nextGrid s)) (height (nextGrid s))
           (<[idx (nextGrid s) x y
              := life_rule (cell_of g x y) (live_neighbours torodial g x y)]>
              (gridVector (nextGrid s))).
Proof.
  intros Hwf Hw Hh Hx Hy Hcur Hnwf Hnw Hnh.
  destruct s as [cg ng]. simpl in *. subst cg.
  pose proof (live_neighbours_range torodial g x y) as Hn.
  destruct (Grid_get_valid g x y Hwf Hx Hy) as (c & _ & Hget & _ & Hcall).
  destruct (Grid_assign_valid ng x y
              (life_rule (cell_of g x y) (live_neighbours torodial g x y)) Hnwf)
    as [Hassign _]; [lia | lia |].
  unfold cell_of in *. rewrite Hget in *.
  set (n := live_neighbours torodial g x y) in *.
  assert (Hstep : step_cell torodial y x (mkWorld g ng)
                  = (Ok tt, mkWorld g (mkGrid (width ng) (height ng)
                                         (<[idx ng x y := life_rule c n]>
                                            (gridVector ng))))).
  { unfold step_cell, bind.
    rewrite (count_neighbours_ok (mkWorld g ng) x y torodial) by assumption.
    cbn [currGrid nextGrid]. fold n. rewrite (to_int_small n) by lia.
    unfold on_curr. cbn [currGrid nextGrid]. rewrite Hcall.
    unfold on_next. cbn [currGrid nextGrid].
    clearbody n.
    assert (Hcases : n = 0 \/ n = 1 \/ n = 2 \/ n = 3 \/ n = 4 \/ n = 5
                     \/ n = 6 \/ n = 7 \/ n = 8) by lia.
    destruct c;
      repeat (destruct Hcases as [-> | Hcases]); try subst n;
      cbv [life_rule Z.eqb Pos.eqb orb] in Hassign;
      cbv [cell_eqb Z.ltb Z.gtb Z.eqb Z.compare Pos.compare Pos.compare_cont
           Pos.eqb orb];
      cbn [currGrid nextGrid]; rewrite Hassign; reflexivity. }
  eexists. split; [exact Hstep |]. split; reflexivity.
Qed.

(** What World::step does in a world at least as wide as it is high, with
    both extents at least 2: the columns [x < height] of the new current
    state follow the rule, the columns from [height] on are what the other
    buffer held, and the old current state is the other buffer now. In a
    square world that is a step of the Game of Life. *)
Lemma World_step_spec (this : World) (torodial : bool) :
  Grid_wf (currGrid this) -> Grid_wf (nextGrid this) ->
  width (nextGrid this) = width (currGrid this) ->
  height (nextGrid this) = height (currGrid this) ->
  2 <= height (currGrid this) <= width (currGrid this) ->
  width (currGrid this) < 2 ^ 31 ->
  exists w',
    World_step torodial this = (Ok tt, w')
    /\ nextGrid w' = currGrid this
    /\ Grid_wf (currGrid w')
    /\ width (currGrid w') = width (currGrid this)
    /\ height (currGrid w') = height (currGrid this)
    /\ (forall x y,
          0 <= x < height (currGrid this) -> 0 <= y < height (currGrid this) ->
          Grid_get (currGrid w') x y
          = Ok (life_rule (cell_of (currGrid this) x y)
                  (live_neighbours torodial (currGrid this) x y)))
    /\ (forall x y,
          height (currGrid this) <= x < width (currGrid this) ->
          0 <= y < height (currGrid this) ->
          Grid_get (currGrid w') x y = Grid_get (nextGrid this) x y).
Proof.
  intros Hwf Hnwf Hnw Hnh Hdims Hw31.
  set (g := currGrid this) in *.
  destruct (fill_window_spec nextGrid (fun s => currGrid s = g)
              (step_cell torodial) 0 0 (height g) (height g)
              (fun x y => (x, y))
              (fun x y => life_rule (cell_of g x y) (live_neighbours torodial g x y))
              (width g) (height g) this)
    as (s' & Hrun & Hkeep & Hwf' & Ew & Eh & Hcells & Hframe).
  - lia.
  - lia.
  - intros x y Hx Hy. simpl. lia.
  - intros x y x' y' _ _ _ _ E. injection E as -> ->. auto.
  - intros x y s Hx Hy Hk Hs Hsw Hsh. simpl fst. simpl snd.
    apply step_cell_assigns; try assumption; lia.
  - auto.
  - exists (mkWorld (nextGrid s') (currGrid s')).
    split.
    + unfold World_step, bind, World_get_height, get_height. fold g.
      rewrite Hrun. reflexivity.
    + simpl. split; [exact Hkeep |]. split; [exact Hwf' |].
      split; [exact Ew |]. split; [exact Eh |]. split.
      * intros x y Hx Hy. apply (Hcells x y); lia.
      * intros x y Hx Hy. apply Hframe; try lia.
        intros x' y' Hx' Hy' E. injection E as -> ->. lia.
Qed.

(** C1 fails on the code. Both loops of World::step run to [get_height()].
    In the 3x2 world made from a grid whose only ALIVE cell is [(2, 0)], the
    column [x = 2] is never visited: after [step(false)] the current state
    still has the stale ALIVE cell the constructor copied into the other
    buffer. In a 2x3 world the loop goes on to [x = 2 = width] and
    [step(false)] throws. *)
Theorem World_step_inner_loop_bounded_by_height :
  (exists w,
     World_of_grid (mkGrid 3 2 [DEAD; DEAD; ALIVE; DEAD; DEAD; DEAD]) = Ok w
     /\ exists w',
          World_step false w = (Ok tt, w')
          /\ get_state w' = mkGrid 3 2 [DEAD; DEAD; ALIVE; DEAD; DEAD; DEAD]
          /\ Grid_get (get_state w') 2 0 = Ok ALIVE)
  /\
  fst (World_step false (World_new 2 3))
  = Throw (invalid_argument "Cell operator() : Invalid coordinates.").
Proof.
  split.
  - eexists. split; [vm_compute; reflexivity |].
    eexists. split; [vm_compute; reflexivity |].
    split; vm_compute; reflexivity.
  - vm_compute. reflexivity.
Qed.

(** ** The binary codec *)

Lemma byte_val_range (b : byte) : 0 <= byte_val b < 256.
Proof. unfold byte_val. pose proof (Byte.to_N_bounded b). lia. Qed.

Lemma le_value_range (bs : list byte) :
  0 <= le_value bs < 256 ^ Z.of_nat (length bs).
Proof.
  induction bs as [| b bs IH]; simpl le_value.
  - simpl. lia.
  - pose proof (byte_val_range b).
    replace (Z.of_nat (length (b :: bs))) with (Z.succ (Z.of_nat (length bs)))
      by (simpl length; lia).
    rewrite Z.pow_succ_r by lia. lia.
Qed.

Lemma u32_to_int (z : Z) : u32 (to_int z) = u32 z.
Proof.
  unfold u32, to_int.
  rewrite Zminus_mod_idemp_l.
  replace (z + 2 ^ 31 - 2 ^ 31) with z by lia. reflexivity.
Qed.

Lemma u32_mul_to_int (a b : Z) : u32 (to_int (to_int a * to_int b)) = u32 (a * b).
Proof.
  rewrite u32_to_int. unfold u32.
  rewrite Z.mul_mod by lia. fold (u32 (to_int a)) (u32 (to_int b)).
  rewrite !u32_to_int. unfold u32. rewrite <- Z.mul_mod by lia. reflexivity.
Qed.

Lemma u32_add_l (a b : Z) : u32 (u32 a + b) = u32 (a + b).
Proof. unfold u32. apply Zplus_mod_idemp_l. Qed.

Lemma ifs_read4_full (old : Z) (i : ifstream) :
  eofbit i = false -> failbit i = false -> (4 <= length (unread i))%nat ->
  ifs_read4 old i
  = (Ok (le_value (take 4 (unread i))), mkIfs (drop 4 (unread i)) false false).
Proof.
  intros He Hf Hlen. unfold ifs_read4. rewrite He, Hf. simpl orb. cbv iota.
  rewrite length_take. replace (4 `min` length (unread i))%nat with 4%nat by lia.
  reflexivity.
Qed.

Lemma ifs_read4_short (old : Z) (i : ifstream) :
  eofbit i = false -> failbit i = false -> (length (unread i) < 4)%nat ->
  exists v, ifs_read4 old i = (Ok v, mkIfs [] true true).
Proof.
  intros He Hf Hlen. unfold ifs_read4. rewrite He, Hf. simpl orb. cbv iota.
  rewrite length_take.
  destruct (Z.eqb_spec (Z.of_nat (4 `min` length (unread i))) 4) as [E | _]; [lia |].
  eexists. reflexivity.
Qed.

Lemma loops_of_chunks (a b : Z) :
  u32 a = u32 b -> loops_of a b 32 = (u32 a + 31) / 32.
Proof.
  intros E. unfold loops_of. rewrite <- E.
  pose proof (u32_range a) as HT. set (T := u32 a) in *.
  assert (Hq : 0 <= T / 32 < 2 ^ 27).
  { split; [apply Z.div_pos; lia |]. apply Z.div_lt_upper_bound; lia. }
  rewrite (to_int_small (T / 32)) by lia.
  destruct (Z.eqb_spec (T mod 32) 0) as [E0 | E0]; simpl negb; cbv iota.
  - Z.to_euclidean_division_equations. lia.
  - rewrite to_int_small by lia. Z.to_euclidean_division_equations. lia.
Qed.

(** One bit of a chunk that lies within the cells the header announces:
    the decoder does not throw, leaves the stream alone, and the grid keeps
    its shape. *)
Lemma load_bit_ok (pw ph i j : Z) (s : load_state) :
  0 <= pw < 2 ^ 32 -> 0 <= ph < 2 ^ 32 ->
  0 <= i -> 0 <= j < 32 -> 32 * i + j < u32 (pw * ph) ->
  decoded_shape pw ph (grid s) ->
  exists s', load_bit (to_int pw) i j s = (Ok tt, s')
             /\ ifs s' = ifs s /\ decoded_shape pw ph (grid s').
Proof.
  intros Hpw Hph Hi Hj Hn (Ew & Eh & El).
  pose proof (u32_range (pw * ph)) as HT.
  unfold load_bit, bind, gets.
  match goal with |- context [if ?c then _ else _] => destruct c end;
    [| exists s; unfold ret, decoded_shape; auto].
  rewrite u32_to_int, (u32_small pw) by lia.
  assert (Hpos : 0 < pw).
  { destruct (Z.eq_dec pw 0) as [E | E]; [| lia].
    exfalso. rewrite E, Z.mul_0_l in Hn. change (u32 0) with 0 in Hn. lia. }
  destruct (Z.eqb_spec pw 0) as [E0 | _]; [lia |].
  assert (En : u32 (u32 (u32 (i * 4) * 8) + j) = 32 * i + j).
  { rewrite (u32_small (i * 4)) by lia.
    rewrite (u32_small (i * 4 * 8)) by lia.
    rewrite u32_small by lia. lia. }
  rewrite En. set (n := 32 * i + j) in *.
  assert (Hx : 0 <= n mod pw < pw) by (apply Z.mod_pos_bound; lia).
  assert (Hle : u32 (pw * ph) <= pw * ph).
  { unfold u32. apply Z.mod_le; [nia | lia]. }
  assert (Hy : 0 <= n / pw < ph).
  { split; [apply Z.div_pos; lia |]. apply Z.div_lt_upper_bound; lia. }
  rewrite !u32_to_int, (u32_small (n mod pw)), (u32_small (n / pw)) by lia.
  unfold on_grid, Grid_assign.
  replace (are_valid_coordinates (grid s) (n mod pw) (n / pw)) with true
    by (symmetry; apply valid_iff; lia).
  simpl negb. cbv iota.
  assert (Ei : get_index (grid s) (n mod pw) (n / pw) = n).
  { unfold get_index, get_index_new_grid. rewrite Ew, u32_add_l.
    rewrite <- Z.div_mod by lia. apply u32_small. lia. }
  rewrite Ei. unfold vec_write.
  destruct (Z.ltb_spec n (Z.of_nat (length (gridVector (grid s))))) as [_ | Hge]; [| lia].
  eexists. split; [reflexivity |]. split; [reflexivity |].
  simpl. unfold decoded_shape. simpl. rewrite length_insert. auto.
Qed.

Lemma load_bits_ok (pw ph i : Z) (s : load_state) :
  0 <= pw < 2 ^ 32 -> 0 <= ph < 2 ^ 32 ->
  0 <= i -> 32 * i + 31 < u32 (pw * ph) ->
  decoded_shape pw ph (grid s) ->
  exists s', for_range 0 32 (fun j => load_bit (to_int pw) i j) s = (Ok tt, s')
             /\ ifs s' = ifs s /\ decoded_shape pw ph (grid s').
Proof.
  intros Hpw Hph Hi Hn Hshape.
  destruct (for_range_inv (fun j => load_bit (to_int pw) i j)
              (fun _ t => ifs t = ifs s /\ decoded_shape pw ph (grid t)) 0 32 s)
    as (s' & Hrun & Hfin).
  - lia.
  - split; [reflexivity | exact Hshape].
  - intros j t Hj [Hifs Ht].
    destruct (load_bit_ok pw ph i j t) as (t' & Hb & Hifs' & Ht'); try assumption; try lia.
    exists t'. split; [exact Hb |]. split; [congruence | exact Ht'].
  - exists s'. auto.
Qed.


Lemma load_chunk_ok (pw ph i : Z) (s : load_state) :
  0 <= pw < 2 ^ 32 -> 0 <= ph < 2 ^ 32 ->
  0 <= i -> 32 * i + 31 < u32 (pw * ph) ->
  decoded_shape pw ph (grid s) ->
  eofbit (ifs s) = false -> failbit (ifs s) = false ->
  exists s', load_chunk (to_int pw) i s = (Ok tt, s')
             /\ decoded_shape pw ph (grid s')
             /\ ((4 <= length (unread (ifs s)))%nat ->
                 ifs s' = mkIfs (drop 4 (unread (ifs s))) false false)
             /\ ((length (unread (ifs s)) < 4)%nat -> eofbit (ifs s') = true).
Proof.
  intros Hpw Hph Hi Hn Hshape He Hf.
  unfold load_chunk, bind, gets. rewrite He.
  change (u32 (4 * 8)) with 32.
  unfold on_ifs, modify.
  destruct (le_lt_dec 4 (length (unread (ifs s)))) as [Hlen | Hlen].
  - rewrite (ifs_read4_full _ _ He Hf Hlen). simpl.
    destruct (load_bits_ok pw ph i
                (mkLoad (mkIfs (drop 4 (unread (ifs s))) false false)
                        (le_value (take 4 (unread (ifs s)))) (grid s)))
      as (s' & Hrun & Hifs & Hs'); try assumption.
    exists s'. split; [exact Hrun |]. split; [exact Hs' |].
    split; [intros _; exact Hifs | intros Hlt; lia].
  - destruct (ifs_read4_short (bytesHolder s) _ He Hf Hlen) as (v & Hv).
    rewrite Hv. simpl.
    destruct (load_bits_ok pw ph i (mkLoad (mkIfs [] true true) v (grid s)))
      as (s' & Hrun & Hifs & Hs'); try assumption.
    exists s'. split; [exact Hrun |]. split; [exact Hs' |].
    split; [intros Hge; lia | intros _; rewrite Hifs; reflexivity].
Qed.

Lemma header_range (bytes : list byte) :
  0 <= header_first bytes < 2 ^ 32 /\ 0 <= header_second bytes < 2 ^ 32.
Proof.
  unfold header_first, header_second. split.
  - pose proof (le_value_range (take 4 bytes)) as H.
    assert (256 ^ Z.of_nat (length (take 4 bytes)) <= 256 ^ 4)
      by (apply Z.pow_le_mono_r; [lia | rewrite length_take; lia]).
    lia.
  - pose proof (le_value_range (take 4 (drop 4 bytes))) as H.
    assert (256 ^ Z.of_nat (length (take 4 (drop 4 bytes))) <= 256 ^ 4)
      by (apply Z.pow_le_mono_r; [lia | rewrite length_take; lia]).
    lia.
Qed.

(** With the eight bytes of the header present, the decoder reaches its
    loop with the stream after the header and a fresh grid whose width is
    the second integer and whose height is the first. *)
Lemma load_binary_after_header (bytes : list byte) (u : indeterminate) :
  8 <= Z.of_nat (length bytes) ->
  load_binary (Some bytes) u
  = let? s :=
      run_local
        (for_range 0 (header_chunks bytes)
           (fun i => load_chunk (to_int (header_second bytes)) i))
        (mkLoad (mkIfs (drop 8 bytes) false false) (u32 (indet_bytesHolder u))
                (Grid_new (header_second bytes) (header_first bytes))) in
    Ok (grid s).
Proof.
  intros Hlen. destruct (header_range bytes) as [Hph Hpw].
  unfold load_binary.
  rewrite ifs_read4_full by (simpl; reflexivity || lia).
  simpl unread. cbv beta iota. simpl rbind.
  rewrite ifs_read4_full by (simpl; rewrite ?length_drop; reflexivity || lia).
  simpl unread. cbv beta iota. simpl rbind.
  rewrite drop_drop. change (4 + 4)%nat with 8%nat.
  fold (header_first bytes) (header_second bytes).
  rewrite !u32_to_int.
  rewrite (u32_small (header_second bytes)), (u32_small (header_first bytes))
    by assumption.
  change (u32 (8 * 4)) with 32.
  rewrite loops_of_chunks.
  - rewrite u32_mul_to_int. reflexivity.
  - rewrite !u32_mul_to_int. f_equal. lia.
Qed.

Lemma Grid_new_shape (w h : Z) : decoded_shape w h (Grid_new w h).
Proof.
  unfold decoded_shape, Grid_new. simpl. rewrite length_replicate.
  pose proof (u32_range (w * h)). auto with zarith.
Qed.



Lemma sum_from_snoc (n : nat) (lo : Z) (f : Z -> Z) :
  sum_from (S n) lo f = sum_from n lo f + f (lo + Z.of_nat n).
Proof.
  revert lo. induction n as [| n IH]; intros lo.
  - simpl sum_from. replace (lo + Z.of_nat 0) with lo by lia. lia.
  - change (sum_from (S (S n)) lo f) with (f lo + sum_from (S n) (lo + 1) f).
    rewrite IH. simpl sum_from.
    replace (lo + 1 + Z.of_nat n) with (lo + Z.of_nat (S n)) by lia. lia.
Qed.

Lemma chunks_from_snoc (v : list Cell) (n : nat) (i : Z) :
  chunks_from v (S n) i
  = chunks_from v n i ++ write4 (chunk_value v (i + Z.of_nat n)).
Proof.
  revert i. induction n as [| n IH]; intros i.
  - replace (i + Z.of_nat 0) with i by lia. reflexivity.
  - change (chunks_from v (S (S n)) i)
      with (write4 (chunk_value v i) ++ chunks_from v (S n) (i + 1)).
    rewrite IH.
    change (chunks_from v (S n) i)
      with (write4 (chunk_value v i) ++ chunks_from v n (i + 1)).
    rewrite <- app_assoc.
    replace (i + 1 + Z.of_nat n) with (i + Z.of_nat (S n)) by lia. reflexivity.
Qed.

Lemma cell_bit_range (v : list Cell) (p : Z) : 0 <= cell_bit v p <= 1.
Proof. unfold cell_bit. destruct (v !! Z.to_nat p) as [[] |]; lia. Qed.

Lemma cell_bit_past_end (v : list Cell) (p : Z) :
  Z.of_nat (length v) <= p -> cell_bit v p = 0.
Proof.
  intros H. unfold cell_bit. rewrite lookup_ge_None_2 by lia. reflexivity.
Qed.

Lemma sum_from_app (a b : nat) (lo : Z) (f : Z -> Z) :
  sum_from (a + b) lo f = sum_from a lo f + sum_from b (lo + Z.of_nat a) f.
Proof.
  revert lo. induction a as [| a IH]; intros lo.
  - simpl sum_from. replace (lo + Z.of_nat 0) with lo by lia. lia.
  - change (S a + b)%nat with (S (a + b)). simpl sum_from. rewrite IH.
    replace (lo + 1 + Z.of_nat a) with (lo + Z.of_nat (S a)) by lia. lia.
Qed.

Lemma sum_from_zero (n : nat) (lo : Z) (f : Z -> Z) :
  (forall i, lo <= i -> f i = 0) -> sum_from n lo f = 0.
Proof.
  revert lo. induction n as [| n IH]; intros lo H; simpl sum_from; [reflexivity |].
  rewrite H by lia. rewrite IH; [reflexivity |]. intros i Hi. apply H. lia.
Qed.

Lemma save_bit_step (g : Grid) (p j : Z) (s : save_state) :
  Grid_wf g -> 0 <= p < width g * height g -> at_cell g p s ->
  exists s',
    save_bit g j s = (Ok tt, s') /\ at_cell g (p + 1) s'
    /\ bufferInt s' = bufferInt s + cell_bit (gridVector g) p * 2 ^ j
    /\ ofs s' = ofs s.
Proof.
  intros Hwf Hp [Hin _].
  destruct (Hin ltac:(lia)) as (Hoob & Hx & Hy & Hxy).
  pose proof (wf_width _ Hwf) as Hw. pose proof (wf_height _ Hwf) as Hh.
  destruct (Grid_get_valid g (sx s) (sy s) Hwf Hx Hy) as (c & Hl & _ & _ & Hcall).
  assert (Hbit : cell_bit (gridVector g) p = if cell_eqb c ALIVE then 1 else 0).
  { unfold cell_bit. unfold idx in Hl. rewrite Hxy in Hl. rewrite Hl.
    destruct c; reflexivity. }
  unfold save_bit, bind, gets, lift. rewrite Hcall. simpl fst. rewrite Hoob.
  unfold get_width, get_height.
  rewrite (u32_small (width g - 1)), (u32_small (height g - 1)) by lia.
  rewrite Hbit.
  destruct (cell_eqb c ALIVE); simpl andb; cbv iota; unfold modify, ret;
    cbn [sx sy outOfBounds bufferInt ofs];
    (destruct (Z.eqb_spec (sx s) (width g - 1)) as [Ex | Ex];
     [destruct (Z.eqb_spec (sy s) (height g - 1)) as [Ey | Ey] |]);
    (eexists; split; [reflexivity |];
     split; [| cbn [bufferInt ofs]; split; [lia | reflexivity]];
     unfold at_cell; cbn [sx sy outOfBounds];
     rewrite ?u32_small by lia;
     split; [intros Hlt; try (exfalso; nia);
             repeat split; try assumption; try reflexivity; try lia; nia
            | intros Hge; try reflexivity; exfalso; nia]).
Qed.

Lemma save_chunk_step (g : Grid) (i : Z) (s : save_state) :
  Grid_wf g -> 0 <= i -> 32 * i < width g * height g ->
  at_cell g (32 * i) s -> bufferInt s = 0 ->
  exists s',
    save_chunk g i s = (Ok tt, s') /\ at_cell g (32 * (i + 1)) s'
    /\ bufferInt s' = 0
    /\ ofs s' = ofs s ++ write4 (chunk_value (gridVector g) i).
Proof.
  intros Hwf Hi Hlt Hat Hbuf.
  set (v := gridVector g).
  set (f := fun j => cell_bit v (32 * i + j) * 2 ^ j).
  destruct (for_cond_inv
              (fun j t => (j <? 32) && negb (outOfBounds t))
              (fun j => save_bit g j)
              (fun j t => at_cell g (32 * i + j) t
                          /\ bufferInt t = sum_from (Z.to_nat j) 0 f
                          /\ ofs t = ofs s)
              32 0 s)
    as (s' & k & Hrun & Hk & (Hat' & Hbuf' & Hofs') & Hend).
  - rewrite Z.add_0_r. split; [exact Hat |]. split; [exact Hbuf | reflexivity].
  - intros j t Hj (Hatj & Hbufj & Hofsj) Hcond.
    apply andb_true_iff in Hcond. destruct Hcond as [_ Hoob].
    apply negb_true_iff in Hoob.
    assert (Hp : 32 * i + j < width g * height g).
    { destruct Hatj as [_ Hout].
      destruct (Z.lt_ge_cases (32 * i + j) (width g * height g)) as [|Hge]; [assumption |].
      rewrite (Hout Hge) in Hoob. discriminate. }
    destruct (save_bit_step g (32 * i + j) j t Hwf ltac:(lia) Hatj)
      as (t' & Hb & Hat1 & Hbuf1 & Hofs1).
    exists t'. split; [exact Hb |].
    split; [replace (32 * i + (j + 1)) with (32 * i + j + 1) by lia; exact Hat1 |].
    split; [| congruence].
    rewrite Hbuf1, Hbufj.
    replace (Z.to_nat (j + 1)) with (S (Z.to_nat j)) by lia.
    rewrite sum_from_snoc. unfold f at 3.
    replace (0 + Z.of_nat (Z.to_nat j)) with j by lia. reflexivity.
  - assert (Hsum : bufferInt s' = chunk_value v i).
    { rewrite Hbuf'. unfold chunk_value. fold f.
      destruct (Z.eq_dec k 32) as [-> | Hne]; [reflexivity |].
      assert (Hoob : outOfBounds s' = true).
      { specialize (Hend ltac:(lia)). apply andb_false_iff in Hend.
        destruct Hend as [Hend | Hend].
        - apply Z.ltb_ge in Hend. lia.
        - apply negb_false_iff in Hend. exact Hend. }
      assert (Hge : width g * height g <= 32 * i + k).
      { destruct Hat' as [Hin _].
        destruct (Z.lt_ge_cases (32 * i + k) (width g * height g)) as [Hlt' |]; [| assumption].
        destruct (Hin Hlt') as [Hf _]. congruence. }
      replace 32%nat with (Z.to_nat k + (32 - Z.to_nat k))%nat by lia.
      rewrite sum_from_app, (sum_from_zero (32 - Z.to_nat k)); [lia |].
      intros j Hj. unfold f. rewrite cell_bit_past_end; [lia |].
      unfold v. rewrite (wf_cells _ Hwf). lia. }
    assert (Hat1 : at_cell g (32 * (i + 1)) s').
    { destruct (Z.eq_dec k 32) as [-> | Hne].
      - replace (32 * (i + 1)) with (32 * i + 32) by lia. exact Hat'.
      - assert (Hoob : outOfBounds s' = true).
        { specialize (Hend ltac:(lia)). apply andb_false_iff in Hend.
          destruct Hend as [Hend | Hend].
          - apply Z.ltb_ge in Hend. lia.
          - apply negb_false_iff in Hend. exact Hend. }
        split; [| intros _; exact Hoob].
        intros Hlt'. destruct Hat' as [Hin _].
        destruct (Hin ltac:(lia)) as [Hf _]. congruence. }
    exists (mkSave (sx s') (sy s') (outOfBounds s') 0
              (ofs s' ++ write4 (bufferInt s'))).
    split; [| split; [| split; [reflexivity |]]].
    + unfold save_chunk, bind. rewrite Hrun. unfold modify. reflexivity.
    + destruct Hat1 as [Hin Hout]. split; [exact Hin | exact Hout].
    + cbn [ofs]. rewrite Hofs', Hsum. reflexivity.
Qed.

Lemma write4_to_int (z : Z) : write4 (to_int z) = write4 z.
Proof. unfold write4. rewrite u32_to_int. reflexivity. Qed.

(** The encoder writes the file format: nothing throws, and the bits past
    the last cell of the last chunk are zero. *)
Lemma save_binary_encoded (g : Grid) :
  Grid_wf g -> save_binary true g = Ok (encoded g).
Proof.
  intros Hwf.
  pose proof (wf_width _ Hwf) as Hw. pose proof (wf_height _ Hwf) as Hh.
  pose proof (wf_total _ Hwf) as Ht.
  unfold save_binary, encoded, get_width, get_height. simpl negb. cbv iota.
  rewrite !write4_to_int.
  rewrite loops_of_chunks
    by (rewrite (Z.mul_comm (height g) (width g)); reflexivity).
  rewrite !(u32_small (width g * height g)) by nia.
  set (N := width g * height g) in *. set (n := (N + 31) / 32).
  set (v := gridVector g).
  set (header := write4 (width g) ++ write4 (height g)).
  assert (HN : 0 <= N) by nia.
  assert (Hn : 0 <= n /\ 32 * (n - 1) < N <= 32 * n)
    by (unfold n; Z.to_euclidean_division_equations; lia).
  destruct (Z.eq_dec N 0) as [E0 | Hpos].
  - assert (En : n = 0) by lia. rewrite En. unfold header. reflexivity.
  - destruct (for_range_inv (fun i => save_chunk g i)
                (fun i s => at_cell g (32 * i) s /\ bufferInt s = 0
                            /\ ofs s = header ++ chunks_from v (Z.to_nat i) 0)
                0 n (mkSave 0 0 (width g =? 0) 0 header))
      as (s' & Hrun & _ & _ & Hofs).
    + lia.
    + split; [| split; [reflexivity |]].
      * split.
        -- intros _. cbn [sx sy outOfBounds].
           destruct (Z.eqb_spec (width g) 0) as [E | E]; [unfold N in *; nia |].
           repeat split; lia.
        -- intros Hge. lia.
      * cbn [ofs]. simpl chunks_from. rewrite app_nil_r. reflexivity.
    + intros i s Hi (Hat & Hbuf & Hofs).
      destruct (save_chunk_step g i s Hwf) as (s' & Hb & Hat' & Hbuf' & Hofs');
        try assumption; try lia.
      exists s'. split; [exact Hb |]. split; [exact Hat' |]. split; [exact Hbuf' |].
      rewrite Hofs', Hofs. replace (Z.to_nat (i + 1)) with (S (Z.to_nat i)) by lia.
      rewrite chunks_from_snoc, <- app_assoc.
      replace (0 + Z.of_nat (Z.to_nat i)) with i by lia. reflexivity.
    + unfold run_local. rewrite Hrun. simpl rbind. rewrite Hofs.
      unfold header. rewrite <- app_assoc. reflexivity.
Qed.

Lemma byte_val_of (z : Z) : byte_val (byte_of z) = z mod 256.
Proof.
  unfold byte_val, byte_of.
  assert (Hr : 0 <= z mod 256 < 256) by (apply Z.mod_pos_bound; lia).
  destruct (Byte.of_N (Z.to_N (z mod 256))) as [b |] eqn:E.
  - apply Byte.to_of_N in E. rewrite E. lia.
  - apply Byte.of_N_None_iff in E. lia.
Qed.

Lemma le_value_write4 (v : Z) : 0 <= v < 2 ^ 32 -> le_value (write4 v) = v.
Proof.
  intros Hv. unfold write4. simpl le_value. rewrite !byte_val_of.
  rewrite (u32_small v) by exact Hv.
  change (2 ^ 8) with 256. change (2 ^ 16) with 65536.
  change (2 ^ 24) with 16777216. change (2 ^ 32) with 4294967296 in Hv.
  Z.to_euclidean_division_equations. lia.
Qed.

Lemma low_bits_bound (n : nat) (b : Z -> Z) :
  (forall j, 0 <= b j <= 1) ->
  0 <= sum_from n 0 (fun j => b j * 2 ^ j) < 2 ^ Z.of_nat n.
Proof.
  intros Hb. induction n as [| n IH].
  - simpl. lia.
  - rewrite sum_from_snoc. replace (0 + Z.of_nat n) with (Z.of_nat n) by lia.
    replace (Z.of_nat (S n)) with (Z.of_nat n + 1) by lia.
    rewrite Z.pow_add_r by lia. pose proof (Hb (Z.of_nat n)).
    assert (0 < 2 ^ Z.of_nat n) by (apply Z.pow_pos_nonneg; lia). nia.
Qed.

Lemma high_bits_multiple (n : nat) (lo : Z) (b : Z -> Z) :
  0 <= lo -> (forall j, 0 <= b j <= 1) ->
  exists H, 0 <= H /\ sum_from n lo (fun j => b j * 2 ^ j) = 2 ^ lo * H.
Proof.
  intros Hlo Hb. revert lo Hlo. induction n as [| n IH]; intros lo Hlo.
  - exists 0. simpl. lia.
  - destruct (IH (lo + 1) ltac:(lia)) as (H & HH & E).
    exists (b lo + 2 * H). pose proof (Hb lo). split; [lia |].
    simpl sum_from. rewrite E, Z.pow_add_r by lia. lia.
Qed.

(** The decoder's shift left and right isolates bit [j] of a chunk. *)
Lemma chunk_bit (v : list Cell) (i j : Z) :
  0 <= j < 32 ->
  u32 (chunk_value v i * 2 ^ (31 - j)) / 2 ^ 31 = cell_bit v (32 * i + j).
Proof.
  intros Hj. unfold chunk_value.
  set (b := fun j => cell_bit v (32 * i + j)).
  assert (Hb : forall j, 0 <= b j <= 1) by (intros; apply cell_bit_range).
  change (sum_from 32 0 (fun j0 => cell_bit v (32 * i + j0) * 2 ^ j0))
    with (sum_from 32 0 (fun j0 => b j0 * 2 ^ j0)).
  change (cell_bit v (32 * i + j)) with (b j).
  replace 32%nat with (Z.to_nat j + (1 + (31 - Z.to_nat j)))%nat by lia.
  rewrite sum_from_app, sum_from_app.
  pose proof (low_bits_bound (Z.to_nat j) b Hb) as HL.
  destruct (high_bits_multiple (31 - Z.to_nat j) (0 + Z.of_nat (Z.to_nat j) + Z.of_nat 1) b
              ltac:(lia) Hb) as (H & HH & EH).
  rewrite EH. simpl (sum_from 1 _ _).
  replace (0 + Z.of_nat (Z.to_nat j)) with j in * by lia.
  replace (Z.of_nat (Z.to_nat j)) with j in HL by lia.
  change (Z.of_nat 1) with 1. rewrite Z.add_0_r.
  set (L := sum_from (Z.to_nat j) 0 (fun j0 => b j0 * 2 ^ j0)) in *.
  assert (HP : 0 < 2 ^ j) by (apply Z.pow_pos_nonneg; lia).
  assert (HQ : 0 < 2 ^ (31 - j)) by (apply Z.pow_pos_nonneg; lia).
  assert (HPQ : 2 ^ j * 2 ^ (31 - j) = 2 ^ 31)
    by (rewrite <- Z.pow_add_r by lia; f_equal; lia).
  rewrite Z.pow_add_r by lia. change (2 ^ 1) with 2.
  set (P := 2 ^ j) in *. set (Q := 2 ^ (31 - j)) in *.
  pose proof (Hb j) as Hbj.
  assert (E : (L + (b j * P + P * 2 * H)) * Q = L * Q + b j * 2 ^ 31 + 2 ^ 32 * H)
    by (change (2 ^ 32) with (2 * 2 ^ 31); rewrite <- HPQ; ring).
  rewrite E.
  assert (HLQ : 0 <= L * Q < 2 ^ 31) by nia.
  unfold u32.
  rewrite (Z.mul_comm (2 ^ 32) H), Z_mod_plus_full.
  rewrite Z.mod_small by lia.
  symmetry. apply (Z.div_unique _ _ _ (L * Q)); lia.
Qed.

Lemma decoder_assign (pw ph n : Z) (t : load_state) :
  0 < pw < 2 ^ 32 -> 0 <= ph < 2 ^ 32 -> 0 <= n < u32 (pw * ph) ->
  decoded_shape pw ph (grid t) ->
  on_grid (Grid_assign (u32 (to_int (n mod pw))) (u32 (to_int (n / pw))) ALIVE) t
  = (Ok tt,
     mkLoad (ifs t) (bytesHolder t)
       (mkGrid pw ph (<[Z.to_nat n := ALIVE]> (gridVector (grid t))))).
Proof.
  intros Hpw Hph Hn (Ew & Eh & El).
  pose proof (u32_range (pw * ph)) as HT.
  assert (Hx : 0 <= n mod pw < pw) by (apply Z.mod_pos_bound; lia).
  assert (Hle : u32 (pw * ph) <= pw * ph).
  { unfold u32. apply Z.mod_le; [nia | lia]. }
  assert (Hy : 0 <= n / pw < ph).
  { split; [apply Z.div_pos; lia |]. apply Z.div_lt_upper_bound; lia. }
  rewrite !u32_to_int, (u32_small (n mod pw)), (u32_small (n / pw)) by lia.
  unfold on_grid, Grid_assign.
  replace (are_valid_coordinates (grid t) (n mod pw) (n / pw)) with true
    by (symmetry; apply valid_iff; lia).
  simpl negb. cbv iota.
  assert (Ei : get_index (grid t) (n mod pw) (n / pw) = n).
  { unfold get_index, get_index_new_grid. rewrite Ew, u32_add_l.
    rewrite <- Z.div_mod by lia. apply u32_small. lia. }
  rewrite Ei. unfold vec_write.
  destruct (Z.ltb_spec n (Z.of_nat (length (gridVector (grid t))))) as [_ | Hge];
    [| lia].
  rewrite Ew, Eh. reflexivity.
Qed.

Lemma load_bit_exact (v : list Cell) (pw ph i j : Z) (t : load_state) :
  0 <= pw < 2 ^ 32 -> 0 <= ph < 2 ^ 32 -> pw * ph < 2 ^ 32 ->
  Z.of_nat (length v) = pw * ph ->
  0 <= i -> 0 <= j < 32 ->
  bytesHolder t = chunk_value v i ->
  decoded_shape pw ph (grid t) -> decoded_upto v (32 * i + j) (grid t) ->
  exists t',
    load_bit (to_int pw) i j t = (Ok tt, t')
    /\ ifs t' = ifs t /\ bytesHolder t' = bytesHolder t
    /\ decoded_shape pw ph (grid t') /\ decoded_upto v (32 * i + j + 1) (grid t').
Proof.
  intros Hpw Hph HN Hlen Hi Hj Hbh Hshape Hupto.
  unfold load_bit, bind, gets. rewrite Hbh.
  change (u32 (8 * 4)) with 32. change (u32 (32 - 1)) with 31.
  rewrite (u32_small (31 - j)) by lia. rewrite chunk_bit by exact Hj.
  set (n := 32 * i + j) in *.
  unfold cell_bit.
  destruct (v !! Z.to_nat n) as [[] |] eqn:Hv.
  - (* a DEAD cell *)
    exists t. split; [reflexivity |]. split; [reflexivity |].
    split; [exact Hbh |]. split; [exact Hshape |].
    intros p Hp. specialize (Hupto p Hp).
    destruct (Z.ltb_spec (Z.of_nat p) n), (Z.ltb_spec (Z.of_nat p) (n + 1));
      try lia; try assumption.
    assert (p = Z.to_nat n) by lia. subst p. congruence.
  - (* an ALIVE cell *)
    assert (Hn : 0 <= n < Z.of_nat (length v)).
    { apply lookup_lt_Some in Hv. lia. }
    change (1 =? 1) with true. cbv iota.
    rewrite u32_to_int, (u32_small pw) by lia.
    destruct (Z.eqb_spec pw 0) as [E0 | _]; [nia |].
    assert (En : u32 (u32 (u32 (i * 4) * 8) + j) = n).
    { rewrite (u32_small (i * 4)) by lia.
      rewrite (u32_small (i * 4 * 8)) by lia.
      rewrite u32_small by lia. lia. }
    rewrite En. cbv zeta.
    rewrite (decoder_assign pw ph n t); try assumption; try lia;
      [| rewrite u32_small by nia; lia].
    eexists. split; [reflexivity |]. cbn [ifs bytesHolder grid].
    split; [reflexivity |]. split; [exact Hbh |].
    destruct Hshape as (Ew & Eh & El).
    assert (ElN : length (gridVector (grid t)) = length v)
      by (rewrite u32_small in El by nia; lia).
    split.
    + unfold decoded_shape. simpl. rewrite length_insert. auto.
    + intros p Hp. specialize (Hupto p Hp). simpl gridVector.
      destruct (decide (p = Z.to_nat n)) as [-> | Hne].
      * rewrite list_lookup_insert_eq by lia.
        destruct (Z.ltb_spec (Z.of_nat (Z.to_nat n)) (n + 1)); [congruence | lia].
      * rewrite list_lookup_insert_ne by congruence.
        destruct (Z.ltb_spec (Z.of_nat p) n), (Z.ltb_spec (Z.of_nat p) (n + 1));
          try lia; assumption.
  - (* past the last cell *)
    exists t. split; [reflexivity |]. split; [reflexivity |].
    split; [exact Hbh |]. split; [exact Hshape |].
    intros p Hp. specialize (Hupto p Hp).
    apply lookup_ge_None_1 in Hv.
    destruct (Z.ltb_spec (Z.of_nat p) n), (Z.ltb_spec (Z.of_nat p) (n + 1));
      try lia; assumption.
Qed.

Lemma chunk_value_range (v : list Cell) (i : Z) : 0 <= chunk_value v i < 2 ^ 32.
Proof.
  unfold chunk_value.
  apply (low_bits_bound 32 (fun j => cell_bit v (32 * i + j))).
  intros j. apply cell_bit_range.
Qed.

Lemma load_chunk_exact (v : list Cell) (pw ph i : Z) (m : nat) (t : load_state) :
  0 <= pw < 2 ^ 32 -> 0 <= ph < 2 ^ 32 -> pw * ph < 2 ^ 32 ->
  Z.of_nat (length v) = pw * ph -> 0 <= i ->
  ifs t = mkIfs (chunks_from v (S m) i) false false ->
  decoded_shape pw ph (grid t) -> decoded_upto v (32 * i) (grid t) ->
  exists t',
    load_chunk (to_int pw) i t = (Ok tt, t')
    /\ ifs t' = mkIfs (chunks_from v m (i + 1)) false false
    /\ decoded_shape pw ph (grid t') /\ decoded_upto v (32 * (i + 1)) (grid t').
Proof.
  intros Hpw Hph HN Hlen Hi Hifs Hshape Hupto.
  unfold load_chunk, bind, gets. rewrite Hifs. cbn [eofbit].
  unfold on_ifs. rewrite Hifs.
  rewrite ifs_read4_full by (reflexivity || (simpl; lia)).
  cbn [unread]. unfold modify. cbn [ifs bytesHolder grid].
  change (take 4 (chunks_from v (S m) i)) with (write4 (chunk_value v i)).
  change (drop 4 (chunks_from v (S m) i)) with (chunks_from v m (i + 1)).
  rewrite le_value_write4 by apply chunk_value_range.
  change (u32 (4 * 8)) with 32.
  destruct (for_range_inv (fun j => load_bit (to_int pw) i j)
              (fun j s =>
                 ifs s = mkIfs (chunks_from v m (i + 1)) false false
                 /\ bytesHolder s = chunk_value v i
                 /\ decoded_shape pw ph (grid s)
                 /\ decoded_upto v (32 * i + j) (grid s))
              0 32
              (mkLoad (mkIfs (chunks_from v m (i + 1)) false false)
                      (chunk_value v i) (grid t)))
    as (t' & Hrun & Hifs' & _ & Hshape' & Hupto').
  - lia.
  - cbn [ifs bytesHolder grid]. rewrite Z.add_0_r. auto.
  - intros j s Hj (Hi1 & Hb1 & Hs1 & Hu1).
    destruct (load_bit_exact v pw ph i j s) as (s' & Hb & Hi2 & Hb2 & Hs2 & Hu2);
      try assumption; try lia.
    exists s'. split; [exact Hb |]. split; [congruence |]. split; [congruence |].
    split; [exact Hs2 |].
    replace (32 * i + (j + 1)) with (32 * i + j + 1) by lia. exact Hu2.
  - exists t'. split; [exact Hrun |]. split; [exact Hifs' |].
    split; [exact Hshape' |].
    replace (32 * (i + 1)) with (32 * i + 32) by lia. exact Hupto'.
Qed.

(** On the bytes of the file format the decoder returns the cells of the
    grid, in a grid whose width is the height written and whose height is
    the width written. *)
Lemma load_binary_encoded (g : Grid) (u : indeterminate) :
  Grid_wf g ->
  load_binary (Some (encoded g)) u
  = Ok (mkGrid (height g) (width g) (gridVector g)).
Proof.
  intros Hwf.
  pose proof (wf_width _ Hwf) as Hw. pose proof (wf_height _ Hwf) as Hh.
  pose proof (wf_total _ Hwf) as Ht. pose proof (wf_cells _ Hwf) as Hc.
  set (v := gridVector g) in *.
  set (n := (width g * height g + 31) / 32).
  assert (Hfirst : header_first (encoded g) = width g).
  { unfold header_first, encoded.
    change (take 4 (write4 (width g) ++ _)) with (write4 (width g)).
    apply le_value_write4. exact Hw. }
  assert (Hsecond : header_second (encoded g) = height g).
  { unfold header_second, encoded.
    change (take 4 (drop 4 (write4 (width g) ++ write4 (height g) ++ _)))
      with (write4 (height g)).
    apply le_value_write4. exact Hh. }
  assert (Hchunks : header_chunks (encoded g) = n).
  { unfold header_chunks. rewrite Hfirst, Hsecond.
    rewrite u32_small by nia. unfold n. f_equal. lia. }
  rewrite load_binary_after_header
    by (unfold encoded; rewrite !length_app; simpl; lia).
  rewrite Hfirst, Hsecond, Hchunks.
  change (drop 8 (encoded g)) with (chunks_from v (Z.to_nat n) 0).
  assert (Hn : 0 <= n /\ width g * height g <= 32 * n)
    by (unfold n; Z.to_euclidean_division_equations; nia).
  destruct (for_range_inv (fun i => load_chunk (to_int (height g)) i)
              (fun i s =>
                 ifs s = mkIfs (chunks_from v (Z.to_nat (n - i)) i) false false
                 /\ decoded_shape (height g) (width g) (grid s)
                 /\ decoded_upto v (32 * i) (grid s))
              0 n
              (mkLoad (mkIfs (chunks_from v (Z.to_nat n) 0) false false)
                      (u32 (indet_bytesHolder u))
                      (Grid_new (height g) (width g))))
    as (s' & Hrun & _ & Hshape & Hupto).
  - lia.
  - cbn [ifs grid]. rewrite Z.sub_0_r. split; [reflexivity |].
    split; [apply Grid_new_shape |].
    intros p Hp. simpl gridVector.
    destruct (Z.ltb_spec (Z.of_nat p) (32 * 0)); [lia |].
    apply lookup_replicate_2. rewrite u32_small by nia. lia.
  - intros i s Hi (Hifs & Hs & Hu).
    replace (Z.to_nat (n - i)) with (S (Z.to_nat (n - (i + 1)))) in Hifs by lia.
    destruct (load_chunk_exact v (height g) (width g) i
                (Z.to_nat (n - (i + 1))) s)
      as (s1 & Hb & Hifs1 & Hs1 & Hu1); try assumption; try lia.
    exists s1. auto.
  - unfold run_local. rewrite Hrun. simpl rbind. f_equal.
    destruct Hshape as (Ew & Eh & El).
    assert (Hvec : gridVector (grid s') = v).
    { apply list_eq. intros p.
      destruct (decide (p < length v)%nat) as [Hp | Hp].
      - rewrite (Hupto p Hp).
        destruct (Z.ltb_spec (Z.of_nat p) (32 * n)); [reflexivity | lia].
      - rewrite !lookup_ge_None_2; [reflexivity | lia |].
        rewrite u32_small in El by nia. lia. }
    destruct (grid s'); simpl in *. congruence.
Qed.

(** What the round trip through the binary format does to every grid: the
    cells come back in their row-major order, the width and the height
    exchanged. *)
Lemma binary_round_trip (g : Grid) (u : indeterminate) :
  Grid_wf g ->
  exists bytes,
    save_binary true g = Ok bytes
    /\ load_binary (Some bytes) u = Ok (mkGrid (height g) (width g) (gridVector g)).
Proof.
  intros Hwf. exists (encoded g).
  split; [apply save_binary_encoded | apply load_binary_encoded]; exact Hwf.
Qed.

(** On square grids the round trip is the identity. *)
Lemma binary_round_trip_square (g : Grid) (u : indeterminate) :
  Grid_wf g -> width g = height g ->
  exists bytes,
    save_binary true g = Ok bytes /\ load_binary (Some bytes) u = Ok g.
Proof.
  intros Hwf E. destruct (binary_round_trip g u Hwf) as (bytes & Hs & Hl).
  exists bytes. split; [exact Hs |]. rewrite Hl. f_equal.
  destruct g; simpl in *. congruence.
Qed.

(** C4 fails on the code. Zoo::save_binary writes the width and then the
    height; Zoo::load_binary reads the first integer into [height] and the
    second into [width]. The 2x1 grid [ALIVE DEAD] is written as the twelve
    bytes 2, 1 and the chunk 1, and read back as a 1x2 grid. *)
Theorem load_binary_swaps_width_and_height :
  save_binary true (mkGrid 2 1 [ALIVE; DEAD])
  = Ok [x02; x00; x00; x00; x01; x00; x00; x00; x01; x00; x00; x00]
  /\
  load_binary (Some [x02; x00; x00; x00; x01; x00; x00; x00; x01; x00; x00; x00])
    (mkIndet 0 0 0)
  = Ok (mkGrid 1 2 [ALIVE; DEAD]).
Proof. split; vm_compute; reflexivity. Qed.




(** ** Grid: construction and the two counters *)

Lemma cells_equal_to_app which (v1 v2 : list Cell) :
  cells_equal_to which (v1 ++ v2) = cells_equal_to which v1 + cells_equal_to which v2.
Proof. induction v1 as [|c v1 IH]; simpl; [reflexivity | rewrite IH; lia]. Qed.

Lemma cells_equal_to_range which (v : list Cell) :
  0 <= cells_equal_to which v <= Z.of_nat (length v).
Proof.
  induction v as [|c v IH]; simpl length; simpl cells_equal_to; [lia|].
  destruct (cell_eqb c which); lia.
Qed.

Lemma cells_alive_dead (v : list Cell) :
  cells_equal_to ALIVE v + cells_equal_to DEAD v = Z.of_nat (length v).
Proof.
  induction v as [|c v IH]; simpl length; simpl cells_equal_to; [lia|].
  destruct c; simpl; lia.
Qed.

Lemma cells_equal_to_replicate which (n : nat) (c : Cell) :
  cells_equal_to which (replicate n c) = if cell_eqb c which then Z.of_nat n else 0.
Proof.
  induction n as [|n IH]; simpl replicate; simpl cells_equal_to.
  - destruct (cell_eqb c which); reflexivity.
  - rewrite IH. destruct (cell_eqb c which); lia.
Qed.

Lemma cells_equal_to_insert which (v : list Cell) (i : nat) (old c : Cell) :
  v !! i = Some old ->
  cells_equal_to which (<[i := c]> v)
  = cells_equal_to which v
    - (if cell_eqb old which then 1 else 0) + (if cell_eqb c which then 1 else 0).
Proof.
  intros Hl.
  assert (Hlt : (i < length v)%nat) by (apply lookup_lt_is_Some_1; eauto).
  rewrite (insert_take_drop v i c Hlt).
  rewrite <- (take_drop_middle v i old Hl) at 3.
  rewrite !cells_equal_to_app. simpl. lia.
Qed.

(** The counting loop over the whole vector counts the cells that are
    [which]; the counter cannot wrap, a vector has fewer than 2^32 cells. *)
Lemma count_if_loop (v : list Cell) (which : Cell) :
  Z.of_nat (length v) < 2 ^ 32 ->
  run_local (for_range 0 (Z.of_nat (length v)) (fun i => count_if v which i)) 0
  = Ok (cells_equal_to which v).
Proof.
  intros Hlen.
  destruct (for_range_inv (fun i => count_if v which i)
              (fun i c => c = cells_equal_to which (take (Z.to_nat i) v))
              0 (Z.of_nat (length v)) 0) as (c & Hrun & Hc).
  - lia.
  - reflexivity.
  - intros i c Hi ->.
    destruct (lookup_lt_is_Some_2 v (Z.to_nat i)) as [x Hx]; [lia|].
    pose proof (cells_equal_to_range which (take (Z.to_nat i) v)) as Hr.
    rewrite length_take in Hr.
    replace (Z.to_nat (i + 1)) with (S (Z.to_nat i)) by lia.
    rewrite (take_S_r _ _ _ Hx), cells_equal_to_app.
    unfold count_if, bind, lift, vec_read. rewrite Hx. simpl.
    destruct (cell_eqb x which) eqn:E; unfold modify, ret; eexists; (split; [reflexivity|]).
    + rewrite u32_small by lia. lia.
    + lia.
  - unfold run_local. rewrite Hrun. rewrite Hc.
    rewrite Nat2Z.id, firstn_all. reflexivity.
Qed.

Lemma get_cells_counted (g : Grid) :
  Grid_wf g ->
  get_alive_cells g = Ok (cells_equal_to ALIVE (gridVector g))
  /\ get_dead_cells g = Ok (cells_equal_to DEAD (gridVector g)).
Proof.
  intros [Hw Hh Ht Hc].
  unfold get_alive_cells, get_dead_cells.
  rewrite (Z.mul_comm (height g)), u32_small by nia.
  rewrite <- Hc. split; apply count_if_loop; lia.
Qed.

(** Every cell of a fresh grid is DEAD. *)
Lemma Grid_new_cells (w h x y : Z) :
  0 <= w < 2 ^ 32 -> 0 <= h < 2 ^ 32 -> w * h < 2 ^ 32 ->
  0 <= x < w -> 0 <= y < h -> Grid_get (Grid_new w h) x y = Ok DEAD.
Proof.
  intros Hw Hh Ht Hx Hy.
  pose proof (Grid_new_wf w h Hw Hh Ht) as Hwf.
  destruct (Grid_get_valid (Grid_new w h) x y Hwf Hx Hy) as (c & Hl & Hg & _).
  rewrite Hg. f_equal.
  unfold Grid_new in Hl. cbn [gridVector] in Hl.
  apply lookup_replicate in Hl. destruct Hl as [-> _]. reflexivity.
Qed.

(** X1. Grid::Grid(width, height), for extents whose product is below 2^32,
    builds a grid that has the class invariant, reports the two extents and
    [width * height] cells in total, has no live cell and [width * height]
    dead ones, and whose every cell reads DEAD. *)
Theorem Grid_new_is_all_dead (w h : Z) :
  0 <= w < 2 ^ 32 -> 0 <= h < 2 ^ 32 -> w * h < 2 ^ 32 ->
  Grid_wf (Grid_new w h)
  /\ get_width (Grid_new w h) = w /\ get_height (Grid_new w h) = h
  /\ get_total_cells (Grid_new w h) = w * h
  /\ get_alive_cells (Grid_new w h) = Ok 0
  /\ get_dead_cells (Grid_new w h) = Ok (w * h)
  /\ forall x y, 0 <= x < w -> 0 <= y < h -> Grid_get (Grid_new w h) x y = Ok DEAD.
Proof.
  intros Hw Hh Ht.
  pose proof (Grid_new_wf w h Hw Hh Ht) as Hwf.
  destruct (get_cells_counted _ Hwf) as [Ha Hd].
  split; [exact Hwf |]. split; [reflexivity |]. split; [reflexivity |].
  split; [unfold get_total_cells; cbn [width height Grid_new];
          rewrite (Z.mul_comm h), u32_small by nia; reflexivity |].
  split; [rewrite Ha; cbn [gridVector Grid_new];
          rewrite cells_equal_to_replicate; reflexivity |].
  split; [rewrite Hd; cbn [gridVector Grid_new];
          rewrite cells_equal_to_replicate; cbn [cell_eqb];
          rewrite u32_small by nia; f_equal; nia |].
  intros x y Hx Hy. apply Grid_new_cells; assumption.
Qed.

Lemma Grid_new_is_all_dead_witness :
  0 <= 3 < 2 ^ 32 /\ 0 <= 2 < 2 ^ 32 /\ 3 * 2 < 2 ^ 32 /\
  (Grid_wf (Grid_new 3 2)
   /\ get_width (Grid_new 3 2) = 3 /\ get_height (Grid_new 3 2) = 2
   /\ get_total_cells (Grid_new 3 2) = 3 * 2
   /\ get_alive_cells (Grid_new 3 2) = Ok 0
   /\ get_dead_cells (Grid_new 3 2) = Ok (3 * 2)
   /\ forall x y, 0 <= x < 3 -> 0 <= y < 2 -> Grid_get (Grid_new 3 2) x y = Ok DEAD).
Proof.
  split; [lia |]. split; [lia |]. split; [lia |].
  apply (Grid_new_is_all_dead 3 2); lia.
Defined.

(** X2. On a grid that has the class invariant, get_alive_cells returns the
    number of ALIVE cells of the vector and get_dead_cells the number of
    DEAD ones; neither loop leaves the vector, the two counts add up to
    get_total_cells, which is [width * height]. *)
Theorem get_alive_cells_plus_get_dead_cells (g : Grid) :
  Grid_wf g ->
  exists alive dead : Z,
    get_alive_cells g = Ok alive /\ get_dead_cells g = Ok dead
    /\ alive = cells_equal_to ALIVE (gridVector g)
    /\ dead = cells_equal_to DEAD (gridVector g)
    /\ alive + dead = get_total_cells g
    /\ get_total_cells g = width g * height g.
Proof.
  intros Hwf. destruct (get_cells_counted g Hwf) as [Ha Hd].
  destruct Hwf as [Hw Hh Ht Hc].
  exists (cells_equal_to ALIVE (gridVector g)), (cells_equal_to DEAD (gridVector g)).
  repeat split; try assumption.
  - rewrite cells_alive_dead, Hc. unfold get_total_cells.
    rewrite (Z.mul_comm (height g)), u32_small by nia. reflexivity.
  - unfold get_total_cells. rewrite (Z.mul_comm (height g)), u32_small by nia. reflexivity.
Qed.

Lemma get_alive_cells_plus_get_dead_cells_witness :
  Grid_wf (mkGrid 2 2 [ALIVE; DEAD; DEAD; ALIVE]) /\
  exists alive dead : Z,
    get_alive_cells (mkGrid 2 2 [ALIVE; DEAD; DEAD; ALIVE]) = Ok alive
    /\ get_dead_cells (mkGrid 2 2 [ALIVE; DEAD; DEAD; ALIVE]) = Ok dead
    /\ alive = cells_equal_to ALIVE (gridVector (mkGrid 2 2 [ALIVE; DEAD; DEAD; ALIVE]))
    /\ dead = cells_equal_to DEAD (gridVector (mkGrid 2 2 [ALIVE; DEAD; DEAD; ALIVE]))
    /\ alive + dead = get_total_cells (mkGrid 2 2 [ALIVE; DEAD; DEAD; ALIVE])
    /\ get_total_cells (mkGrid 2 2 [ALIVE; DEAD; DEAD; ALIVE])
       = width (mkGrid 2 2 [ALIVE; DEAD; DEAD; ALIVE])
         * height (mkGrid 2 2 [ALIVE; DEAD; DEAD; ALIVE]).
Proof.
  assert (Hwf : Grid_wf (mkGrid 2 2 [ALIVE; DEAD; DEAD; ALIVE]))
    by (constructor; simpl; lia).
  split; [exact Hwf |].
  exact (get_alive_cells_plus_get_dead_cells _ Hwf).
Defined.

(** X3. Grid::set at a valid coordinate changes get_alive_cells by the one
    cell it writes: the new count is the old one, less one when the cell
    was ALIVE, plus one when the cell written is ALIVE. *)
Theorem Grid_set_changes_alive_count_by_one_cell (g : Grid) (x y : Z) (c : Cell) :
  Grid_wf g -> 0 <= x < width g -> 0 <= y < height g ->
  exists g' alive alive',
    Grid_set x y c g = (Ok tt, g')
    /\ get_alive_cells g = Ok alive
    /\ get_alive_cells g' = Ok alive'
    /\ alive' = alive - alive_at g x y + (if cell_eqb c ALIVE then 1 else 0).
Proof.
  intros Hwf Hx Hy.
  destruct (Grid_assign_valid g x y c Hwf Hx Hy) as [Hset Hwf'].
  destruct (Grid_get_valid g x y Hwf Hx Hy) as (old & Hl & Hg & _).
  destruct (get_cells_counted g Hwf) as [Ha _].
  destruct (get_cells_counted _ Hwf') as [Ha' _].
  cbn [gridVector] in Ha'.
  eexists _, _, _. split; [| split; [exact Ha | split; [exact Ha' |]]].
  - unfold Grid_set.
    replace (are_valid_coordinates g x y) with true
      by (symmetry; apply valid_iff; lia).
    exact Hset.
  - rewrite (cells_equal_to_insert ALIVE _ _ old c Hl).
    unfold alive_at. rewrite Hg. destruct old; reflexivity.
Qed.

Lemma Grid_set_changes_alive_count_by_one_cell_witness :
  Grid_wf (Grid_new 2 2) /\ 0 <= 1 < width (Grid_new 2 2)
  /\ 0 <= 0 < height (Grid_new 2 2) /\
  exists g' alive alive',
    Grid_set 1 0 ALIVE (Grid_new 2 2) = (Ok tt, g')
    /\ get_alive_cells (Grid_new 2 2) = Ok alive
    /\ get_alive_cells g' = Ok alive'
    /\ alive' = alive - alive_at (Grid_new 2 2) 1 0
               + (if cell_eqb ALIVE ALIVE then 1 else 0).
Proof.
  assert (Hwf : Grid_wf (Grid_new 2 2)) by (constructor; simpl; lia).
  split; [exact Hwf |]. split; [simpl; lia |]. split; [simpl; lia |].
  apply (Grid_set_changes_alive_count_by_one_cell (Grid_new 2 2) 1 0 ALIVE Hwf);
    simpl; lia.
Defined.

(** ** Grid::resize *)

(** The loops of Grid::resize copy the overlap of the old and the new
    extents into a vector of DEAD cells. *)
Lemma Grid_resize_window (g : Grid) (nw nh : Z) :
  Grid_wf g -> 0 <= nw < 2 ^ 32 -> 0 <= nh < 2 ^ 32 -> nw * nh < 2 ^ 32 ->
  exists g',
    Grid_resize nw nh g = (Ok tt, g')
    /\ Grid_wf g' /\ width g' = nw /\ height g' = nh
    /\ (forall x y, 0 <= x < Z.min (width g) nw -> 0 <= y < Z.min (height g) nh ->
          Grid_get g' x y = Grid_get g x y)
    /\ (forall x y, 0 <= x < nw -> 0 <= y < nh -> x >= width g \/ y >= height g ->
          Grid_get g' x y = Ok DEAD).
Proof.
  intros Hwf Hnw Hnh Hnt.
  pose proof Hwf as [Hw Hh Ht Hc].
  pose proof (Grid_new_wf nw nh Hnw Hnh Hnt) as Hwf0.
  destruct (fill_window_spec (fun v : list Cell => mkGrid nw nh v) (fun _ => True)
              (fun i j =>
                 let* c := lift (vec_read (gridVector g) (get_index g j i)) in
                 vec_store (get_index_new_grid j i nw) c)
              0 0 (Z.min (width g) nw) (Z.min (height g) nh)
              (fun x y => (x, y)) (fun x y => cell_of g x y) nw nh
              (replicate (Z.to_nat (u32 (nw * nh))) DEAD))
    as (v' & Hrun & _ & Hwf' & Hw' & Hh' & Hin & Hout).
  - lia.
  - lia.
  - intros x y Hx Hy. cbn [fst snd]. lia.
  - intros x y x' y' _ _ _ _ E. inversion E. auto.
  - intros x y s Hx Hy _ Hs _ _. cbn [fst snd width height gridVector].
    destruct (Grid_get_valid g x y Hwf ltac:(lia) ltac:(lia)) as (c & Hl & Hg & _).
    destruct (get_index_idx g x y Hwf ltac:(lia) ltac:(lia)) as [Hi Hlt].
    destruct (get_index_idx (mkGrid nw nh s) x y Hs) as [Hi' Hlt'];
      [cbn [width]; lia | cbn [height]; lia |].
    unfold get_index in Hi'. cbn [width gridVector] in Hi', Hlt'.
    unfold bind, lift, vec_read. rewrite Hi. fold (idx g x y). rewrite Hl.
    unfold vec_store, vec_write. rewrite Hi'.
    unfold idx in Hlt'. cbn [width] in Hlt'.
    replace (nw * y + x <? Z.of_nat (length s)) with true
      by (symmetry; apply Z.ltb_lt; lia).
    eexists. split; [reflexivity |]. split; [exact I |].
    unfold idx, cell_of. cbn [width]. rewrite Hg. reflexivity.
  - split; [exact I |]. split; [exact Hwf0 |]. split; reflexivity.
  - cbn [width height] in *.
    exists (mkGrid nw nh v'). split.
    + unfold Grid_resize, run_local. rewrite Hrun. reflexivity.
    + split; [exact Hwf' |]. split; [reflexivity |]. split; [reflexivity |]. split.
      * intros x y Hx Hy. specialize (Hin x y Hx Hy). cbn [fst snd] in Hin.
        rewrite Hin. unfold cell_of.
        destruct (Grid_get_valid g x y Hwf ltac:(lia) ltac:(lia)) as (c & _ & Hg & _).
        rewrite Hg. reflexivity.
      * intros x y Hx Hy Hor.
        rewrite (Hout x y ltac:(lia) ltac:(lia)).
        -- apply (Grid_new_cells nw nh x y); assumption.
        -- intros x' y' Hx' Hy' E. inversion E. subst. lia.
Qed.

(** X4. Grid::resize(new_width, new_height), for new extents whose product
    is below 2^32, never throws and never indexes outside a vector; the
    grid then has the new extents and the class invariant, every cell with
    [x < old width] and [y < old height] is the cell it was, and every
    other cell is DEAD. *)
Theorem Grid_resize_keeps_overlap_and_pads_dead (g : Grid) (nw nh : Z) :
  Grid_wf g -> 0 <= nw < 2 ^ 32 -> 0 <= nh < 2 ^ 32 -> nw * nh < 2 ^ 32 ->
  exists g',
    Grid_resize nw nh g = (Ok tt, g')
    /\ Grid_wf g' /\ get_width g' = nw /\ get_height g' = nh
    /\ forall x y, 0 <= x < nw -> 0 <= y < nh ->
         Grid_get g' x y
         = if (x <? width g) && (y <? height g) then Grid_get g x y else Ok DEAD.
Proof.
  intros Hwf Hnw Hnh Hnt.
  destruct (Grid_resize_window g nw nh Hwf Hnw Hnh Hnt)
    as (g' & Hrun & Hwf' & Hw' & Hh' & Hin & Hout).
  exists g'. split; [exact Hrun |]. split; [exact Hwf' |].
  split; [exact Hw' |]. split; [exact Hh' |].
  intros x y Hx Hy.
  destruct (x <? width g) eqn:Ex; [destruct (y <? height g) eqn:Ey |]; cbn [andb].
  - apply Z.ltb_lt in Ex, Ey. apply Hin; lia.
  - apply Z.ltb_ge in Ey. apply Hout; lia.
  - apply Z.ltb_ge in Ex. apply Hout; lia.
Qed.

Lemma Grid_resize_keeps_overlap_and_pads_dead_witness :
  Grid_wf (mkGrid 2 1 [ALIVE; ALIVE]) /\ 0 <= 1 < 2 ^ 32 /\ 0 <= 2 < 2 ^ 32
  /\ 1 * 2 < 2 ^ 32 /\
  exists g',
    Grid_resize 1 2 (mkGrid 2 1 [ALIVE; ALIVE]) = (Ok tt, g')
    /\ Grid_wf g' /\ get_width g' = 1 /\ get_height g' = 2
    /\ forall x y, 0 <= x < 1 -> 0 <= y < 2 ->
         Grid_get g' x y
         = if (x <? width (mkGrid 2 1 [ALIVE; ALIVE]))
              && (y <? height (mkGrid 2 1 [ALIVE; ALIVE]))
           then Grid_get (mkGrid 2 1 [ALIVE; ALIVE]) x y else Ok DEAD.
Proof.
  assert (Hwf : Grid_wf (mkGrid 2 1 [ALIVE; ALIVE])) by (constructor; simpl; lia).
  split; [exact Hwf |]. split; [lia |]. split; [lia |]. split; [lia |].
  apply (Grid_resize_keeps_overlap_and_pads_dead _ 1 2 Hwf); lia.
Defined.



(** ** Grid::crop, further *)

(** What a crop that returns has checked, and what it returns. *)
Lemma Grid_crop_ok (g : Grid) (x0 y0 x1 y1 : Z) (g' : Grid) :
  Grid_wf g -> Grid_crop g x0 y0 x1 y1 = Ok g' ->
  (0 <= x0 <= x1 /\ x1 <= width g /\ x0 < width g)
  /\ (0 <= y0 <= y1 /\ y1 <= height g /\ y0 < height g)
  /\ Grid_wf g' /\ width g' = x1 - x0 /\ height g' = y1 - y0
  /\ forall i j, 0 <= i < x1 - x0 -> 0 <= j < y1 - y0 ->
       Grid_get g' i j = Grid_get g (x0 + i) (y0 + j).
Proof.
  intros Hwf Hc. unfold Grid_crop in Hc.
  destruct (_ || _) eqn:E1 in Hc; [discriminate |].
  destruct (_ || _) eqn:E2 in Hc; [discriminate |].
  repeat (apply orb_false_elim in E1; destruct E1 as [E1 ?]).
  apply orb_false_elim in E2; destruct E2 as [E2 ?].
  assert (Hx : 0 <= x0 <= x1 /\ x1 <= width g) by lia.
  assert (Hy : 0 <= y0 <= y1 /\ y1 <= height g) by lia.
  destruct (Grid_crop_window g x0 y0 x1 y1 Hwf Hx Hy) as (g2 & Hrun & Hrest).
  cbv zeta in Hc. rewrite Hrun in Hc. inversion Hc; subst g2.
  split; [lia |]. split; [lia |]. exact Hrest.
Qed.

Lemma Grid_crop_run (g : Grid) (x0 y0 x1 y1 : Z) :
  Grid_wf g -> 0 <= x0 <= x1 -> x1 <= width g -> x0 < width g ->
  0 <= y0 <= y1 -> y1 <= height g -> y0 < height g ->
  exists g', Grid_crop g x0 y0 x1 y1 = Ok g'.
Proof.
  intros Hwf Hx0 Hx1 Hx2 Hy0 Hy1 Hy2.
  destruct (Grid_crop_window g x0 y0 x1 y1 Hwf ltac:(lia) ltac:(lia)) as (g2 & Hrun & _).
  exists g2. unfold Grid_crop.
  replace (_ || _) with false at 1.
  2:{ symmetry. repeat (apply orb_false_intro); lia. }
  replace (_ || _) with false at 1.
  2:{ symmetry. apply orb_false_intro; lia. }
  exact Hrun.
Qed.

(** X6. Cropping a grid with at least one cell to its whole extent,
    [crop(0, 0, width, height)], returns a grid equal to it. *)
Theorem Grid_crop_whole_grid_is_a_copy (g : Grid) :
  Grid_wf g -> 0 < width g -> 0 < height g ->
  Grid_crop g 0 0 (width g) (height g) = Ok g.
Proof.
  intros Hwf Hw Hh.
  destruct (Grid_crop_run g 0 0 (width g) (height g) Hwf) as [g' Hc]; try lia.
  rewrite Hc. f_equal.
  destruct (Grid_crop_ok _ _ _ _ _ _ Hwf Hc) as (_ & _ & Hwf' & Hw' & Hh' & Hcells).
  apply Grid_ext; try assumption; try lia.
  intros x y Hx Hy. rewrite (Hcells x y) by lia. reflexivity.
Qed.

Lemma Grid_crop_whole_grid_is_a_copy_witness :
  Grid_wf (mkGrid 2 1 [ALIVE; DEAD]) /\ 0 < width (mkGrid 2 1 [ALIVE; DEAD])
  /\ 0 < height (mkGrid 2 1 [ALIVE; DEAD])
  /\ Grid_crop (mkGrid 2 1 [ALIVE; DEAD]) 0 0 (width (mkGrid 2 1 [ALIVE; DEAD]))
       (height (mkGrid 2 1 [ALIVE; DEAD]))
     = Ok (mkGrid 2 1 [ALIVE; DEAD]).
Proof.
  assert (Hwf : Grid_wf (mkGrid 2 1 [ALIVE; DEAD])) by (constructor; simpl; lia).
  split; [exact Hwf |]. split; [simpl; lia |]. split; [simpl; lia |].
  apply (Grid_crop_whole_grid_is_a_copy _ Hwf); simpl; lia.
Defined.

(** X7. A crop of a crop is one crop: when [crop(x0, y0, x1, y1)] returns
    [g1] and [g1.crop(a0, b0, a1, b1)] returns [g2], then
    [crop(x0 + a0, y0 + b0, x0 + a1, y0 + b1)] of the first grid returns
    [g2]. *)
Theorem Grid_crop_of_a_crop (g g1 g2 : Grid) (x0 y0 x1 y1 a0 b0 a1 b1 : Z) :
  Grid_wf g ->
  Grid_crop g x0 y0 x1 y1 = Ok g1 ->
  Grid_crop g1 a0 b0 a1 b1 = Ok g2 ->
  Grid_crop g (x0 + a0) (y0 + b0) (x0 + a1) (y0 + b1) = Ok g2.
Proof.
  intros Hwf H1 H2.
  destruct (Grid_crop_ok _ _ _ _ _ _ Hwf H1) as (Hx & Hy & Hwf1 & Hw1 & Hh1 & Hc1).
  destruct (Grid_crop_ok _ _ _ _ _ _ Hwf1 H2) as (Ha & Hb & Hwf2 & Hw2 & Hh2 & Hc2).
  destruct (Grid_crop_run g (x0 + a0) (y0 + b0) (x0 + a1) (y0 + b1) Hwf) as [g3 H3];
    try lia.
  rewrite H3. f_equal.
  destruct (Grid_crop_ok _ _ _ _ _ _ Hwf H3) as (_ & _ & Hwf3 & Hw3 & Hh3 & Hc3).
  apply Grid_ext; try assumption; try lia.
  intros x y Hx3 Hy3.
  rewrite Hc3 by lia. rewrite Hc2 by lia. rewrite Hc1 by lia.
  f_equal; lia.
Qed.

Lemma Grid_crop_of_a_crop_witness :
  Grid_wf (mkGrid 3 2 [ALIVE; DEAD; ALIVE; DEAD; ALIVE; DEAD])
  /\ Grid_crop (mkGrid 3 2 [ALIVE; DEAD; ALIVE; DEAD; ALIVE; DEAD]) 1 0 3 2
     = Ok (mkGrid 2 2 [DEAD; ALIVE; ALIVE; DEAD])
  /\ Grid_crop (mkGrid 2 2 [DEAD; ALIVE; ALIVE; DEAD]) 1 0 2 1
     = Ok (mkGrid 1 1 [ALIVE])
  /\ Grid_crop (mkGrid 3 2 [ALIVE; DEAD; ALIVE; DEAD; ALIVE; DEAD])
       (1 + 1) (0 + 0) (1 + 2) (0 + 1)
     = Ok (mkGrid 1 1 [ALIVE]).
Proof.
  assert (Hwf : Grid_wf (mkGrid 3 2 [ALIVE; DEAD; ALIVE; DEAD; ALIVE; DEAD]))
    by (constructor; simpl; lia).
  split; [exact Hwf |]. split; [vm_compute; reflexivity |].
  split; [vm_compute; reflexivity |].
  apply (Grid_crop_of_a_crop _ (mkGrid 2 2 [DEAD; ALIVE; ALIVE; DEAD]) _ 1 0 3 2 1 0 2 1 Hwf);
    vm_compute; reflexivity.
Defined.

(** ** Grid::rotate, cell by cell *)

Lemma mod4_cases (k : Z) : k mod 4 = 0 \/ k mod 4 = 1 \/ k mod 4 = 2 \/ k mod 4 = 3.
Proof. pose proof (Z.mod_pos_bound k 4 ltac:(lia)). lia. Qed.

Lemma even_mod4 (k : Z) : Z.even k = Z.even (k mod 4).
Proof.
  rewrite (Z.div_mod k 4) at 1 by lia.
  rewrite Z.add_comm, Z.even_add_mul_even; [reflexivity |].
  exists 2. reflexivity.
Qed.

Lemma rotated_place_valid (k w h x y : Z) :
  0 <= x < w -> 0 <= y < h ->
  0 <= fst (rotated_place k w h x y) < fst (rotated_extents k w h)
  /\ 0 <= snd (rotated_place k w h x y) < snd (rotated_extents k w h).
Proof.
  intros Hx Hy. unfold rotated_place, rotated_extents. rewrite (even_mod4 k).
  destruct (mod4_cases k) as [E | [E | [E | E]]]; rewrite E; cbn; lia.
Qed.

Lemma rotated_place_onto (k w h p q : Z) :
  0 <= p < fst (rotated_extents k w h) -> 0 <= q < snd (rotated_extents k w h) ->
  exists x y, 0 <= x < w /\ 0 <= y < h /\ rotated_place k w h x y = (p, q).
Proof.
  unfold rotated_place, rotated_extents. rewrite (even_mod4 k).
  destruct (mod4_cases k) as [E | [E | [E | E]]]; rewrite E; cbn; intros Hp Hq.
  - exists p, q. repeat split; lia.
  - exists q, (h - 1 - p). repeat split; try lia. f_equal; lia.
  - exists (w - 1 - p), (h - 1 - q). repeat split; try lia. f_equal; lia.
  - exists (w - 1 - q), p. repeat split; try lia. f_equal; lia.
Qed.

Lemma rotated_extents_add (a b w h : Z) :
  rotated_extents b (fst (rotated_extents a w h)) (snd (rotated_extents a w h))
  = rotated_extents (a + b) w h.
Proof.
  unfold rotated_extents. rewrite Z.even_add.
  destruct (Z.even a), (Z.even b); reflexivity.
Qed.

Lemma rotated_place_add (a b w h x y : Z) :
  rotated_place b (fst (rotated_extents a w h)) (snd (rotated_extents a w h))
    (fst (rotated_place a w h x y)) (snd (rotated_place a w h x y))
  = rotated_place (a + b) w h x y.
Proof.
  unfold rotated_place, rotated_extents.
  rewrite (even_mod4 a), (Z.add_mod a b 4) by lia.
  destruct (mod4_cases a) as [E | [E | [E | E]]]; rewrite E;
    destruct (mod4_cases b) as [F | [F | [F | F]]]; rewrite F; cbn; f_equal; lia.
Qed.

Lemma Grid_rotate_places (g : Grid) (k : Z) :
  Grid_wf g ->
  exists g',
    Grid_rotate g k = Ok g' /\ Grid_wf g'
    /\ (width g', height g') = rotated_extents k (width g) (height g)
    /\ forall x y, 0 <= x < width g -> 0 <= y < height g ->
         Grid_get g' (fst (rotated_place k (width g) (height g) x y))
                     (snd (rotated_place k (width g) (height g) x y))
         = Grid_get g x y.
Proof.
  intros Hwf. rewrite Grid_rotate_mod4.
  unfold rotated_place, rotated_extents. rewrite (even_mod4 k).
  destruct (mod4_cases k) as [-> | [-> | [-> | ->]]].
  - exists g. split; [apply Grid_rotate_0; assumption |]. split; [assumption |].
    split; [reflexivity |]. intros; reflexivity.
  - destruct (Grid_rotate_1 g Hwf) as (g' & Hr1 & Hwf' & Hw' & Hh' & Hc).
    exists g'. split; [assumption |]. split; [assumption |].
    split; [cbn; congruence |]. exact Hc.
  - destruct (Grid_rotate_2 g Hwf) as (g' & Hr1 & Hwf' & Hw' & Hh' & Hc).
    exists g'. split; [assumption |]. split; [assumption |].
    split; [cbn; congruence |]. exact Hc.
  - destruct (Grid_rotate_3 g Hwf) as (g' & Hr1 & Hwf' & Hw' & Hh' & Hc).
    exists g'. split; [assumption |]. split; [assumption |].
    split; [cbn; congruence |]. exact Hc.
Qed.

(** X8. Grid::rotate(k) returns, for every int [k], a grid with the class
    invariant in which the cell [(x, y)] of the source is found, by [k mod 4],
    at [(x, y)], [(height - 1 - y, x)], [(width - 1 - x, height - 1 - y)] or
    [(y, width - 1 - x)]: a quarter turn clockwise for each unit of [k]; the
    place is a coordinate of the result. *)
Theorem Grid_rotate_moves_every_cell (g : Grid) (k : Z) :
  Grid_wf g ->
  exists g',
    Grid_rotate g k = Ok g' /\ Grid_wf g'
    /\ (get_width g', get_height g') = rotated_extents k (width g) (height g)
    /\ forall x y, 0 <= x < width g -> 0 <= y < height g ->
         let p := rotated_place k (width g) (height g) x y in
         0 <= fst p < get_width g' /\ 0 <= snd p < get_height g'
         /\ Grid_get g' (fst p) (snd p) = Grid_get g x y.
Proof.
  intros Hwf.
  destruct (Grid_rotate_places g k Hwf) as (g' & Hr & Hwf' & He & Hc).
  exists g'. split; [exact Hr |]. split; [exact Hwf' |]. split; [exact He |].
  intros x y Hx Hy p. subst p.
  destruct (rotated_place_valid k (width g) (height g) x y Hx Hy) as [Hp Hq].
  rewrite <- He in Hp, Hq. cbn [fst snd] in Hp, Hq.
  split; [exact Hp |]. split; [exact Hq |]. apply Hc; assumption.
Qed.

Lemma Grid_rotate_moves_every_cell_witness :
  Grid_wf (mkGrid 2 1 [ALIVE; DEAD]) /\
  exists g',
    Grid_rotate (mkGrid 2 1 [ALIVE; DEAD]) (-5) = Ok g' /\ Grid_wf g'
    /\ (get_width g', get_height g')
       = rotated_extents (-5) (width (mkGrid 2 1 [ALIVE; DEAD]))
           (height (mkGrid 2 1 [ALIVE; DEAD]))
    /\ forall x y, 0 <= x < width (mkGrid 2 1 [ALIVE; DEAD]) ->
         0 <= y < height (mkGrid 2 1 [ALIVE; DEAD]) ->
         let p := rotated_place (-5) (width (mkGrid 2 1 [ALIVE; DEAD]))
                    (height (mkGrid 2 1 [ALIVE; DEAD])) x y in
         0 <= fst p < get_width g' /\ 0 <= snd p < get_height g'
         /\ Grid_get g' (fst p) (snd p) = Grid_get (mkGrid 2 1 [ALIVE; DEAD]) x y.
Proof.
  assert (Hwf : Grid_wf (mkGrid 2 1 [ALIVE; DEAD])) by (constructor; simpl; lia).
  split; [exact Hwf |].
  exact (Grid_rotate_moves_every_cell _ (-5) Hwf).
Defined.

(** X9. Rotating by [a] and then by [b] gives the grid that one rotation
    by [a + b] gives, for all [a] and [b], negative ones too. *)
Theorem Grid_rotate_twice_adds_the_turns (g : Grid) (a b : Z) :
  Grid_wf g ->
  exists g1 g2,
    Grid_rotate g a = Ok g1 /\ Grid_rotate g1 b = Ok g2
    /\ Grid_rotate g (a + b) = Ok g2.
Proof.
  intros Hwf.
  destruct (Grid_rotate_places g a Hwf) as (g1 & Hr1 & Hwf1 & He1 & Hc1).
  destruct (Grid_rotate_places g1 b Hwf1) as (g2 & Hr2 & Hwf2 & He2 & Hc2).
  destruct (Grid_rotate_places g (a + b) Hwf) as (g3 & Hr3 & Hwf3 & He3 & Hc3).
  exists g1, g2. split; [exact Hr1 |]. split; [exact Hr2 |].
  rewrite Hr3. f_equal.
  pose proof (f_equal fst He1) as Hw1. pose proof (f_equal snd He1) as Hh1.
  cbn [fst snd] in Hw1, Hh1.
  assert (He : (width g3, height g3) = (width g2, height g2)).
  { rewrite He3, He2, Hw1, Hh1. symmetry. apply rotated_extents_add. }
  inversion He as [[Hw Hh]].
  apply Grid_ext; try assumption.
  intros p q Hp Hq.
  destruct (rotated_place_onto (a + b) (width g) (height g) p q)
    as (x & y & Hx & Hy & Hxy).
  { rewrite <- He3. cbn [fst]. exact Hp. }
  { rewrite <- He3. cbn [snd]. exact Hq. }
  pose proof (Hc3 x y Hx Hy) as H3. rewrite Hxy in H3. cbn [fst snd] in H3.
  rewrite H3.
  destruct (rotated_place_valid a (width g) (height g) x y Hx Hy) as [Hp1 Hq1].
  rewrite <- Hw1 in Hp1. rewrite <- Hh1 in Hq1.
  pose proof (Hc2 _ _ Hp1 Hq1) as H2.
  rewrite Hw1, Hh1, rotated_place_add, Hxy in H2. cbn [fst snd] in H2.
  rewrite H2. symmetry. apply Hc1; assumption.
Qed.

Lemma Grid_rotate_twice_adds_the_turns_witness :
  Grid_wf (mkGrid 2 1 [ALIVE; DEAD]) /\
  exists g1 g2,
    Grid_rotate (mkGrid 2 1 [ALIVE; DEAD]) 3 = Ok g1 /\ Grid_rotate g1 (-2) = Ok g2
    /\ Grid_rotate (mkGrid 2 1 [ALIVE; DEAD]) (3 + -2) = Ok g2.
Proof.
  assert (Hwf : Grid_wf (mkGrid 2 1 [ALIVE; DEAD])) by (constructor; simpl; lia).
  split; [exact Hwf |].
  exact (Grid_rotate_twice_adds_the_turns _ 3 (-2) Hwf).
Defined.

(** ** Grid::merge, further *)

(** A property of the state that every outcome of the body keeps is kept by
    every outcome of the loop, also by the one that throws. *)
Lemma for_iter_keeps {S : Type} (P : S -> Prop) (body : Z -> M S unit) (n : nat) :
  (forall i t, P t -> P (snd (body i t))) ->
  forall lo s, P s -> P (snd (for_iter n lo body s)).
Proof.
  intros Hbody. induction n as [|n IH]; intros lo s Hs; simpl.
  - exact Hs.
  - unfold bind. specialize (Hbody lo s Hs).
    destruct (body lo s) as [[[] | e] s']; cbn [snd] in *.
    + apply IH. exact Hbody.
    + exact Hbody.
Qed.

Lemma bind_keeps {S A B : Type} (P : S -> Prop) (m : M S A) (k : A -> M S B) (s : S) :
  P (snd (m s)) -> (forall a t, P t -> P (snd (k a t))) -> P (snd (bind m k s)).
Proof.
  intros Hm Hk. unfold bind. destruct (m s) as [[a | e] s']; cbn [snd] in *.
  - apply Hk. exact Hm.
  - exact Hm.
Qed.

Lemma Grid_assign_keeps (g0 : Grid) (x y : Z) (c : Cell) (g : Grid) :
  same_shape g0 g -> same_shape g0 (snd (Grid_assign x y c g)).
Proof.
  intros (Hwf & Hw & Hh). unfold Grid_assign.
  destruct (negb _); [exact (conj Hwf (conj Hw Hh)) |].
  unfold vec_write. destruct (_ <? _); cbn [snd]; [| exact (conj Hwf (conj Hw Hh))].
  split; [| split; assumption].
  destruct Hwf as [H1 H2 H3 H4].
  constructor; cbn [width height gridVector]; try assumption.
  rewrite length_insert. exact H4.
Qed.

Lemma Grid_set_keeps (g0 : Grid) (x y : Z) (c : Cell) (g : Grid) :
  same_shape g0 g -> same_shape g0 (snd (Grid_set x y c g)).
Proof.
  intros H. unfold Grid_set. destruct (negb _); [exact H |].
  apply Grid_assign_keeps. exact H.
Qed.

(** X10. Whatever Grid::merge does, also when it throws half way, the
    destination keeps its extents and its class invariant: the vector still
    has [width * height] cells. *)
Theorem Grid_merge_keeps_the_class_invariant
    (this other : Grid) (x0 y0 : Z) (alive_only : bool) :
  Grid_wf this ->
  let this' := snd (Grid_merge other x0 y0 alive_only this) in
  Grid_wf this' /\ get_width this' = get_width this
  /\ get_height this' = get_height this.
Proof.
  intros Hwf. cbv zeta. fold (same_shape this (snd (Grid_merge other x0 y0 alive_only this))).
  assert (H0 : same_shape this this) by (split; [exact Hwf | split; reflexivity]).
  unfold Grid_merge. destruct (_ || _); [exact H0 |].
  unfold for_range.
  apply (for_iter_keeps (same_shape this)); [| exact H0].
  intros y g Hg.
  apply (for_iter_keeps (same_shape this)); [| exact Hg].
  intros x g1 Hg1.
  apply bind_keeps; [exact Hg1 |].
  intros c g2 Hg2.
  destruct (cell_eqb c ALIVE && alive_only); [apply Grid_set_keeps; exact Hg2 |].
  apply bind_keeps.
  - destruct alive_only; exact Hg2.
  - intros mine g3 Hg3.
    destruct (alive_only && cell_eqb mine ALIVE); [apply Grid_set_keeps; exact Hg3 |].
    apply bind_keeps; [exact Hg3 |].
    intros c' g4 Hg4. apply Grid_set_keeps. exact Hg4.
Qed.

Lemma Grid_merge_keeps_the_class_invariant_witness :
  Grid_wf (Grid_new 2 2) /\
  let this' := snd (Grid_merge (mkGrid 2 1 [ALIVE; ALIVE]) 0 0 true (Grid_new 2 2)) in
  Grid_wf this' /\ get_width this' = get_width (Grid_new 2 2)
  /\ get_height this' = get_height (Grid_new 2 2).
Proof.
  assert (Hwf : Grid_wf (Grid_new 2 2)) by (constructor; simpl; lia).
  split; [exact Hwf |].
  exact (Grid_merge_keeps_the_class_invariant _ (mkGrid 2 1 [ALIVE; ALIVE]) 0 0 true Hwf).
Defined.

(** X11. Grid::merge without [alive_only], of a square grid of side [n] at
    an offset with [x0 + n] and [y0 + n] at most both extents of the
    destination, returns normally; the cells of the window
    [x0 <= x < x0 + n], [y0 <= y < y0 + n] are then the cells of the other
    grid and every other cell is the cell it was. *)
Theorem Grid_merge_overwrites_the_window (this other : Grid) (x0 y0 : Z) :
  Grid_wf this -> Grid_wf other ->
  width other = height other ->
  0 <= x0 < width this -> 0 <= y0 < height this ->
  x0 + width other <= Z.min (width this) (height this) ->
  y0 + height other <= Z.min (width this) (height this) ->
  exists this',
    Grid_merge other x0 y0 false this = (Ok tt, this')
    /\ Grid_wf this' /\ width this' = width this /\ height this' = height this
    /\ (forall x y, 0 <= x < width this -> 0 <= y < height this ->
          Grid_get this' x y
          = if (x0 <=? x) && (x <? x0 + width other)
               && (y0 <=? y) && (y <? y0 + height other)
            then Grid_get other (x - x0) (y - y0)
            else Grid_get this x y).
Proof.
  intros Hwf Hwfo Hsq Hx0 Hy0 Hfx Hfy.
  pose proof Hwf as [Hw Hh Ht Hc]. pose proof Hwfo as [Hwo Hho Hto Hco].
  destruct (fill_window_spec (fun g : Grid => g) (fun _ => True)
              (fun y x =>
                 let* c := lift (Grid_call_const other (u32 (x - x0)) (u32 (y - y0))) in
                 if cell_eqb c ALIVE && false
                 then Grid_set x y ALIVE
                 else
                   let* mine := ret DEAD in
                   if false && cell_eqb mine ALIVE
                   then Grid_set (u32 (x - x0)) (u32 (y - y0)) ALIVE
                   else
                     let* c' := lift (Grid_call_const other (u32 (x - x0)) (u32 (y - y0))) in
                     Grid_set x y c')
              x0 y0 (x0 + width other) (y0 + height other)
              (fun x y => (x, y)) (fun x y => cell_of other (x - x0) (y - y0))
              (width this) (height this) this)
    as (g' & Hrun & _ & Hwf' & Hw' & Hh' & Hin & Hout).
  - lia.
  - lia.
  - intros x y Hx Hy. cbn [fst snd]. lia.
  - intros x y x' y' _ _ _ _ E. inversion E. auto.
  - intros x y s Hx Hy _ Hs Hws Hhs. cbn [fst snd].
    rewrite (u32_small (x - x0)), (u32_small (y - y0)) by lia.
    destruct (Grid_get_valid other (x - x0) (y - y0) Hwfo ltac:(lia) ltac:(lia))
      as (c & _ & Hg & Hcc & _).
    destruct (Grid_assign_valid s x y c Hs ltac:(lia) ltac:(lia)) as [Ha _].
    unfold bind, lift, ret. rewrite Hcc. rewrite andb_false_r. cbn [andb].
    unfold Grid_set.
    replace (are_valid_coordinates s x y) with true
      by (symmetry; apply valid_iff; lia).
    cbn [negb]. rewrite Ha.
    eexists. split; [reflexivity |]. split; [exact I |].
    unfold cell_of. rewrite Hg. reflexivity.
  - split; [exact I |]. split; [exact Hwf |]. split; reflexivity.
  - exists g'. split.
    + unfold Grid_merge, get_width, get_height.
      rewrite (Z.add_comm (width other)), (Z.add_comm (height other)).
      rewrite !u32_small by lia.
      replace (_ || _) with false at 1.
      2:{ symmetry. apply orb_false_intro; [apply orb_false_intro; lia |].
          apply negb_false_iff, valid_iff. lia. }
      replace (Z.min (width this) (y0 + width other)) with (y0 + height other) by lia.
      replace (Z.min (height this) (x0 + height other)) with (x0 + width other) by lia.
      exact Hrun.
    + split; [exact Hwf' |]. split; [exact Hw' |]. split; [exact Hh' |].
      intros x y Hx Hy.
      destruct ((x0 <=? x) && (x <? x0 + width other)
                && (y0 <=? y) && (y <? y0 + height other)) eqn:E.
      * assert (x0 <= x < x0 + width other /\ y0 <= y < y0 + height other) as [Hxi Hyi].
        { repeat (apply andb_true_iff in E; destruct E as [E ?]). lia. }
        specialize (Hin x y Hxi Hyi). cbn [fst snd] in Hin. rewrite Hin.
        unfold cell_of.
        destruct (Grid_get_valid other (x - x0) (y - y0) Hwfo ltac:(lia) ltac:(lia))
          as (c & _ & Hg & _).
        rewrite Hg. reflexivity.
      * apply Hout; [lia | lia |].
        intros x' y' Hx' Hy' E'. inversion E'. subst x' y'.
        assert (E2 : (x0 <=? x) && (x <? x0 + width other)
                     && (y0 <=? y) && (y <? y0 + height other) = true).
        { repeat (apply andb_true_intro; split); lia. }
        congruence.
Qed.

Lemma Grid_merge_overwrites_the_window_witness :
  Grid_wf (Grid_new 3 3) /\ Grid_wf (mkGrid 2 2 [ALIVE; DEAD; DEAD; ALIVE])
  /\ width (mkGrid 2 2 [ALIVE; DEAD; DEAD; ALIVE])
     = height (mkGrid 2 2 [ALIVE; DEAD; DEAD; ALIVE])
  /\ 0 <= 1 < width (Grid_new 3 3)
  /\ 0 <= 0 < height (Grid_new 3 3)
  /\ 1 + width (mkGrid 2 2 [ALIVE; DEAD; DEAD; ALIVE])
     <= Z.min (width (Grid_new 3 3)) (height (Grid_new 3 3))
  /\ 0 + height (mkGrid 2 2 [ALIVE; DEAD; DEAD; ALIVE])
     <= Z.min (width (Grid_new 3 3)) (height (Grid_new 3 3))
  /\ exists this',
       Grid_merge (mkGrid 2 2 [ALIVE; DEAD; DEAD; ALIVE]) 1 0 false (Grid_new 3 3)
       = (Ok tt, this')
       /\ Grid_wf this' /\ width this' = width (Grid_new 3 3)
       /\ height this' = height (Grid_new 3 3)
       /\ (forall x y, 0 <= x < width (Grid_new 3 3) -> 0 <= y < height (Grid_new 3 3) ->
             Grid_get this' x y
             = if (1 <=? x) && (x <? 1 + width (mkGrid 2 2 [ALIVE; DEAD; DEAD; ALIVE]))
                  && (0 <=? y) && (y <? 0 + height (mkGrid 2 2 [ALIVE; DEAD; DEAD; ALIVE]))
               then Grid_get (mkGrid 2 2 [ALIVE; DEAD; DEAD; ALIVE]) (x - 1) (y - 0)
               else Grid_get (Grid_new 3 3) x y).
Proof.
  assert (Hwf : Grid_wf (Grid_new 3 3)) by (constructor; simpl; lia).
  assert (Hwfo : Grid_wf (mkGrid 2 2 [ALIVE; DEAD; DEAD; ALIVE]))
    by (constructor; simpl; lia).
  split; [exact Hwf |]. split; [exact Hwfo |]. split; [reflexivity |].
  split; [simpl; lia |]. split; [simpl; lia |]. split; [simpl; lia |].
  split; [simpl; lia |].
  apply (Grid_merge_overwrites_the_window _ _ 1 0 Hwf Hwfo); simpl; lia.
Defined.

(** X12. Grid::merge with [alive_only] at the offset [(0, 0)], of a square
    grid whose side is at most both extents of the destination, is the
    cell-wise union: a cell becomes ALIVE where the other grid has an ALIVE
    cell, and every other cell is the cell it was. *)
Theorem Grid_merge_alive_only_at_the_origin (this other : Grid) :
  Grid_wf this -> Grid_wf other ->
  width other = height other ->
  0 < width this -> 0 < height this ->
  width other <= Z.min (width this) (height this) ->
  exists this',
    Grid_merge other 0 0 true this = (Ok tt, this')
    /\ Grid_wf this' /\ width this' = width this /\ height this' = height this
    /\ (forall x y, 0 <= x < width this -> 0 <= y < height this ->
          Grid_get this' x y
          = if (x <? width other) && (y <? height other)
               && cell_eqb (cell_of other x y) ALIVE
            then Ok ALIVE
            else Grid_get this x y).
Proof.
  intros Hwf Hwfo Hsq Hwpos Hhpos Hfit.
  pose proof Hwf as [Hw Hh Ht Hc]. pose proof Hwfo as [Hwo Hho Hto Hco].
  set (val := fun x y : Z =>
                if cell_eqb (cell_of other x y) ALIVE then ALIVE else cell_of this x y).
  destruct (fill_window_spec (fun g : Grid => g)
              (fun s => forall p q, 0 <= p < width this -> 0 <= q < height this ->
                 Grid_get s p q = Grid_get this p q \/ Grid_get s p q = Ok (val p q))
              (fun y x =>
                 let* c := lift (Grid_call_const other (u32 (x - 0)) (u32 (y - 0))) in
                 if cell_eqb c ALIVE && true
                 then Grid_set x y ALIVE
                 else
                   let* mine := (fun g => (Grid_get g x y, g)) in
                   if true && cell_eqb mine ALIVE
                   then Grid_set (u32 (x - 0)) (u32 (y - 0)) ALIVE
                   else
                     let* c' := lift (Grid_call_const other (u32 (x - 0)) (u32 (y - 0))) in
                     Grid_set x y c')
              0 0 (0 + width other) (0 + height other)
              (fun x y => (x, y)) val
              (width this) (height this) this)
    as (g' & Hrun & _ & Hwf' & Hw' & Hh' & Hin & Hout).
  - lia.
  - lia.
  - intros x y Hx Hy. cbn [fst snd]. lia.
  - intros x y x' y' _ _ _ _ E. inversion E. auto.
  - intros x y s Hx Hy Hkeep Hs Hws Hhs. cbn [fst snd].
    rewrite (u32_small (x - 0)), (u32_small (y - 0)) by lia.
    rewrite !Z.sub_0_r.
    destruct (Grid_get_valid other x y Hwfo ltac:(lia) ltac:(lia))
      as (c & _ & Hg & Hcc & _).
    destruct (Grid_get_valid s x y Hs ltac:(lia) ltac:(lia)) as (m & _ & Hgm & _).
    destruct (Grid_get_valid this x y Hwf ltac:(lia) ltac:(lia)) as (m0 & _ & Hgm0 & _).
    assert (Hval : val x y = if cell_eqb c ALIVE then ALIVE else m0).
    { unfold val, cell_of. rewrite Hg, Hgm0. reflexivity. }
    assert (Hset : forall v, Grid_set x y v s
              = (Ok tt, mkGrid (width s) (height s) (<[idx s x y := v]> (gridVector s)))).
    { intros v. unfold Grid_set.
      replace (are_valid_coordinates s x y) with true
        by (symmetry; apply valid_iff; lia).
      cbn [negb]. apply (Grid_assign_valid s x y v Hs); lia. }
    assert (Hkeep' : forall s', s' = mkGrid (width s) (height s)
                                   (<[idx s x y := val x y]> (gridVector s)) ->
               forall p q, 0 <= p < width this -> 0 <= q < height this ->
                 Grid_get s' p q = Grid_get this p q \/ Grid_get s' p q = Ok (val p q)).
    { intros s' -> p q Hp Hq.
      rewrite (Grid_get_insert s x y p q (val x y) Hs) by lia.
      destruct (decide (p = x /\ q = y)) as [[-> ->] | _]; [right; reflexivity |].
      apply Hkeep; assumption. }
    assert (Hm : cell_eqb c ALIVE = false -> m = m0).
    { intros Ec. destruct (Hkeep x y ltac:(lia) ltac:(lia)) as [E | E].
      - rewrite Hgm, Hgm0 in E. congruence.
      - rewrite Hgm, Hval, Ec in E. congruence. }
    unfold bind, lift. rewrite Hcc. rewrite andb_true_r. cbn [andb].
    destruct (cell_eqb c ALIVE) eqn:Ec.
    + rewrite Hset. eexists. split; [reflexivity |].
      rewrite Hval. split; [| reflexivity].
      apply Hkeep'. rewrite Hval. reflexivity.
    + rewrite Hgm. rewrite <- (Hm eq_refl) in Hval.
      destruct (cell_eqb m ALIVE) eqn:Em.
      * rewrite Hset. eexists. split; [reflexivity |].
        assert (m = ALIVE) as -> by (destruct m; [discriminate | reflexivity]).
        rewrite Hval. split; [| reflexivity].
        apply Hkeep'. rewrite Hval. reflexivity.
      * rewrite Hset. eexists. split; [reflexivity |].
        assert (c = DEAD) as -> by (destruct c; [reflexivity | discriminate]).
        assert (m = DEAD) as -> by (destruct m; [reflexivity | discriminate]).
        rewrite Hval. split; [| reflexivity].
        apply Hkeep'. rewrite Hval. reflexivity.
  - split; [intros; left; reflexivity |]. split; [exact Hwf |]. split; reflexivity.
  - exists g'. split.
    + unfold Grid_merge, get_width, get_height.
      rewrite !Z.add_0_r. rewrite !Z.add_0_l in *.
      rewrite !u32_small by lia.
      replace (_ || _) with false at 1.
      2:{ symmetry. apply orb_false_intro; [apply orb_false_intro; lia |].
          apply negb_false_iff, valid_iff. lia. }
      replace (Z.min (width this) (width other)) with (height other) by lia.
      replace (Z.min (height this) (height other)) with (width other) by lia.
      exact Hrun.
    + split; [exact Hwf' |]. split; [exact Hw' |]. split; [exact Hh' |].
      intros x y Hx Hy.
      destruct (Grid_get_valid this x y Hwf Hx Hy) as (m0 & _ & Hgm0 & _).
      destruct ((x <? width other) && (y <? height other)) eqn:E; cbn [andb].
      * apply andb_true_iff in E. destruct E as [E1 E2].
        specialize (Hin x y ltac:(lia) ltac:(lia)). cbn [fst snd] in Hin.
        rewrite Hin. unfold val.
        destruct (cell_eqb (cell_of other x y) ALIVE); [reflexivity |].
        unfold cell_of. rewrite Hgm0. reflexivity.
      * apply Hout; [lia | lia |].
        intros x' y' Hx' Hy' E'. inversion E'. subst x' y'.
        apply andb_false_iff in E. lia.
Qed.

Lemma Grid_merge_alive_only_at_the_origin_witness :
  Grid_wf (mkGrid 2 2 [DEAD; ALIVE; DEAD; DEAD])
  /\ Grid_wf (mkGrid 2 2 [ALIVE; DEAD; DEAD; DEAD])
  /\ width (mkGrid 2 2 [ALIVE; DEAD; DEAD; DEAD])
     = height (mkGrid 2 2 [ALIVE; DEAD; DEAD; DEAD])
  /\ 0 < width (mkGrid 2 2 [DEAD; ALIVE; DEAD; DEAD])
  /\ 0 < height (mkGrid 2 2 [DEAD; ALIVE; DEAD; DEAD])
  /\ width (mkGrid 2 2 [ALIVE; DEAD; DEAD; DEAD])
     <= Z.min (width (mkGrid 2 2 [DEAD; ALIVE; DEAD; DEAD]))
              (height (mkGrid 2 2 [DEAD; ALIVE; DEAD; DEAD]))
  /\ exists this',
       Grid_merge (mkGrid 2 2 [ALIVE; DEAD; DEAD; DEAD]) 0 0 true
         (mkGrid 2 2 [DEAD; ALIVE; DEAD; DEAD]) = (Ok tt, this')
       /\ Grid_wf this'
       /\ width this' = width (mkGrid 2 2 [DEAD; ALIVE; DEAD; DEAD])
       /\ height this' = height (mkGrid 2 2 [DEAD; ALIVE; DEAD; DEAD])
       /\ (forall x y, 0 <= x < width (mkGrid 2 2 [DEAD; ALIVE; DEAD; DEAD]) ->
             0 <= y < height (mkGrid 2 2 [DEAD; ALIVE; DEAD; DEAD]) ->
             Grid_get this' x y
             = if (x <? width (mkGrid 2 2 [ALIVE; DEAD; DEAD; DEAD]))
                  && (y <? height (mkGrid 2 2 [ALIVE; DEAD; DEAD; DEAD]))
                  && cell_eqb (cell_of (mkGrid 2 2 [ALIVE; DEAD; DEAD; DEAD]) x y) ALIVE
               then Ok ALIVE
               else Grid_get (mkGrid 2 2 [DEAD; ALIVE; DEAD; DEAD]) x y).
Proof.
  assert (Hwf : Grid_wf (mkGrid 2 2 [DEAD; ALIVE; DEAD; DEAD]))
    by (constructor; simpl; lia).
  assert (Hwfo : Grid_wf (mkGrid 2 2 [ALIVE; DEAD; DEAD; DEAD]))
    by (constructor; simpl; lia).
  split; [exact Hwf |]. split; [exact Hwfo |]. split; [reflexivity |].
  split; [simpl; lia |]. split; [simpl; lia |]. split; [simpl; lia |].
  apply (Grid_merge_alive_only_at_the_origin _ _ Hwf Hwfo); simpl; lia.
Defined.

(** ** operator<< *)

(** A loop whose body appends [f i] to the stream appends the texts of its
    iterations in turn. *)
Lemma for_iter_appends (body : Z -> M (list byte) unit) (f : Z -> list byte) (n : nat) :
  forall lo os,
    (forall i os', lo <= i < lo + Z.of_nat n -> body i os' = (Ok tt, os' ++ f i)) ->
    for_iter n lo body os = (Ok tt, os ++ lines_from n lo f).
Proof.
  induction n as [|n IH]; intros lo os Hbody; simpl.
  - unfold ret. rewrite app_nil_r. reflexivity.
  - unfold bind. rewrite Hbody by lia.
    rewrite IH by (intros; apply Hbody; lia).
    rewrite <- app_assoc. reflexivity.
Qed.

Lemma lines_from_cells (cs : list Cell) (f : Z -> list byte) :
  forall lo,
    (forall i c, cs !! i = Some c -> f (lo + Z.of_nat i) = [cell_char c]) ->
    lines_from (length cs) lo f = map cell_char cs.
Proof.
  induction cs as [|c cs IH]; intros lo Hf; simpl; [reflexivity |].
  change (cell_char c :: map cell_char cs) with ([cell_char c] ++ map cell_char cs).
  rewrite <- (Hf 0%nat c eq_refl). replace (lo + Z.of_nat 0) with lo by lia.
  f_equal. apply IH. intros i c' Hi.
  replace (lo + 1 + Z.of_nat i) with (lo + Z.of_nat (S i)) by lia.
  apply Hf. exact Hi.
Qed.

Lemma lines_from_constant (n : nat) (lo : Z) (b : byte) :
  lines_from n lo (fun _ => [b]) = replicate n b.
Proof. revert lo. induction n as [|n IH]; intros lo; simpl; [| rewrite IH]; reflexivity. Qed.

Lemma row_cells_length (g : Grid) (y : Z) :
  Grid_wf g -> 0 <= y < height g ->
  length (row_cells g y) = Z.to_nat (width g).
Proof.
  intros [Hw Hh Ht Hc] Hy. unfold row_cells.
  rewrite length_take, length_drop. nia.
Qed.

Lemma row_cells_lookup (g : Grid) (x y : Z) :
  Grid_wf g -> 0 <= x < width g -> 0 <= y < height g ->
  exists c, row_cells g y !! Z.to_nat x = Some c
            /\ Grid_get g x y = Ok c /\ Grid_call_const g x y = Ok c.
Proof.
  intros Hwf Hx Hy.
  destruct (Grid_get_valid g x y Hwf Hx Hy) as (c & Hl & Hg & Hcc & _).
  exists c. split; [| split; assumption].
  unfold row_cells. rewrite lookup_take_lt by lia. rewrite lookup_drop.
  unfold idx in Hl. rewrite <- Hl. f_equal. destruct Hwf. nia.
Qed.

Lemma put_appends (b : byte) (os : list byte) : put b os = (Ok tt, os ++ [b]).
Proof. reflexivity. Qed.

Lemma print_border_appends (g : Grid) (os : list byte) :
  0 <= width g -> print_border g os = (Ok tt, os ++ border_line g).
Proof.
  intros Hw. unfold print_border, bind, for_range, get_width.
  rewrite put_appends.
  rewrite (for_iter_appends _ (fun _ => [x2d])) by (intros; apply put_appends).
  rewrite !put_appends, lines_from_constant. rewrite Z.sub_0_r.
  unfold border_line. rewrite <- !app_assoc. reflexivity.
Qed.

Lemma print_row_appends (g : Grid) (y : Z) (os : list byte) :
  Grid_wf g -> 0 <= y < height g ->
  (let* _ := put x7c in
   let* _ :=
     for_range 0 (get_width g) (fun x =>
       let* c := lift (Grid_call_const g x y) in
       put (cell_char c)) in
   let* _ := put x7c in
   put x0a) os = (Ok tt, os ++ row_line g y).
Proof.
  intros Hwf Hy. unfold bind at 1. rewrite put_appends.
  unfold bind at 1. unfold for_range, get_width. rewrite Z.sub_0_r.
  rewrite (for_iter_appends _ (fun x => [cell_char (cell_of g x y)])).
  - unfold bind. rewrite !put_appends.
    rewrite <- (row_cells_length g y Hwf Hy).
    rewrite (lines_from_cells (row_cells g y)).
    + unfold row_line. rewrite <- !app_assoc. reflexivity.
    + intros i c Hi.
      assert (Hlt : (i < length (row_cells g y))%nat)
        by (apply lookup_lt_is_Some_1; eauto).
      rewrite (row_cells_length g y Hwf Hy) in Hlt.
      destruct (row_cells_lookup g (Z.of_nat i) y Hwf ltac:(lia) Hy)
        as (c' & Hl & Hg & _).
      rewrite Nat2Z.id in Hl. rewrite Hi in Hl. inversion Hl; subst c'.
      unfold cell_of. rewrite Z.add_0_l, Hg. reflexivity.
  - intros x os' Hx.
    destruct (row_cells_lookup g x y Hwf ltac:(lia) Hy) as (c & _ & Hg & Hcc).
    unfold bind, lift. rewrite Hcc, put_appends.
    unfold cell_of. rewrite Hg. reflexivity.
Qed.

(** X13. operator<< on a grid with the class invariant never throws and
    appends to the stream a border of a plus, [width] dashes, a plus and a
    new line, then for each row a bar, the characters of the cells of the
    row as the vector stores them, a bar and a new line, then the border
    again: [(width + 3) * (height + 2)] characters. *)
Theorem Grid_print_renders_the_rows (g : Grid) (os : list byte) :
  Grid_wf g ->
  Grid_print g os = (Ok tt, os ++ rendered g)
  /\ Z.of_nat (length (rendered g)) = (width g + 3) * (height g + 2).
Proof.
  intros Hwf. pose proof Hwf as [Hw Hh Ht Hc]. split.
  - unfold Grid_print. unfold bind at 1.
    rewrite print_border_appends by lia.
    unfold bind at 1. unfold for_range at 1. unfold get_height. rewrite Z.sub_0_r.
    rewrite (for_iter_appends _ (row_line g)).
    + rewrite print_border_appends by lia.
      unfold rendered. rewrite <- !app_assoc. reflexivity.
    + intros y os' Hy. apply print_row_appends; [exact Hwf | lia].
  - unfold rendered. rewrite !length_app.
    assert (Hb : length (border_line g) = (Z.to_nat (width g) + 3)%nat).
    { unfold border_line. cbn [length]. rewrite length_app, length_replicate.
      cbn [length]. lia. }
    assert (Hrows : forall n lo, (Z.of_nat n + lo <= height g) -> 0 <= lo ->
              length (lines_from n lo (row_line g))
              = (n * (Z.to_nat (width g) + 3))%nat).
    { induction n as [|n IH]; intros lo Hn Hlo; simpl; [reflexivity |].
      rewrite length_app, IH by lia.
      unfold row_line. cbn [length]. rewrite length_app, length_map.
      rewrite row_cells_length by (try assumption; lia). cbn [length]. lia. }
    rewrite Hb, Hrows by lia. nia.
Qed.

Lemma Grid_print_renders_the_rows_witness :
  Grid_wf (mkGrid 2 1 [ALIVE; DEAD]) /\
  (Grid_print (mkGrid 2 1 [ALIVE; DEAD]) [] = (Ok tt, [] ++ rendered (mkGrid 2 1 [ALIVE; DEAD]))
   /\ Z.of_nat (length (rendered (mkGrid 2 1 [ALIVE; DEAD])))
      = (width (mkGrid 2 1 [ALIVE; DEAD]) + 3) * (height (mkGrid 2 1 [ALIVE; DEAD]) + 2)).
Proof.
  assert (Hwf : Grid_wf (mkGrid 2 1 [ALIVE; DEAD])) by (constructor; simpl; lia).
  split; [exact Hwf |].
  exact (Grid_print_renders_the_rows _ [] Hwf).
Defined.

(** ** World, further *)

(** X14. World::World(initial_state), for a grid with the class invariant,
    never throws and makes both buffers equal to the grid, so get_state
    returns a grid equal to the initial state. *)
Theorem World_of_grid_copies_the_grid_into_both_buffers (g : Grid) :
  Grid_wf g ->
  World_of_grid g = Ok (mkWorld g g)
  /\ get_state (mkWorld g g) = g.
Proof.
  intros Hwf. pose proof Hwf as [Hw Hh Ht Hc].
  split; [| reflexivity].
  pose proof (Grid_new_wf (width g) (height g) Hw Hh Ht) as Hwf0.
  destruct (fill_window_spec currGrid (fun s => nextGrid s = currGrid s)
              (fun y x =>
                 let* c := lift (Grid_call_const g x y) in
                 let* _ := on_curr (Grid_assign x y c) in
                 let* c' := lift (Grid_call_const g x y) in
                 on_next (Grid_assign x y c'))
              0 0 (width g) (height g)
              (fun x y => (x, y)) (fun x y => cell_of g x y)
              (width g) (height g)
              (World_new (width g) (height g)))
    as (w' & Hrun & Hkeep & Hwf' & Hw' & Hh' & Hin & _).
  - lia.
  - lia.
  - intros x y Hx Hy. cbn [fst snd]. lia.
  - intros x y x' y' _ _ _ _ E. inversion E. auto.
  - intros x y s Hx Hy Hkeep Hs Hws Hhs. cbn [fst snd].
    destruct (Grid_get_valid g x y Hwf Hx Hy) as (c & _ & Hg & Hcc & _).
    destruct (Grid_assign_valid (currGrid s) x y c Hs ltac:(lia) ltac:(lia)) as [Ha _].
    unfold bind, lift, on_curr, on_next. rewrite Hcc, Ha.
    cbn [currGrid nextGrid]. rewrite Hkeep, Ha.
    eexists. split; [reflexivity |]. cbn [currGrid nextGrid].
    split; [reflexivity |]. unfold cell_of. rewrite Hg. reflexivity.
  - split; [reflexivity |]. split; [exact Hwf0 |]. split; reflexivity.
  - unfold World_of_grid, run_local, get_height, get_width. rewrite Hrun.
    f_equal. destruct w' as [c n]. cbn [currGrid nextGrid] in *. subst n.
    assert (c = g) as ->; [| reflexivity].
    apply Grid_ext; try assumption.
    intros x y Hx Hy. rewrite Hw' in Hx. rewrite Hh' in Hy.
    specialize (Hin x y Hx Hy). cbn [fst snd] in Hin. rewrite Hin.
    unfold cell_of.
    destruct (Grid_get_valid g x y Hwf Hx Hy) as (c0 & _ & Hg & _).
    rewrite Hg. reflexivity.
Qed.

Lemma World_of_grid_copies_the_grid_into_both_buffers_witness :
  Grid_wf (mkGrid 2 1 [ALIVE; DEAD]) /\
  (World_of_grid (mkGrid 2 1 [ALIVE; DEAD])
   = Ok (mkWorld (mkGrid 2 1 [ALIVE; DEAD]) (mkGrid 2 1 [ALIVE; DEAD]))
   /\ get_state (mkWorld (mkGrid 2 1 [ALIVE; DEAD]) (mkGrid 2 1 [ALIVE; DEAD]))
      = mkGrid 2 1 [ALIVE; DEAD]).
Proof.
  assert (Hwf : Grid_wf (mkGrid 2 1 [ALIVE; DEAD])) by (constructor; simpl; lia).
  split; [exact Hwf |].
  exact (World_of_grid_copies_the_grid_into_both_buffers _ Hwf).
Defined.

(** X15. In a world with both extents at least 2 and below 2^31,
    count_neighbours at a coordinate of the world returns, without
    [toroidal], the number of ALIVE cells among the up to eight neighbours
    inside the grid and, with [toroidal], the number among the eight
    neighbours taken modulo the extents; both are between 0 and 8. *)
Theorem count_neighbours_counts_the_eight_neighbours (this : World) (x y : Z) :
  Grid_wf (currGrid this) ->
  2 <= World_get_width this < 2 ^ 31 -> 2 <= World_get_height this < 2 ^ 31 ->
  0 <= x < World_get_width this -> 0 <= y < World_get_height this ->
  count_neighbours this x y false = Ok (bounded_neighbours (get_state this) x y)
  /\ count_neighbours this x y true = Ok (toroidal_neighbours (get_state this) x y)
  /\ 0 <= bounded_neighbours (get_state this) x y <= 8
  /\ 0 <= toroidal_neighbours (get_state this) x y <= 8.
Proof.
  unfold World_get_width, World_get_height, get_width, get_height, get_state.
  intros Hwf Hw Hh Hx Hy.
  split; [apply (count_neighbours_ok this x y false); assumption |].
  split; [apply (count_neighbours_ok this x y true); assumption |].
  split.
  - apply (live_neighbours_range false).
  - apply (live_neighbours_range true).
Qed.

Lemma count_neighbours_counts_the_eight_neighbours_witness :
  Grid_wf (currGrid (World_new 3 3))
  /\ 2 <= World_get_width (World_new 3 3) < 2 ^ 31
  /\ 2 <= World_get_height (World_new 3 3) < 2 ^ 31
  /\ 0 <= 0 < World_get_width (World_new 3 3)
  /\ 0 <= 2 < World_get_height (World_new 3 3)
  /\ (count_neighbours (World_new 3 3) 0 2 false
      = Ok (bounded_neighbours (get_state (World_new 3 3)) 0 2)
      /\ count_neighbours (World_new 3 3) 0 2 true
         = Ok (toroidal_neighbours (get_state (World_new 3 3)) 0 2)
      /\ 0 <= bounded_neighbours (get_state (World_new 3 3)) 0 2 <= 8
      /\ 0 <= toroidal_neighbours (get_state (World_new 3 3)) 0 2 <= 8).
Proof.
  assert (Hwf : Grid_wf (currGrid (World_new 3 3))) by (constructor; simpl; lia).
  split; [exact Hwf |].
  split; [vm_compute; split; [discriminate | reflexivity] |].
  split; [vm_compute; split; [discriminate | reflexivity] |].
  split; [vm_compute; split; [discriminate | reflexivity] |].
  split; [vm_compute; split; [discriminate | reflexivity] |].
  apply (count_neighbours_counts_the_eight_neighbours (World_new 3 3) 0 2 Hwf);
    vm_compute; split; (discriminate || reflexivity).
Defined.

(** X16. In a square world of side at least 2, World::step returns
    normally, exchanges the buffers and keeps the extents, and every cell
    of the new state is what the rule of the game makes of the old cell and
    its live neighbours: ALIVE with 2 or 3 of them stays ALIVE, DEAD with
    exactly 3 becomes ALIVE, every other cell is DEAD. *)
Theorem World_step_applies_the_rule_to_a_square_world (this : World) (torodial : bool) :
  World_wf this ->
  World_get_width this = World_get_height this ->
  2 <= World_get_width this < 2 ^ 31 ->
  exists w',
    World_step torodial this = (Ok tt, w')
    /\ World_wf w'
    /\ World_get_width w' = World_get_width this
    /\ World_get_height w' = World_get_height this
    /\ nextGrid w' = get_state this
    /\ forall x y, 0 <= x < World_get_width this -> 0 <= y < World_get_height this ->
         Grid_get (get_state w') x y
         = Ok (life_rule (cell_of (get_state this) x y)
                 (live_neighbours torodial (get_state this) x y)).
Proof.
  unfold World_wf, World_get_width, World_get_height, get_width, get_height, get_state.
  intros (Hwfc & Hwfn & Hwn & Hhn) Hsq Hw.
  destruct (World_step_spec this torodial Hwfc Hwfn Hwn Hhn ltac:(lia) ltac:(lia))
    as (w' & Hrun & Hnext & Hwf' & Hw' & Hh' & Hcells & _).
  exists w'. split; [exact Hrun |].
  split; [rewrite Hnext; split; [exact Hwf' | split; [exact Hwfc | split; congruence]] |].
  split; [exact Hw' |]. split; [exact Hh' |]. split; [exact Hnext |].
  intros x y Hx Hy. apply Hcells; lia.
Qed.

Lemma World_step_applies_the_rule_to_a_square_world_witness :
  World_wf (World_new 3 3)
  /\ World_get_width (World_new 3 3) = World_get_height (World_new 3 3)
  /\ 2 <= World_get_width (World_new 3 3) < 2 ^ 31
  /\ exists w',
       World_step true (World_new 3 3) = (Ok tt, w')
       /\ World_wf w'
       /\ World_get_width w' = World_get_width (World_new 3 3)
       /\ World_get_height w' = World_get_height (World_new 3 3)
       /\ nextGrid w' = get_state (World_new 3 3)
       /\ forall x y, 0 <= x < World_get_width (World_new 3 3) ->
            0 <= y < World_get_height (World_new 3 3) ->
            Grid_get (get_state w') x y
            = Ok (life_rule (cell_of (get_state (World_new 3 3)) x y)
                    (live_neighbours true (get_state (World_new 3 3)) x y)).
Proof.
  assert (Hwf : Grid_wf (Grid_new 3 3)) by (constructor; simpl; lia).
  assert (HW : World_wf (World_new 3 3))
    by (split; [exact Hwf | split; [exact Hwf | split; reflexivity]]).
  split; [exact HW |]. split; [reflexivity |].
  split; [vm_compute; split; [discriminate | reflexivity] |].
  apply (World_step_applies_the_rule_to_a_square_world (World_new 3 3) true HW);
    [reflexivity | vm_compute; split; [discriminate | reflexivity]].
Defined.

Lemma for_iter_add {St : Type} (body : Z -> M St unit) (a b : nat) :
  forall lo s,
    for_iter (a + b) lo body s
    = (let* _ := for_iter a lo body in for_iter b (lo + Z.of_nat a) body) s.
Proof.
  induction a as [|a IH]; intros lo s.
  - simpl. unfold bind, ret. replace (lo + Z.of_nat 0) with lo by lia. reflexivity.
  - change (for_iter (S a + b) lo body s)
      with ((let* _ := body lo in for_iter (a + b) (lo + 1) body) s).
    change (for_iter (S a) lo body)
      with (let* _ := body lo in for_iter a (lo + 1) body).
    unfold bind. destruct (body lo s) as [[[] | e] s']; [| reflexivity].
    rewrite IH. unfold bind.
    replace (lo + 1 + Z.of_nat a) with (lo + Z.of_nat (S a)) by lia. reflexivity.
Qed.

Lemma for_iter_shift {St : Type} (m : M St unit) (n : nat) :
  forall lo lo' s, for_iter n lo (fun _ => m) s = for_iter n lo' (fun _ => m) s.
Proof.
  induction n as [|n IH]; intros lo lo' s; simpl; [reflexivity |].
  unfold bind. destruct (m s) as [[[] | e] s']; [apply IH | reflexivity].
Qed.

(** X17. World::advance(a + b) is advance(a) followed by advance(b), in
    the state it leaves and in the exception it throws, if any. *)
Theorem World_advance_adds_up (a b : Z) (torodial : bool) (this : World) :
  0 <= a -> 0 <= b ->
  World_advance (a + b) torodial this
  = (let* _ := World_advance a torodial in World_advance b torodial) this.
Proof.
  intros Ha Hb. unfold World_advance, for_range.
  replace (Z.to_nat (a + b - 0)) with (Z.to_nat (a - 0) + Z.to_nat (b - 0))%nat by lia.
  rewrite for_iter_add. unfold bind.
  destruct (for_iter (Z.to_nat (a - 0)) 0 _ this) as [[[] | e] s']; [| reflexivity].
  apply for_iter_shift.
Qed.

Lemma World_advance_adds_up_witness :
  0 <= 1 /\ 0 <= 2 /\
  World_advance (1 + 2) false (World_new 3 3)
  = (let* _ := World_advance 1 false in World_advance 2 false) (World_new 3 3).
Proof.
  split; [lia |]. split; [lia |].
  apply (World_advance_adds_up 1 2 false (World_new 3 3)); lia.
Defined.

(** X18. A world at least as wide as it is high, with a height of at least
    2, can be advanced by any number of steps: World::advance returns
    normally, and the world keeps its extents and two buffers of these
    extents. *)
Theorem World_advance_never_throws_when_at_least_as_wide_as_high
    (steps : Z) (torodial : bool) (this : World) :
  World_wf this ->
  2 <= World_get_height this <= World_get_width this ->
  World_get_width this < 2 ^ 31 ->
  exists w',
    World_advance steps torodial this = (Ok tt, w')
    /\ World_wf w'
    /\ World_get_width w' = World_get_width this
    /\ World_get_height w' = World_get_height this.
Proof.
  unfold World_wf, World_get_width, World_get_height, get_width, get_height.
  intros HW Hh Hw. unfold World_advance, for_range.
  destruct (for_iter_inv (fun _ => World_step torodial)
              (fun _ s => (Grid_wf (currGrid s) /\ Grid_wf (nextGrid s)
                           /\ width (nextGrid s) = width (currGrid s)
                           /\ height (nextGrid s) = height (currGrid s))
                          /\ width (currGrid s) = width (currGrid this)
                          /\ height (currGrid s) = height (currGrid this))
              (Z.to_nat (steps - 0)) 0 this) as (w' & Hrun & Hinv).
  - split; [exact HW | split; reflexivity].
  - intros i t _ ((Hwfc & Hwfn & Hwn & Hhn) & Hwt & Hht).
    destruct (World_step_spec t torodial Hwfc Hwfn Hwn Hhn ltac:(lia) ltac:(lia))
      as (t' & Hstep & Hnext & Hwf' & Hw' & Hh' & _).
    exists t'. split; [exact Hstep |]. rewrite Hnext.
    split; [split; [exact Hwf' | split; [exact Hwfc | split; congruence]] |].
    split; congruence.
  - exists w'. split; [exact Hrun |]. exact Hinv.
Qed.

Lemma World_advance_never_throws_when_at_least_as_wide_as_high_witness :
  World_wf (World_new 3 2)
  /\ 2 <= World_get_height (World_new 3 2) <= World_get_width (World_new 3 2)
  /\ World_get_width (World_new 3 2) < 2 ^ 31
  /\ exists w',
       World_advance 5 true (World_new 3 2) = (Ok tt, w')
       /\ World_wf w'
       /\ World_get_width w' = World_get_width (World_new 3 2)
       /\ World_get_height w' = World_get_height (World_new 3 2).
Proof.
  assert (Hwf : Grid_wf (Grid_new 3 2)) by (constructor; simpl; lia).
  assert (HW : World_wf (World_new 3 2))
    by (split; [exact Hwf | split; [exact Hwf | split; reflexivity]]).
  split; [exact HW |].
  split; [vm_compute; split; discriminate |].
  split; [reflexivity |].
  apply (World_advance_never_throws_when_at_least_as_wide_as_high 5 true _ HW);
    [vm_compute; split; discriminate | reflexivity].
Defined.






(** X20. World::resize(new_width, new_height), for new extents whose product
    is below 2^32, returns normally; the state is the old state resized (the
    cells of the overlap kept, the others DEAD), the next grid is a fresh
    grid, and both buffers have the new extents, so get_total_cells is
    [new_width * new_height]. *)
Theorem World_resize_resizes_the_state_and_clears_the_next_grid
    (this : World) (nw nh : Z) :
  Grid_wf (currGrid this) ->
  0 <= nw < 2 ^ 32 -> 0 <= nh < 2 ^ 32 -> nw * nh < 2 ^ 32 ->
  exists w',
    World_resize nw nh this = (Ok tt, w')
    /\ World_wf w'
    /\ World_get_width w' = nw /\ World_get_height w' = nh
    /\ World_get_total_cells w' = nw * nh
    /\ nextGrid w' = Grid_new nw nh
    /\ forall x y, 0 <= x < nw -> 0 <= y < nh ->
         Grid_get (get_state w') x y
         = if (x <? World_get_width this) && (y <? World_get_height this)
           then Grid_get (get_state this) x y else Ok DEAD.
Proof.
  intros Hwf Hnw Hnh Hnt.
  destruct (Grid_resize_window (currGrid this) nw nh Hwf Hnw Hnh Hnt)
    as (g' & Hrun & Hwf' & Hw' & Hh' & Hin & Hout).
  exists (mkWorld g' (Grid_new nw nh)).
  split.
  { unfold World_resize, bind, on_curr, modify. rewrite Hrun. reflexivity. }
  unfold World_wf, World_get_width, World_get_height, World_get_total_cells,
    get_width, get_height, get_state.
  cbn [currGrid nextGrid].
  split; [split; [exact Hwf' | split; [apply Grid_new_wf; assumption |
          split; [rewrite Hw' | rewrite Hh']; reflexivity]] |].
  split; [exact Hw' |]. split; [exact Hh' |].
  split; [rewrite Hw', Hh', (Z.mul_comm nh); apply u32_small; nia |].
  split; [reflexivity |].
  intros x y Hx Hy.
  destruct (x <? width (currGrid this)) eqn:Ex;
    [destruct (y <? height (currGrid this)) eqn:Ey |]; cbn [andb].
  - apply Z.ltb_lt in Ex, Ey. apply Hin; lia.
  - apply Z.ltb_ge in Ey. apply Hout; lia.
  - apply Z.ltb_ge in Ex. apply Hout; lia.
Qed.

Lemma World_resize_resizes_the_state_and_clears_the_next_grid_witness :
  Grid_wf (currGrid (mkWorld (mkGrid 2 1 [ALIVE; ALIVE]) (mkGrid 2 1 [ALIVE; DEAD])))
  /\ 0 <= 1 < 2 ^ 32 /\ 0 <= 2 < 2 ^ 32 /\ 1 * 2 < 2 ^ 32
  /\ exists w',
       World_resize 1 2 (mkWorld (mkGrid 2 1 [ALIVE; ALIVE]) (mkGrid 2 1 [ALIVE; DEAD]))
       = (Ok tt, w')
       /\ World_wf w'
       /\ World_get_width w' = 1 /\ World_get_height w' = 2
       /\ World_get_total_cells w' = 1 * 2
       /\ nextGrid w' = Grid_new 1 2
       /\ forall x y, 0 <= x < 1 -> 0 <= y < 2 ->
            Grid_get (get_state w') x y
            = if (x <? World_get_width
                         (mkWorld (mkGrid 2 1 [ALIVE; ALIVE]) (mkGrid 2 1 [ALIVE; DEAD])))
                 && (y <? World_get_height
                            (mkWorld (mkGrid 2 1 [ALIVE; ALIVE]) (mkGrid 2 1 [ALIVE; DEAD])))
              then Grid_get
                     (get_state
                        (mkWorld (mkGrid 2 1 [ALIVE; ALIVE]) (mkGrid 2 1 [ALIVE; DEAD])))
                     x y
              else Ok DEAD.
Proof.
  assert (Hwf : Grid_wf (currGrid (mkWorld (mkGrid 2 1 [ALIVE; ALIVE])
                                           (mkGrid 2 1 [ALIVE; DEAD]))))
    by (constructor; simpl; lia).
  split; [exact Hwf |]. split; [lia |]. split; [lia |]. split; [lia |].
  apply (World_resize_resizes_the_state_and_clears_the_next_grid _ 1 2 Hwf); lia.
Defined.

(** ** World: the worlds in which a step throws *)

(** The first iteration of a loop that has one. *)
Lemma for_range_unroll {St : Type} (lo hi : Z) (body : Z -> M St unit) (s : St) :
  lo < hi ->
  for_range lo hi body s = (let* _ := body lo in for_range (lo + 1) hi body) s.
Proof.
  intros Hlt. unfold for_range.
  replace (Z.to_nat (hi - lo)) with (S (Z.to_nat (hi - (lo + 1)))) by lia.
  reflexivity.
Qed.

Lemma count_cell_invalid (g : Grid) (cx cy n : Z) :
  are_valid_coordinates g cx cy = false ->
  count_cell g cx cy n
  = (Throw (invalid_argument "Cell operator() : Invalid coordinates."), n).
Proof.
  intros Hv. unfold count_cell, bind, lift, Grid_call_const. rewrite Hv. reflexivity.
Qed.

Lemma to_int_u32_small (z : Z) : 0 <= z < 2 ^ 31 -> to_int (u32 z) = z.
Proof.
  intros Hz. rewrite u32_small by lia. apply to_int_small. lia.
Qed.

Lemma count_cell_counts (g : Grid) (cx cy n : Z) :
  Grid_wf g -> 0 <= cx < width g -> 0 <= cy < height g -> 0 <= n < 2 ^ 31 ->
  exists n', count_cell g cx cy n = (Ok tt, n') /\ n <= n' <= n + 1.
Proof.
  intros Hwf Hx Hy Hn. exists (n + alive_at g cx cy).
  split; [apply count_cell_valid; try assumption; lia |].
  pose proof (alive_at_range g cx cy). lia.
Qed.

(** The rows count_neighbours reads, for every height from 1: the first of
    them is a row of the grid. *)
Lemma bounded_first_row (y h : Z) :
  1 <= h < 2 ^ 31 -> 0 <= y < h ->
  exists lo hi,
    (if to_int (u32 (y - 1)) =? -1
     then (to_int (to_int (u32 (y - 1)) + 1), to_int (u32 (y + 1)))
     else if to_int (u32 (y + 1)) =? to_int h
          then (to_int (u32 (y - 1)), to_int (to_int (u32 (y + 1)) - 1))
          else (to_int (u32 (y - 1)), to_int (u32 (y + 1)))) = (lo, hi)
    /\ 0 <= lo <= y /\ y <= hi <= y + 1.
Proof.
  intros Hh Hy.
  rewrite (to_int_u32_small (y + 1)), (to_int_small h) by lia.
  destruct (Z.eq_dec y 0) as [-> | Hne].
  - change (to_int (u32 (0 - 1))) with (-1). change (-1 =? -1) with true. cbv iota.
    exists 0, 1. split; [reflexivity | lia].
  - rewrite (to_int_u32_small (y - 1)) by lia.
    replace (y - 1 =? -1) with false by (symmetry; apply Z.eqb_neq; lia).
    destruct (y + 1 =? h).
    + exists (y - 1), y. split; [rewrite to_int_small by lia; f_equal; lia | lia].
    + exists (y - 1), (y + 1). split; [reflexivity | lia].
Qed.

Lemma toroidal_first_row (y h : Z) :
  1 <= h < 2 ^ 31 -> 0 <= y < h ->
  exists lo hi,
    (if to_int (u32 (y - 1)) =? -1
     then (to_int (u32 (h - 1)), to_int (u32 (y + 1)))
     else if to_int (u32 (y + 1)) =? to_int h
          then (to_int (u32 (y - 1)), 0)
          else (to_int (u32 (y - 1)), to_int (u32 (y + 1)))) = (lo, hi)
    /\ 0 <= lo < h.
Proof.
  intros Hh Hy.
  rewrite (to_int_u32_small (y + 1)), (to_int_small h) by lia.
  destruct (Z.eq_dec y 0) as [-> | Hne].
  - change (to_int (u32 (0 - 1))) with (-1). change (-1 =? -1) with true. cbv iota.
    rewrite (to_int_u32_small (h - 1)) by lia.
    eexists _, _. split; [reflexivity | lia].
  - rewrite (to_int_u32_small (y - 1)) by lia.
    replace (y - 1 =? -1) with false by (symmetry; apply Z.eqb_neq; lia).
    destruct (y + 1 =? h); eexists _, _; (split; [reflexivity | lia]).
Qed.

Ltac count_valid g Hwf :=
  lazymatch goal with
  | |- context [count_cell g ?cx ?cy ?n] =>
      let n' := fresh "n" in
      let E := fresh "E" in
      let B := fresh "B" in
      destruct (count_cell_counts g cx cy n Hwf) as (n' & E & B);
      [lia | lia | lia | rewrite E; clear E; cbv beta iota delta [ret]]
  end.

Ltac count_invalid :=
  rewrite count_cell_invalid; [reflexivity | unfold are_valid_coordinates; lia].

Lemma count_neighbours_width_1 (this : World) (y : Z) (torodial : bool) :
  Grid_wf (currGrid this) ->
  width (currGrid this) = 1 -> 1 <= height (currGrid this) < 2 ^ 31 ->
  0 <= y < height (currGrid this) ->
  count_neighbours this 0 y torodial
  = Throw (invalid_argument "Cell operator() : Invalid coordinates.").
Proof.
  intros Hwf Hw Hh Hy.
  set (g := currGrid this) in *.
  unfold count_neighbours, World_get_width, World_get_height, get_width, get_height.
  fold g. rewrite Hw.
  change (to_int (u32 (0 - 1))) with (-1).
  change (to_int (u32 (0 + 1))) with 1.
  change (-1 =? -1) with true. cbv iota.
  destruct torodial.
  - destruct (toroidal_first_row y (height g) Hh Hy) as (lo & hi & -> & Hlo).
    change (to_int (to_int 1 - 1)) with 0.
    cbv zeta beta iota. unfold run_local, for_range.
    change (Z.to_nat (3 - 0)) with 3%nat. cbn [for_iter]. unfold bind.
    change (Z.to_nat 0) with 0%nat. change (Z.to_nat (0 + 1)) with 1%nat.
    change (Z.to_nat (0 + 1 + 1)) with 2%nat. cbn [nth].
    rewrite (u32_small lo) by lia. change (u32 0) with 0. change (u32 1) with 1.
    count_valid g Hwf. count_valid g Hwf. count_invalid.
  - destruct (bounded_first_row y (height g) Hh Hy) as (lo & hi & -> & Hlo & Hhi).
    change (to_int (-1 + 1)) with 0.
    cbv zeta beta iota. unfold run_local.
    rewrite (for_range_unroll lo) by lia. unfold bind at 1.
    rewrite (for_range_unroll 0) by lia. unfold bind at 1.
    rewrite (u32_small lo) by lia. change (u32 0) with 0.
    count_valid g Hwf.
    rewrite (for_range_unroll (0 + 1)) by lia. unfold bind at 1.
    change (u32 (0 + 1)) with 1.
    count_invalid.
Qed.

Lemma count_neighbours_height_1 (this : World) (x : Z) (torodial : bool) :
  Grid_wf (currGrid this) ->
  height (currGrid this) = 1 -> 2 <= width (currGrid this) < 2 ^ 31 ->
  0 <= x < width (currGrid this) ->
  count_neighbours this x 0 torodial
  = Throw (invalid_argument "Cell operator() : Invalid coordinates.").
Proof.
  intros Hwf Hh Hw Hx.
  set (g := currGrid this) in *.
  unfold count_neighbours, World_get_width, World_get_height, get_width, get_height.
  fold g. rewrite Hh.
  rewrite (to_int_pred x), (to_int_succ x) by lia.
  rewrite (to_int_small (width g)) by lia.
  change (to_int (u32 (0 - 1))) with (-1).
  change (to_int (u32 (0 + 1))) with 1.
  change (-1 =? -1) with true. cbv iota.
  destruct torodial.
  - rewrite (toroidal_window x (width g) (width g - 1) Hw Hx eq_refl).
    change (to_int (u32 (1 - 1))) with 0.
    pose proof (Z.mod_pos_bound (x - 1) (width g) ltac:(lia)) as Hm.
    pose proof (Z.mod_pos_bound (x + 1) (width g) ltac:(lia)) as Hp.
    cbv zeta beta iota. unfold run_local, for_range.
    change (Z.to_nat (3 - 0)) with 3%nat. cbn [for_iter]. unfold bind.
    change (Z.to_nat 0) with 0%nat. change (Z.to_nat (0 + 1)) with 1%nat.
    change (Z.to_nat (0 + 1 + 1)) with 2%nat. cbn [nth].
    rewrite (u32_small ((x - 1) mod width g)), (u32_small ((x + 1) mod width g)) by lia.
    change (u32 0) with 0. change (u32 1) with 1.
    do 6 (count_valid g Hwf). count_invalid.
  - change (to_int (-1 + 1)) with 0.
    destruct (bounded_window x (width g) (fun _ => 0) Hw Hx ltac:(reflexivity))
      as (lo & hi & -> & Hlo & Hhi & Hlen & _).
    cbv zeta beta iota. unfold run_local.
    rewrite (for_range_unroll 0) by lia. unfold bind at 1.
    assert (Hrow : for_range lo (hi + 1) (fun i => count_cell g (u32 i) (u32 0)) 0
                   = (Ok tt, 0 + sum_from (Z.to_nat (hi + 1 - lo)) lo
                                   (fun i => alive_at g i 0))).
    { unfold for_range. apply (count_loop _ _ _ _ (fun i => alive_at g i 0) 1).
      - lia.
      - lia.
      - intros i Hi. apply alive_at_range.
      - intros i c Hi Hc Hc'. rewrite !u32_small by lia.
        apply count_cell_valid; try assumption; lia. }
    rewrite Hrow.
    rewrite (for_range_unroll (0 + 1)) by lia. unfold bind at 1.
    rewrite (for_range_unroll lo) by lia. unfold bind at 1.
    rewrite (u32_small lo) by lia. change (u32 (0 + 1)) with 1.
    count_invalid.
Qed.



Lemma count_neighbours_past_the_width (this : World) (torodial : bool) :
  Grid_wf (currGrid this) ->
  2 <= width (currGrid this) < height (currGrid this) ->
  height (currGrid this) < 2 ^ 31 ->
  count_neighbours this (width (currGrid this)) 0 torodial
  = Throw (invalid_argument "Cell operator() : Invalid coordinates.").
Proof.
  intros Hwf Hw Hh.
  set (g := currGrid this) in *. set (w := width g) in *. set (h := height g) in *.
  unfold count_neighbours, World_get_width, World_get_height, get_width, get_height.
  fold g. fold w. fold h.
  rewrite (to_int_u32_small (w - 1)), (to_int_u32_small (w + 1)) by lia.
  change (to_int (u32 (0 - 1))) with (-1).
  change (to_int (u32 (0 + 1))) with 1.
  rewrite (to_int_small w) by lia.
  replace (w - 1 =? -1) with false by (symmetry; apply Z.eqb_neq; lia).
  replace (w + 1 =? w) with false by (symmetry; apply Z.eqb_neq; lia).
  change (-1 =? -1) with true. cbv iota.
  destruct torodial.
  - (* toroidal *)
    rewrite (to_int_u32_small (h - 1)) by lia.
    cbv zeta. unfold run_local.
    rewrite (for_range_unroll 0 3) by lia. unfold bind at 1.
    rewrite (for_range_unroll 0 3) by lia. unfold bind at 1.
    change (Z.to_nat 0) with 0%nat. cbn [nth].
    rewrite (u32_small (w - 1)), (u32_small (h - 1)) by lia.
    rewrite (count_cell_valid g (w - 1) (h - 1) 0 Hwf) by (fold w h; lia).
    rewrite (for_range_unroll 1 3) by lia. unfold bind at 1.
    change (Z.to_nat 1) with 1%nat. cbn [nth].
    rewrite count_cell_invalid; [reflexivity |].
    unfold are_valid_coordinates. fold w h. lia.
  - (* bounded *)
    change (to_int (-1 + 1)) with 0.
    cbv zeta. unfold run_local.
    rewrite (for_range_unroll 0 (1 + 1)) by lia. unfold bind at 1.
    rewrite (for_range_unroll (w - 1)) by lia. unfold bind at 1.
    rewrite (u32_small (w - 1)), (u32_small 0) by lia.
    rewrite (count_cell_valid g (w - 1) 0 0 Hwf) by (fold w h; lia).
    rewrite (for_range_unroll (w - 1 + 1)) by lia. unfold bind at 1.
    rewrite (u32_small (w - 1 + 1)) by lia.
    rewrite count_cell_invalid; [reflexivity |].
    unfold are_valid_coordinates. fold w h. lia.
Qed.

(** The body of the loops of World::step writes to the next grid only. *)
Lemma step_cell_keeps_the_state (torodial : bool) (y x : Z) (s : World) :
  currGrid (snd (step_cell torodial y x s)) = currGrid s.
Proof.
  unfold step_cell, bind.
  destruct (count_neighbours s x y torodial) as [n | e]; [| reflexivity].
  unfold on_curr, Grid_call.
  destruct (negb (are_valid_coordinates (currGrid s) x y)); [reflexivity |].
  destruct (vec_read _ _) as [c | e]; [| reflexivity].
  assert (Hnext : forall v, currGrid (snd (on_next (Grid_assign x y v)
                     (mkWorld (currGrid s) (nextGrid s)))) = currGrid s).
  { intros v. unfold on_next. cbn [currGrid nextGrid].
    destruct (Grid_assign x y v (nextGrid s)) as [r g']. reflexivity. }
  destruct (cell_eqb c ALIVE).
  - destruct (_ || _); [apply Hnext |].
    destruct (_ || _); [apply Hnext | reflexivity].
  - destruct (_ =? _); apply Hnext.
Qed.

Lemma World_step_throws_tall (this : World) (torodial : bool) :
  World_wf this ->
  2 <= World_get_width this < World_get_height this ->
  World_get_height this < 2 ^ 31 ->
  exists w',
    World_step torodial this
    = (Throw (invalid_argument "Cell operator() : Invalid coordinates."), w')
    /\ get_state w' = get_state this.
Proof.
  unfold World_wf, World_get_width, World_get_height, get_width, get_height, get_state.
  intros (Hwfc & Hwfn & Hwn & Hhn) Hw Hh.
  set (g := currGrid this) in *.
  set (loops := for_range 0 (height g) (fun y =>
                  for_range 0 (height g) (fun x => step_cell torodial y x))).
  assert (Hkeep : currGrid (snd (loops this)) = g).
  { unfold loops, for_range.
    apply (for_iter_keeps (fun s => currGrid s = g)); [| reflexivity].
    intros y t Ht.
    apply (for_iter_keeps (fun s => currGrid s = g)); [| exact Ht].
    intros x t' Ht'. rewrite step_cell_keeps_the_state. exact Ht'. }
  set (I := fun s : World => currGrid s = g /\ Grid_wf (nextGrid s)
                             /\ width (nextGrid s) = width g
                             /\ height (nextGrid s) = height g).
  destruct (for_range_throws
              (fun y => for_range 0 (height g) (fun x => step_cell torodial y x))
              (fun _ s => I s) 0 (height g) 0
              (invalid_argument "Cell operator() : Invalid coordinates.") this)
    as (s' & Hrun).
  - lia.
  - unfold I. auto.
  - intros i t Hi. lia.
  - intros t Ht.
    apply (for_range_throws (fun x => step_cell torodial 0 x) (fun _ s => I s)
             0 (height g) (width g)); [lia | exact Ht | |].
    + intros x s Hx (Hc & Hwfs & Hws & Hhs).
      destruct (step_cell_assigns torodial g x 0 s Hwfc ltac:(lia) ltac:(lia)
                  ltac:(lia) ltac:(lia) Hc Hwfs Hws Hhs) as (s1 & Hs1 & Hc1 & Hn1).
      exists s1. split; [exact Hs1 |]. unfold I. split; [exact Hc1 |].
      rewrite Hn1. cbn [width height].
      split; [apply (Grid_assign_valid (nextGrid s) x 0 _ Hwfs); lia |].
      split; assumption.
    + intros s (Hc & _). exists s. unfold step_cell, bind.
      rewrite <- Hc at 1.
      rewrite (count_neighbours_past_the_width s torodial); rewrite ?Hc;
        try assumption; try lia.
      reflexivity.
  - exists s'. fold loops in Hrun. rewrite Hrun in Hkeep. cbn [snd] in Hkeep.
    split; [| exact Hkeep].
    unfold World_step, bind, World_get_height, get_height. fold g.
    unfold loops in Hrun. rewrite Hrun. reflexivity.
Qed.

Lemma World_step_throws_thin (this : World) (torodial : bool) :
  Grid_wf (currGrid this) ->
  1 <= width (currGrid this) < 2 ^ 31 -> 1 <= height (currGrid this) < 2 ^ 31 ->
  width (currGrid this) = 1 \/ height (currGrid this) = 1 ->
  exists w',
    World_step torodial this
    = (Throw (invalid_argument "Cell operator() : Invalid coordinates."), w')
    /\ currGrid w' = currGrid this.
Proof.
  intros Hwf Hw Hh Hthin.
  set (g := currGrid this) in *.
  set (loops := for_range 0 (height g) (fun y =>
                  for_range 0 (height g) (fun x => step_cell torodial y x))).
  assert (Hkeep : currGrid (snd (loops this)) = g).
  { unfold loops, for_range.
    apply (for_iter_keeps (fun s => currGrid s = g)); [| reflexivity].
    intros y t Ht.
    apply (for_iter_keeps (fun s => currGrid s = g)); [| exact Ht].
    intros x t' Ht'. rewrite step_cell_keeps_the_state. exact Ht'. }
  destruct (for_range_throws
              (fun y => for_range 0 (height g) (fun x => step_cell torodial y x))
              (fun _ s => currGrid s = g) 0 (height g) 0
              (invalid_argument "Cell operator() : Invalid coordinates.") this)
    as (s' & Hrun).
  - lia.
  - reflexivity.
  - intros i t Hi. lia.
  - intros t Ht.
    apply (for_range_throws (fun x => step_cell torodial 0 x)
             (fun _ s => currGrid s = g) 0 (height g) 0); [lia | exact Ht | |].
    + intros i s Hi. lia.
    + intros s Hc. exists s. unfold step_cell, bind.
      assert (E : count_neighbours s 0 0 torodial
                  = Throw (invalid_argument "Cell operator() : Invalid coordinates.")).
      { destruct (Z.eq_dec (width g) 1) as [Ew | Nw].
        - apply count_neighbours_width_1; rewrite ?Hc; try assumption; lia.
        - apply count_neighbours_height_1; rewrite ?Hc; try assumption; lia. }
      rewrite E. reflexivity.
  - exists s'. fold loops in Hrun. rewrite Hrun in Hkeep. cbn [snd] in Hkeep.
    split; [| exact Hkeep].
    unfold World_step, bind, World_get_height, get_height. fold g.
    unfold loops in Hrun. rewrite Hrun. reflexivity.
Qed.

(** X22. World::step throws std::invalid_argument in every world that is
    one cell wide, one cell high, or higher than wide: in the first two the
    first count_neighbours throws, in the last the loop over [x], bounded by
    the height, reaches [x = width]. The exception leaves the current state
    as it was; the buffers are not exchanged. *)
Theorem World_step_throws_when_thin_or_higher_than_wide
    (this : World) (torodial : bool) :
  World_wf this ->
  1 <= World_get_width this < 2 ^ 31 -> 1 <= World_get_height this < 2 ^ 31 ->
  World_get_width this = 1 \/ World_get_height this = 1
  \/ World_get_width this < World_get_height this ->
  exists w',
    World_step torodial this
    = (Throw (invalid_argument "Cell operator() : Invalid coordinates."), w')
    /\ get_state w' = get_state this.
Proof.
  intros HW Hw Hh Hcase.
  destruct (Z.eq_dec (World_get_width this) 1) as [E1 | N1];
    [| destruct (Z.eq_dec (World_get_height this) 1) as [E2 | N2]].
  - apply World_step_throws_thin; try assumption; [apply HW | left; exact E1].
  - apply World_step_throws_thin; try assumption; [apply HW | right; exact E2].
  - apply World_step_throws_tall; try assumption; lia.
Qed.

Lemma World_step_throws_when_thin_or_higher_than_wide_witness :
  World_wf (World_new 2 3)
  /\ 1 <= World_get_width (World_new 2 3) < 2 ^ 31
  /\ 1 <= World_get_height (World_new 2 3) < 2 ^ 31
  /\ (World_get_width (World_new 2 3) = 1 \/ World_get_height (World_new 2 3) = 1
      \/ World_get_width (World_new 2 3) < World_get_height (World_new 2 3))
  /\ exists w',
       World_step true (World_new 2 3)
       = (Throw (invalid_argument "Cell operator() : Invalid coordinates."), w')
       /\ get_state w' = get_state (World_new 2 3).
Proof.
  assert (Hwf : Grid_wf (Grid_new 2 3)) by (constructor; simpl; lia).
  assert (HW : World_wf (World_new 2 3))
    by (split; [exact Hwf | split; [exact Hwf | split; reflexivity]]).
  split; [exact HW |].
  split; [vm_compute; split; [discriminate | reflexivity] |].
  split; [vm_compute; split; [discriminate | reflexivity] |].
  split; [right; right; reflexivity |].
  apply (World_step_throws_when_thin_or_higher_than_wide (World_new 2 3) true HW);
    try (vm_compute; split; (discriminate || reflexivity)).
  right; right; reflexivity.
Defined.

(** ** Zoo: the binary format, further *)

Lemma write4_length (v : Z) : length (write4 v) = 4%nat.
Proof. reflexivity. Qed.

Lemma chunks_from_length (v : list Cell) (n : nat) :
  forall i, length (chunks_from v n i) = (4 * n)%nat.
Proof.
  induction n as [|n IH]; intros i; simpl; [reflexivity |].
  rewrite IH. lia.
Qed.

Lemma chunks_from_drop (v : list Cell) (k : nat) :
  forall n i, (k <= n)%nat ->
    drop (4 * k) (chunks_from v n i) = chunks_from v (n - k) (i + Z.of_nat k).
Proof.
  induction k as [|k IH]; intros n i Hk.
  - simpl. rewrite Nat.sub_0_r. replace (i + Z.of_nat 0) with i by lia. reflexivity.
  - destruct n as [|n]; [lia |].
    replace (4 * S k)%nat with (4 + 4 * k)%nat by lia.
    change (chunks_from v (S n) i) with (write4 (chunk_value v i) ++ chunks_from v n (i + 1)).
    rewrite <- drop_drop.
    change (drop 4 (write4 (chunk_value v i) ++ chunks_from v n (i + 1)))
      with (chunks_from v n (i + 1)).
    rewrite IH by lia.
    replace (i + 1 + Z.of_nat k) with (i + Z.of_nat (S k)) by lia. reflexivity.
Qed.

Lemma chunk_of_encoded (g : Grid) (i : Z) :
  0 <= i < (width g * height g + 31) / 32 ->
  chunk_of (encoded g) i = chunk_value (gridVector g) i.
Proof.
  intros Hi. unfold chunk_of, encoded.
  replace (Z.to_nat (8 + 4 * i)) with (4 + (4 + 4 * Z.to_nat i))%nat by lia.
  rewrite <- !drop_drop.
  change (drop 4 (write4 (width g) ++ ?l)) with l.
  change (drop 4 (write4 (height g) ++ ?l)) with l.
  rewrite chunks_from_drop by lia.
  replace (Z.to_nat ((width g * height g + 31) / 32) - Z.to_nat i)%nat
    with (S (Z.to_nat ((width g * height g + 31) / 32) - Z.to_nat i - 1)) by lia.
  change (chunks_from ?v (S ?n) ?k) with (write4 (chunk_value v k) ++ chunks_from v n (k + 1)).
  change (take 4 (write4 ?c ++ ?l)) with (write4 c).
  rewrite le_value_write4 by apply chunk_value_range.
  f_equal. lia.
Qed.

Lemma chunk_value_testbit (v : list Cell) (i j : Z) :
  0 <= j < 32 ->
  Z.testbit (chunk_value v i) j = alive_in v (32 * i + j).
Proof.
  intros Hj.
  pose proof (chunk_bit v i j Hj) as Hb.
  pose proof (chunk_value_range v i) as Hr.
  assert (Ht : Z.testbit (u32 (chunk_value v i * 2 ^ (31 - j))) 31
               = Z.testbit (chunk_value v i) j).
  { unfold u32. rewrite Z.mod_pow2_bits_low by lia.
    rewrite Z.mul_pow2_bits by lia. f_equal. lia. }
  rewrite <- Ht. rewrite Z.testbit_odd, Z.shiftr_div_pow2 by lia.
  rewrite Hb. unfold cell_bit, alive_in.
  destruct (v !! Z.to_nat (32 * i + j)) as [[|] |]; reflexivity.
Qed.

(** X23. Zoo::save_binary writes, for a grid with the class invariant,
    [8 + 4 * ceil(width * height / 32)] bytes: the width and the height as
    little-endian 4-byte integers, then chunks of 32 bits in which bit [j] of
    chunk [i] is set exactly when the cell number [32 * i + j] of the vector
    is ALIVE; the bits past the last cell are clear. *)
Theorem save_binary_writes_the_header_and_one_bit_per_cell (g : Grid) :
  Grid_wf g ->
  exists bytes,
    save_binary true g = Ok bytes
    /\ Z.of_nat (length bytes) = 8 + 4 * ((width g * height g + 31) / 32)
    /\ header_first bytes = get_width g
    /\ header_second bytes = get_height g
    /\ forall i j, 0 <= i < (width g * height g + 31) / 32 -> 0 <= j < 32 ->
         Z.testbit (chunk_of bytes i) j = alive_in (gridVector g) (32 * i + j).
Proof.
  intros Hwf. pose proof Hwf as [Hw Hh Ht Hc].
  exists (encoded g). split; [apply save_binary_encoded; exact Hwf |].
  split; [| split; [| split]].
  - unfold encoded. rewrite !length_app, !write4_length, chunks_from_length.
    assert (0 <= (width g * height g + 31) / 32) by (apply Z.div_pos; nia). lia.
  - unfold header_first, encoded.
    change (take 4 (write4 ?c ++ ?l)) with (write4 c).
    apply le_value_write4. exact Hw.
  - unfold header_second, encoded.
    change (drop 4 (write4 ?c ++ ?l)) with l.
    change (take 4 (write4 ?c ++ ?l)) with (write4 c).
    apply le_value_write4. exact Hh.
  - intros i j Hi Hj. rewrite chunk_of_encoded by assumption.
    apply chunk_value_testbit. exact Hj.
Qed.

Lemma save_binary_writes_the_header_and_one_bit_per_cell_witness :
  Grid_wf (mkGrid 2 1 [ALIVE; DEAD]) /\
  exists bytes,
    save_binary true (mkGrid 2 1 [ALIVE; DEAD]) = Ok bytes
    /\ Z.of_nat (length bytes)
       = 8 + 4 * ((width (mkGrid 2 1 [ALIVE; DEAD])
                   * height (mkGrid 2 1 [ALIVE; DEAD]) + 31) / 32)
    /\ header_first bytes = get_width (mkGrid 2 1 [ALIVE; DEAD])
    /\ header_second bytes = get_height (mkGrid 2 1 [ALIVE; DEAD])
    /\ forall i j,
         0 <= i < (width (mkGrid 2 1 [ALIVE; DEAD])
                   * height (mkGrid 2 1 [ALIVE; DEAD]) + 31) / 32 ->
         0 <= j < 32 ->
         Z.testbit (chunk_of bytes i) j
         = alive_in (gridVector (mkGrid 2 1 [ALIVE; DEAD])) (32 * i + j).
Proof.
  assert (Hwf : Grid_wf (mkGrid 2 1 [ALIVE; DEAD])) by (constructor; simpl; lia).
  split; [exact Hwf |].
  exact (save_binary_writes_the_header_and_one_bit_per_cell _ Hwf).
Defined.

(** X24. Zoo::load_binary on what Zoo::save_binary wrote returns, whatever
    the uninitialised locals held, a grid with the same vector of cells and
    the width and the height exchanged; it is the grid that was saved
    exactly when that grid is square. *)
Theorem load_binary_of_save_binary_exchanges_the_extents (g : Grid) (u : indeterminate) :
  Grid_wf g ->
  exists bytes g',
    save_binary true g = Ok bytes
    /\ load_binary (Some bytes) u = Ok g'
    /\ get_width g' = get_height g /\ get_height g' = get_width g
    /\ gridVector g' = gridVector g
    /\ (g' = g <-> get_width g = get_height g).
Proof.
  intros Hwf.
  exists (encoded g), (mkGrid (height g) (width g) (gridVector g)).
  split; [apply save_binary_encoded; exact Hwf |].
  split; [apply load_binary_encoded; exact Hwf |].
  split; [reflexivity |]. split; [reflexivity |]. split; [reflexivity |].
  unfold get_width, get_height. destruct g as [w h v]. cbn [width height gridVector].
  split; [intros E; inversion E; congruence | intros ->; reflexivity].
Qed.

Lemma load_binary_of_save_binary_exchanges_the_extents_witness :
  Grid_wf (mkGrid 2 1 [ALIVE; DEAD]) /\
  exists bytes g',
    save_binary true (mkGrid 2 1 [ALIVE; DEAD]) = Ok bytes
    /\ load_binary (Some bytes) (mkIndet 7 7 7) = Ok g'
    /\ get_width g' = get_height (mkGrid 2 1 [ALIVE; DEAD])
    /\ get_height g' = get_width (mkGrid 2 1 [ALIVE; DEAD])
    /\ gridVector g' = gridVector (mkGrid 2 1 [ALIVE; DEAD])
    /\ (g' = mkGrid 2 1 [ALIVE; DEAD]
        <-> get_width (mkGrid 2 1 [ALIVE; DEAD]) = get_height (mkGrid 2 1 [ALIVE; DEAD])).
Proof.
  assert (Hwf : Grid_wf (mkGrid 2 1 [ALIVE; DEAD])) by (constructor; simpl; lia).
  split; [exact Hwf |].
  exact (load_binary_of_save_binary_exchanges_the_extents _ (mkIndet 7 7 7) Hwf).
Defined.

(** The shifts of the decoder select bit [j] of the chunk. *)
Lemma decoder_bit (bh j : Z) :
  0 <= j < 32 ->
  (u32 (bh * 2 ^ u32 (u32 (u32 (8 * 4) - 1) - j)) / 2 ^ u32 (u32 (8 * 4) - 1) =? 1)
  = Z.testbit bh j.
Proof.
  intros Hj. change (u32 (u32 (8 * 4) - 1)) with 31.
  rewrite (u32_small (31 - j)) by lia.
  assert (Ht : Z.testbit (u32 (bh * 2 ^ (31 - j))) 31 = Z.testbit bh j).
  { unfold u32. rewrite Z.mod_pow2_bits_low by lia.
    rewrite Z.mul_pow2_bits by lia. f_equal. lia. }
  rewrite <- Ht. rewrite Z.testbit_odd, Z.shiftr_div_pow2 by lia.
  pose proof (u32_range (bh * 2 ^ (31 - j))) as Hr.
  assert (Hq : 0 <= u32 (bh * 2 ^ (31 - j)) / 2 ^ 31 < 2).
  { split; [apply Z.div_pos; lia | apply Z.div_lt_upper_bound; lia]. }
  assert (Hc : u32 (bh * 2 ^ (31 - j)) / 2 ^ 31 = 0
               \/ u32 (bh * 2 ^ (31 - j)) / 2 ^ 31 = 1) by lia.
  destruct Hc as [-> | ->]; reflexivity.
Qed.

Lemma load_bit_keeps_the_chunk (w i j : Z) (s : load_state) :
  bytesHolder (snd (load_bit w i j s)) = bytesHolder s.
Proof.
  unfold load_bit, bind, gets. cbv zeta.
  destruct (_ =? 1); [| reflexivity].
  destruct (u32 w =? 0); [reflexivity |].
  unfold on_grid. destruct (Grid_assign _ _ _ _) as [r g']. reflexivity.
Qed.

Lemma load_bit_clear (w i j : Z) (s : load_state) :
  0 <= j < 32 -> Z.testbit (bytesHolder s) j = false ->
  load_bit w i j s = (Ok tt, s).
Proof.
  intros Hj Hb. unfold load_bit, bind, gets. cbv zeta.
  rewrite decoder_bit by exact Hj. rewrite Hb. reflexivity.
Qed.

Lemma load_bit_padding (pw ph i j : Z) (s : load_state) :
  0 < pw < 2 ^ 32 -> 0 <= ph < 2 ^ 32 -> pw * ph < 2 ^ 32 ->
  0 <= i -> 0 <= j < 32 -> pw * ph <= 32 * i + j < 2 ^ 32 ->
  decoded_shape pw ph (grid s) ->
  Z.testbit (bytesHolder s) j = true ->
  load_bit (to_int pw) i j s
  = (Throw (runtime_error "Cell& operator() : Invalid coordinates."), s).
Proof.
  intros Hpw Hph Ht Hi Hj Hn (Ew & Eh & El) Hb.
  unfold load_bit, bind, gets. cbv zeta.
  rewrite decoder_bit by exact Hj. rewrite Hb.
  rewrite u32_to_int, (u32_small pw) by lia.
  destruct (Z.eqb_spec pw 0) as [E0 | _]; [lia |].
  assert (En : u32 (u32 (u32 (i * 4) * 8) + j) = 32 * i + j).
  { rewrite (u32_small (i * 4)) by lia.
    rewrite (u32_small (i * 4 * 8)) by lia.
    rewrite u32_small by lia. lia. }
  rewrite En. set (n := 32 * i + j) in *.
  assert (Hx : 0 <= n mod pw < pw) by (apply Z.mod_pos_bound; lia).
  assert (Hy : ph <= n / pw < 2 ^ 32).
  { split; [apply Z.div_le_lower_bound; lia |].
    apply Z.div_lt_upper_bound; nia. }
  rewrite !u32_to_int, (u32_small (n mod pw)), (u32_small (n / pw)) by lia.
  unfold on_grid, Grid_assign.
  replace (are_valid_coordinates (grid s) (n mod pw) (n / pw)) with false.
  - cbn [negb]. destruct s; reflexivity.
  - symmetry. unfold are_valid_coordinates. rewrite Ew, Eh. lia.
Qed.

Lemma load_bits_padding (pw ph i : Z) (n : nat) :
  0 < pw < 2 ^ 32 -> 0 <= ph < 2 ^ 32 -> pw * ph < 2 ^ 32 ->
  0 <= i -> 32 * i + 32 <= 2 ^ 32 ->
  forall j s,
    0 <= j -> j + Z.of_nat n = 32 -> pw * ph <= 32 * i + j ->
    decoded_shape pw ph (grid s) ->
    (exists j0, j <= j0 < 32 /\ Z.testbit (bytesHolder s) j0 = true) ->
    exists s',
      for_iter n j (fun j => load_bit (to_int pw) i j) s
      = (Throw (runtime_error "Cell& operator() : Invalid coordinates."), s').
Proof.
  intros Hpw Hph Ht Hi Hi32.
  induction n as [| n IH]; intros j s Hj Hn Hpad Hshape (j0 & Hj0 & Hset).
  - lia.
  - cbn [for_iter]. unfold bind.
    destruct (Z.testbit (bytesHolder s) j) eqn:Hb.
    + rewrite (load_bit_padding pw ph i j s) by (try assumption; lia).
      exists s. reflexivity.
    + rewrite load_bit_clear by (try assumption; lia).
      apply IH; try assumption; try lia.
      exists j0. split; [| exact Hset].
      destruct (Z.eq_dec j0 j) as [-> | Hne]; [congruence | lia].
Qed.

(** X25. A binary file with all the chunks its header announces, in whose
    last chunk a bit past the last cell is set, is not read: Zoo::load_binary
    throws the std::runtime_error of the non-const [operator()],
    [Cell& operator() : Invalid coordinates.], for the row past the grid. *)
Theorem load_binary_throws_on_a_set_padding_bit
    (bytes : list byte) (u : indeterminate) (j0 : Z) :
  8 + 4 * header_chunks bytes <= Z.of_nat (length bytes) ->
  header_second bytes * header_first bytes < 2 ^ 32 ->
  0 <= j0 < 32 ->
  header_second bytes * header_first bytes <= 32 * (header_chunks bytes - 1) + j0 ->
  Z.testbit (chunk_of bytes (header_chunks bytes - 1)) j0 = true ->
  load_binary (Some bytes) u
  = Throw (runtime_error "Cell& operator() : Invalid coordinates.").
Proof.
  intros Hlen Ht Hj0 Hpad Hset.
  destruct (header_range bytes) as [Hph Hpw].
  set (pw := header_second bytes) in *. set (ph := header_first bytes) in *.
  assert (Hn : header_chunks bytes = (pw * ph + 31) / 32).
  { unfold header_chunks. fold pw ph. rewrite u32_small by nia. reflexivity. }
  set (n := header_chunks bytes) in *.
  assert (Htot : 1 <= pw * ph).
  { destruct (Z_le_gt_dec (pw * ph) 0) as [Hle | Hgt]; [| lia].
    assert (pw * ph = 0) by nia.
    assert (n = 0) by (rewrite Hn; replace (pw * ph) with 0 by lia; reflexivity).
    lia. }
  assert (Hpw1 : 0 < pw) by nia.
  assert (Hn1 : 32 * (n - 1) < pw * ph <= 32 * n).
  { rewrite Hn. pose proof (Z.div_mod (pw * ph + 31) 32 ltac:(lia)).
    pose proof (Z.mod_pos_bound (pw * ph + 31) 32 ltac:(lia)). lia. }
  rewrite load_binary_after_header by lia. fold pw ph n.
  destruct (for_range_throws (fun i => load_chunk (to_int pw) i)
              (fun i s => ifs s = mkIfs (drop (Z.to_nat (8 + 4 * i)) bytes) false false
                          /\ decoded_shape pw ph (grid s))
              0 n (n - 1)
              (runtime_error "Cell& operator() : Invalid coordinates.")
              (mkLoad (mkIfs (drop 8 bytes) false false) (u32 (indet_bytesHolder u))
                 (Grid_new pw ph)))
    as (s' & Hrun).
  - lia.
  - split; [reflexivity | apply Grid_new_shape].
  - intros i s Hi (Hifs & Hshape).
    destruct (load_chunk_ok pw ph i s Hpw Hph ltac:(lia)
                ltac:(rewrite u32_small by nia; lia) Hshape)
      as (t & Hrun & Hshape' & Hfull & _).
    { rewrite Hifs. reflexivity. }
    { rewrite Hifs. reflexivity. }
    exists t. split; [exact Hrun |]. split; [| exact Hshape'].
    rewrite Hfull by (rewrite Hifs; cbn [unread]; rewrite length_drop; lia).
    rewrite Hifs. cbn [unread]. rewrite drop_drop. do 2 f_equal. lia.
  - intros s (Hifs & Hshape).
    unfold load_chunk, bind, gets. rewrite Hifs. cbn [eofbit].
    change (u32 (4 * 8)) with 32. unfold on_ifs, modify. rewrite Hifs.
    rewrite ifs_read4_full
      by (cbn [eofbit failbit unread]; rewrite ?length_drop; reflexivity || lia).
    cbn [unread ifs bytesHolder grid]. fold (chunk_of bytes (n - 1)).
    set (s1 := mkLoad _ (chunk_of bytes (n - 1)) (grid s)).
    set (k := pw * ph - 32 * (n - 1)).
    unfold for_range.
    replace (Z.to_nat (32 - 0)) with (Z.to_nat k + Z.to_nat (32 - k))%nat by lia.
    rewrite for_iter_add. unfold bind.
    destruct (for_iter_inv (fun j => load_bit (to_int pw) (n - 1) j)
                (fun _ t => bytesHolder t = chunk_of bytes (n - 1)
                            /\ decoded_shape pw ph (grid t))
                (Z.to_nat k) 0 s1) as (s2 & Hfirst & Hbh & Hshape2).
    + split; [reflexivity | exact Hshape].
    + intros j t Hj (Hbh & Hsh).
      destruct (load_bit_ok pw ph (n - 1) j t Hpw Hph ltac:(lia) ltac:(lia)
                  ltac:(rewrite u32_small by nia; lia) Hsh) as (t' & Hrun & _ & Hsh').
      exists t'. split; [exact Hrun |]. split; [| exact Hsh'].
      pose proof (load_bit_keeps_the_chunk (to_int pw) (n - 1) j t) as Hk.
      rewrite Hrun in Hk. cbn [snd] in Hk. congruence.
    + rewrite Hfirst.
      replace (0 + Z.of_nat (Z.to_nat k)) with k by lia.
      apply (load_bits_padding pw ph (n - 1)); try assumption; try lia.
      exists j0. split; [lia |]. rewrite Hbh. exact Hset.
  - unfold run_local. rewrite Hrun. reflexivity.
Qed.

Lemma load_binary_throws_on_a_set_padding_bit_witness :
  8 + 4 * header_chunks [x01; x00; x00; x00; x01; x00; x00; x00; x02; x00; x00; x00]
  <= Z.of_nat (length [x01; x00; x00; x00; x01; x00; x00; x00; x02; x00; x00; x00])
  /\ header_second [x01; x00; x00; x00; x01; x00; x00; x00; x02; x00; x00; x00]
     * header_first [x01; x00; x00; x00; x01; x00; x00; x00; x02; x00; x00; x00] < 2 ^ 32
  /\ 0 <= 1 < 32
  /\ header_second [x01; x00; x00; x00; x01; x00; x00; x00; x02; x00; x00; x00]
     * header_first [x01; x00; x00; x00; x01; x00; x00; x00; x02; x00; x00; x00]
     <= 32 * (header_chunks [x01; x00; x00; x00; x01; x00; x00; x00; x02; x00; x00; x00] - 1)
        + 1
  /\ Z.testbit
       (chunk_of [x01; x00; x00; x00; x01; x00; x00; x00; x02; x00; x00; x00]
          (header_chunks [x01; x00; x00; x00; x01; x00; x00; x00; x02; x00; x00; x00] - 1))
       1 = true
  /\ load_binary (Some [x01; x00; x00; x00; x01; x00; x00; x00; x02; x00; x00; x00])
       (mkIndet 0 0 0)
     = Throw (runtime_error "Cell& operator() : Invalid coordinates.").
Proof.
  split; [vm_compute; discriminate |]. split; [reflexivity |]. split; [lia |].
  split; [vm_compute; discriminate |]. split; [reflexivity |].
  apply (load_binary_throws_on_a_set_padding_bit
           [x01; x00; x00; x00; x01; x00; x00; x00; x02; x00; x00; x00]
           (mkIndet 0 0 0) 1);
    [vm_compute; discriminate | reflexivity | lia | vm_compute; discriminate
    | reflexivity].
Defined.

(** ** Zoo: the text format *)

Lemma byte_eqb_by_val (a b : byte) : byte_val a <> byte_val b -> Byte.eqb a b = false.
Proof.
  intros Hne. destruct (Byte.eqb a b) eqn:E; [| reflexivity].
  apply Byte.byte_dec_bl in E. subst. contradiction.
Qed.

Lemma byte_eqb_refl (a : byte) : Byte.eqb a a = true.
Proof. apply Byte.byte_dec_lb. reflexivity. Qed.

Lemma digit_char_val (d : Z) : 0 <= d < 10 -> byte_val (digit_char d) = 48 + d.
Proof.
  intros Hd. unfold digit_char. rewrite byte_val_of. apply Z.mod_small. lia.
Qed.

Lemma digit_is_no_space (b : byte) : is_digit_byte b -> isspace b = false.
Proof. unfold is_digit_byte, isspace. intros H. cbv zeta. lia. Qed.

Lemma digit_isdigit (b : byte) : is_digit_byte b -> isdigit b = true.
Proof. unfold is_digit_byte, isdigit. intros H. cbv zeta. lia. Qed.

Lemma digit_is_not (b c : byte) :
  is_digit_byte b -> byte_val c < 48 \/ 57 < byte_val c -> Byte.eqb b c = false.
Proof. unfold is_digit_byte. intros Hb Hc. apply byte_eqb_by_val. lia. Qed.

(** The digits written for [n] read back as [n], after whatever value the
    digits before them have. *)
Lemma decimal_digits_read_back (fuel : nat) :
  forall n acc, 0 <= n < 10 ^ Z.of_nat (S fuel) ->
    exists ds,
      decimal_digits (S fuel) n acc = ds ++ acc
      /\ ds <> [] /\ Forall is_digit_byte ds
      /\ forall a rest,
           leading_digits (ds ++ rest) a
           = leading_digits rest (a * 10 ^ Z.of_nat (length ds) + n).
Proof.
  induction fuel as [|fuel IH]; intros n acc Hn.
  - exists [digit_char (n mod 10)].
    change (10 ^ Z.of_nat 1) with 10 in Hn.
    assert (E0 : n / 10 = 0) by (apply Z.div_small; lia).
    assert (Em : n mod 10 = n) by (apply Z.mod_small; lia).
    split; [| split; [discriminate | split]].
    + cbn [decimal_digits]. rewrite E0. reflexivity.
    + constructor; [| constructor]. unfold is_digit_byte.
      rewrite digit_char_val by lia. lia.
    + intros a rest. cbn [app leading_digits length].
      rewrite digit_isdigit by (unfold is_digit_byte; rewrite digit_char_val; lia).
      rewrite digit_char_val by lia. f_equal. change (10 ^ Z.of_nat 1) with 10. lia.
  - pose proof (Z.mod_pos_bound n 10 ltac:(lia)) as Hm.
    assert (Hd : is_digit_byte (digit_char (n mod 10)))
      by (unfold is_digit_byte; rewrite digit_char_val; lia).
    change (decimal_digits (S (S fuel)) n acc)
      with (if n / 10 =? 0 then digit_char (n mod 10) :: acc
            else decimal_digits (S fuel) (n / 10) (digit_char (n mod 10) :: acc)).
    destruct (n / 10 =? 0) eqn:E.
    + apply Z.eqb_eq in E.
      assert (Em : n mod 10 = n) by (pose proof (Z.div_mod n 10 ltac:(lia)); lia).
      exists [digit_char (n mod 10)].
      split; [reflexivity | split; [discriminate | split]].
      * constructor; [exact Hd | constructor].
      * intros a rest. cbn [app leading_digits length].
        rewrite digit_isdigit by exact Hd.
        rewrite digit_char_val by lia. f_equal. change (10 ^ Z.of_nat 1) with 10. lia.
    + apply Z.eqb_neq in E.
      assert (Hq : 0 <= n / 10 < 10 ^ Z.of_nat (S fuel)).
      { split; [apply Z.div_pos; lia |].
        apply Z.div_lt_upper_bound; [lia |].
        replace (Z.of_nat (S (S fuel))) with (Z.of_nat (S fuel) + 1) in Hn by lia.
        rewrite Z.pow_add_r in Hn by lia. lia. }
      destruct (IH (n / 10) (digit_char (n mod 10) :: acc) Hq)
        as (ds & Eds & Hne & Hall & Hread).
      exists (ds ++ [digit_char (n mod 10)]).
      split; [rewrite Eds, <- app_assoc; reflexivity |].
      split; [destruct ds; discriminate |].
      split; [apply Forall_app; split; [exact Hall | constructor; [exact Hd | constructor]] |].
      intros a rest. rewrite <- app_assoc. rewrite Hread.
      cbn [app leading_digits]. rewrite digit_isdigit by exact Hd.
      rewrite digit_char_val by lia. f_equal.
      rewrite length_app. cbn [length].
      replace (Z.of_nat (length ds + 1)) with (Z.of_nat (length ds) + 1) by lia.
      rewrite Z.pow_add_r by lia.
      pose proof (Z.div_mod n 10 ltac:(lia)). lia.
Qed.

Lemma to_decimal_read_back (n : Z) :
  0 <= n < 2 ^ 32 ->
  to_decimal n <> [] /\ Forall is_digit_byte (to_decimal n)
  /\ forall rest, leading_digits (to_decimal n ++ rest) 0 = leading_digits rest n.
Proof.
  intros Hn. unfold to_decimal.
  destruct (decimal_digits_read_back 9 n [] ltac:(change (10 ^ Z.of_nat 10) with 10000000000; lia))
    as (ds & Eds & Hne & Hall & Hread).
  rewrite Eds, app_nil_r. split; [exact Hne |]. split; [exact Hall |].
  intros rest. rewrite Hread. f_equal.
Qed.

Lemma skip_spaces_digits (ds : list byte) :
  Forall is_digit_byte ds -> skip_spaces ds = ds.
Proof.
  intros H. destruct H as [| b ds Hb _]; [reflexivity |].
  cbn [skip_spaces]. rewrite digit_is_no_space by exact Hb. reflexivity.
Qed.

Lemma leading_digits_all (ds : list byte) (n : Z) :
  (forall rest', leading_digits (ds ++ rest') 0 = leading_digits rest' n) ->
  leading_digits ds 0 = n.
Proof.
  intros H. specialize (H []). rewrite app_nil_r in H. exact H.
Qed.

(** [std::stoi] on the decimal text of an [unsigned int], after no or one
    space: the value when it is an [int], [std::out_of_range] otherwise. *)
Lemma stoi_to_decimal (n : Z) (spaces : list byte) :
  0 <= n < 2 ^ 32 -> spaces = [] \/ spaces = [x20] ->
  stoi (spaces ++ to_decimal n)
  = if n <? 2 ^ 31 then inr n else inl stoi_out_of_range.
Proof.
  intros Hn Hsp.
  destruct (to_decimal_read_back n Hn) as (Hne & Hall & Hread).
  assert (Hskip : skip_spaces (spaces ++ to_decimal n) = to_decimal n).
  { destruct Hsp as [-> | ->]; [apply skip_spaces_digits; exact Hall |].
    cbn [app skip_spaces]. change (isspace x20) with true. cbv iota.
    apply skip_spaces_digits; exact Hall. }
  unfold stoi. rewrite Hskip.
  pose proof (leading_digits_all _ n Hread) as Hv.
  destruct (to_decimal n) as [| b ds] eqn:Ed; [contradiction |].
  pose proof (Forall_inv Hall) as Hb. cbv beta in Hb.
  rewrite (digit_is_not b x2d Hb) by (left; reflexivity).
  rewrite (digit_is_not b x2b Hb) by (left; reflexivity).
  rewrite (digit_isdigit b Hb). rewrite Hv.
  destruct (n <? 2 ^ 31) eqn:E.
  - apply Z.ltb_lt in E.
    replace ((n <? - 2 ^ 31) || (n >? 2 ^ 31 - 1)) with false by lia. reflexivity.
  - apply Z.ltb_ge in E.
    replace ((n <? - 2 ^ 31) || (n >? 2 ^ 31 - 1)) with true by lia. reflexivity.
Qed.

Lemma read_until_at_delim (delim : byte) (rest acc : list byte) :
  read_until delim delim rest acc = Some (acc, rest).
Proof. destruct rest; cbn [read_until]; rewrite byte_eqb_refl; reflexivity. Qed.

Lemma read_until_step (delim c b : byte) (rest acc : list byte) :
  Byte.eqb c delim = false ->
  read_until delim c (b :: rest) acc = read_until delim b rest (acc ++ [c]).
Proof. intros Hc. cbn [read_until]. rewrite Hc. reflexivity. Qed.

Lemma read_until_stops (delim : byte) (cs : list byte) :
  forall c acc rest,
    Byte.eqb c delim = false ->
    Forall (fun b => Byte.eqb b delim = false) cs ->
    read_until delim c (cs ++ delim :: rest) acc = Some (acc ++ c :: cs, rest).
Proof.
  induction cs as [| b cs IH]; intros c acc rest Hc Hcs.
  - cbn [app]. rewrite read_until_step by exact Hc.
    apply read_until_at_delim.
  - pose proof (Forall_inv Hcs) as Hb. pose proof (Forall_inv_tail Hcs) as Hcs'.
    cbv beta in Hb.
    cbn [app]. rewrite read_until_step by exact Hc.
    rewrite IH by assumption. rewrite <- app_assoc. reflexivity.
Qed.

Lemma puts_appends (s os : list byte) : puts s os = (Ok tt, os ++ s).
Proof. reflexivity. Qed.

Lemma save_ascii_row (g : Grid) (y : Z) (os : list byte) :
  Grid_wf g -> 0 <= y < height g ->
  (let* _ :=
     for_range 0 (get_width g) (fun x =>
       let* c := lift (fst (Grid_call x y g)) in
       put (cell_char c)) in
   put x0a) os = (Ok tt, os ++ ascii_row g y).
Proof.
  intros Hwf Hy. unfold bind at 1.
  unfold for_range, get_width. rewrite Z.sub_0_r.
  rewrite (for_iter_appends _ (fun x => [cell_char (cell_of g x y)])).
  - rewrite put_appends.
    rewrite <- (row_cells_length g y Hwf Hy).
    rewrite (lines_from_cells (row_cells g y)).
    + unfold ascii_row. rewrite <- app_assoc. reflexivity.
    + intros i c Hi.
      assert (Hlt : (i < length (row_cells g y))%nat)
        by (apply lookup_lt_is_Some_1; eauto).
      rewrite (row_cells_length g y Hwf Hy) in Hlt.
      destruct (row_cells_lookup g (Z.of_nat i) y Hwf ltac:(lia) Hy)
        as (c' & Hl & Hg & _).
      rewrite Nat2Z.id in Hl. rewrite Hi in Hl. inversion Hl; subst c'.
      unfold cell_of. rewrite Z.add_0_l, Hg. reflexivity.
  - intros x os' Hx.
    destruct (Grid_get_valid g x y Hwf ltac:(lia) Hy) as (c & _ & Hg & _ & Hcall).
    unfold bind, lift. rewrite Hcall. cbn [fst]. rewrite put_appends.
    unfold cell_of. rewrite Hg. reflexivity.
Qed.

(** Zoo::save_ascii writes the text of the grid. *)
Lemma save_ascii_text (g : Grid) :
  Grid_wf g -> save_ascii true g = Ok (ascii_text g).
Proof.
  intros Hwf. pose proof Hwf as [Hw Hh Ht Hc].
  unfold save_ascii. cbn [negb]. unfold run_local.
  unfold bind at 1. rewrite puts_appends.
  unfold bind at 1. rewrite put_appends.
  unfold bind at 1. rewrite puts_appends.
  unfold bind at 1. rewrite put_appends.
  unfold for_range at 1. unfold get_height. rewrite Z.sub_0_r.
  rewrite (for_iter_appends _ (ascii_row g)).
  - unfold ascii_text, ascii_header, get_width. rewrite <- !app_assoc. cbn [app].
    reflexivity.
  - intros y os' Hy. apply save_ascii_row; [exact Hwf | lia].
Qed.

Lemma ascii_get_next (b : byte) (rest : list byte) (s : ascii_state) :
  ascii_ifs s = mkIfs (b :: rest) false false ->
  ascii_get s = (Ok b, mkAscii (mkIfs rest false false) (ascii_grid s)).
Proof. intros E. unfold ascii_get, ifs_get. rewrite E. reflexivity. Qed.

Lemma ascii_assign_valid (x y : Z) (c : Cell) (s : ascii_state) :
  Grid_wf (ascii_grid s) ->
  0 <= x < width (ascii_grid s) -> 0 <= y < height (ascii_grid s) ->
  ascii_assign x y c s
  = (Ok tt, mkAscii (ascii_ifs s)
              (mkGrid (width (ascii_grid s)) (height (ascii_grid s))
                 (<[idx (ascii_grid s) x y := c]> (gridVector (ascii_grid s))))).
Proof.
  intros Hwf Hx Hy. unfold ascii_assign.
  destruct (Grid_assign_valid (ascii_grid s) x y c Hwf Hx Hy) as [-> _]. reflexivity.
Qed.

Lemma load_ascii_cell_reads (c : Cell) (rest : list byte) (x y : Z) (s : ascii_state) :
  ascii_ifs s = mkIfs (cell_char c :: rest) false false ->
  load_ascii_cell x y s
  = ascii_assign x y c (mkAscii (mkIfs rest false false) (ascii_grid s)).
Proof.
  intros Hs. unfold load_ascii_cell, bind. rewrite (ascii_get_next _ _ _ Hs).
  destruct c; reflexivity.
Qed.

Lemma ascii_filled_start (g : Grid) (s0 : ascii_state) :
  Grid_wf g -> ascii_grid s0 = Grid_new (width g) (height g) ->
  ascii_filled g s0 0 0 s0.
Proof.
  intros [Hw Hh Ht Hc] E. unfold ascii_filled, filled. rewrite E.
  split; [exact I |].
  split; [apply Grid_new_wf; assumption |]. split; [reflexivity |].
  split; [reflexivity |]. split; [| reflexivity].
  intros x' y' Hx' Hy' [Hd | [_ Hd]]; lia.
Qed.

Lemma ascii_filled_move (g : Grid) (s0 : ascii_state) (y x : Z) (s t : ascii_state) :
  ascii_grid t = ascii_grid s -> ascii_filled g s0 y x s -> ascii_filled g s0 y x t.
Proof. intros E. unfold ascii_filled, filled. rewrite E. auto. Qed.

Lemma ascii_filled_next_row (g : Grid) (s0 : ascii_state) (y : Z) (s : ascii_state) :
  ascii_filled g s0 y (width g) s -> ascii_filled g s0 (y + 1) 0 s.
Proof.
  intros (Hk & Hwft & Hwt & Hht & Hdone & Hframe).
  unfold ascii_filled, filled. split; [exact Hk |]. split; [exact Hwft |].
  split; [exact Hwt |]. split; [exact Hht |]. split; [| exact Hframe].
  intros x' y' Hx' Hy' Hd. apply Hdone; try assumption.
  unfold done_before in *. lia.
Qed.

Lemma ascii_filled_all (g : Grid) (s0 s : ascii_state) :
  Grid_wf g -> ascii_filled g s0 (height g) 0 s -> ascii_grid s = g.
Proof.
  intros Hwf (_ & Hwf' & Hw' & Hh' & Hdone & _).
  apply Grid_ext; try assumption.
  intros x y Hx Hy. rewrite Hw' in Hx. rewrite Hh' in Hy.
  specialize (Hdone x y Hx Hy). cbn [fst snd] in Hdone.
  rewrite Hdone by (unfold done_before; lia).
  unfold cell_of.
  destruct (Grid_get_valid g x y Hwf Hx Hy) as (c & _ & Hg & _).
  rewrite Hg. reflexivity.
Qed.

(** One cell read: the next character of the stream is the character of the
    cell of [g], and the cell is assigned. *)
Lemma load_ascii_cell_step (g : Grid) (s0 : ascii_state) (T : list byte)
    (x y : Z) (s : ascii_state) :
  Grid_wf g -> ascii_grid s0 = Grid_new (width g) (height g) ->
  0 <= x < width g -> 0 <= y < height g ->
  ascii_ifs s = mkIfs (cell_char (cell_of g x y) :: T) false false ->
  ascii_filled g s0 y x s ->
  exists s', load_ascii_cell x y s = (Ok tt, s')
             /\ ascii_ifs s' = mkIfs T false false
             /\ ascii_filled g s0 y (x + 1) s'.
Proof.
  intros Hwf E0 Hx Hy Hs HF. pose proof Hwf as [Hw Hh Ht Hc].
  rewrite (load_ascii_cell_reads _ _ _ _ _ Hs).
  set (s1 := mkAscii (mkIfs T false false) (ascii_grid s)).
  assert (HF1 : ascii_filled g s0 y x s1)
    by (apply (ascii_filled_move g s0 y x s); [reflexivity | exact HF]).
  destruct (fill_step ascii_grid (fun _ => True)
              (fun y x => ascii_assign x y (cell_of g x y))
              0 0 (width g) (height g) (fun x y => (x, y)) (fun x y => cell_of g x y)
              (width g) (height g) s0) with (y := y) (x := x) (s := s1)
    as (s' & Hs' & HF'); try assumption.
  - intros x' y' Hx' Hy'. cbn [fst snd]. lia.
  - intros x1 y1 x2 y2 _ _ _ _ E. inversion E. auto.
  - intros x' y' t Hx' Hy' _ Hwft Hwt Hht. cbn [fst snd].
    rewrite ascii_assign_valid by (try assumption; lia).
    eexists. split; [reflexivity |]. split; [exact I | reflexivity].
  - rewrite E0. split; [exact I |].
    split; [apply Grid_new_wf; assumption |]. split; reflexivity.
  - exists s'. split; [exact Hs' |]. split; [| exact HF'].
    destruct HF1 as (_ & Hwfs & Hws & Hhs & _).
    rewrite ascii_assign_valid in Hs' by (try assumption; lia).
    inversion Hs'. reflexivity.
Qed.

(** The cells of a whole row read. *)
Lemma load_ascii_cells (g : Grid) (s0 : ascii_state) (T : list byte)
    (y : Z) (s : ascii_state) :
  Grid_wf g -> ascii_grid s0 = Grid_new (width g) (height g) ->
  0 <= y < height g ->
  ascii_ifs s = mkIfs (map cell_char (row_cells g y) ++ T) false false ->
  ascii_filled g s0 y 0 s ->
  exists t,
    for_range 0 (width g) (fun x => load_ascii_cell x y) s = (Ok tt, t)
    /\ ascii_ifs t = mkIfs T false false /\ ascii_filled g s0 (y + 1) 0 t.
Proof.
  intros Hwf E0 Hy Hs HF. pose proof Hwf as [Hw Hh Ht Hc].
  pose proof (row_cells_length g y Hwf Hy) as Hlen.
  destruct (for_range_inv (fun x => load_ascii_cell x y)
              (fun x t => ascii_ifs t
                          = mkIfs (map cell_char (drop (Z.to_nat x) (row_cells g y))
                                   ++ T) false false
                          /\ ascii_filled g s0 y x t)
              0 (width g) s) as (t & Hrow & Hts & HFt).
  - lia.
  - split; [exact Hs | exact HF].
  - intros x t Hx (Hts & HFt).
    destruct (row_cells_lookup g x y Hwf Hx Hy) as (c & Hl & Hg & _).
    rewrite (drop_S _ _ _ Hl) in Hts. cbn [map app] in Hts.
    assert (Ec : c = cell_of g x y) by (unfold cell_of; rewrite Hg; reflexivity).
    rewrite Ec in Hts.
    destruct (load_ascii_cell_step g s0 _ x y t Hwf E0 Hx Hy Hts HFt)
      as (t' & Ht' & Hi' & HF').
    exists t'. split; [exact Ht' |]. split; [| exact HF'].
    rewrite Hi'. replace (Z.to_nat (x + 1)) with (S (Z.to_nat x)) by lia. reflexivity.
  - rewrite drop_ge in Hts by lia. cbn [map app] in Hts.
    exists t. split; [exact Hrow |]. split; [exact Hts |].
    apply ascii_filled_next_row. exact HFt.
Qed.

(** A row with its new line read. *)
Lemma load_ascii_row_reads (g : Grid) (s0 : ascii_state) (T : list byte)
    (y : Z) (s : ascii_state) :
  Grid_wf g -> ascii_grid s0 = Grid_new (width g) (height g) ->
  0 <= y < height g ->
  ascii_ifs s = mkIfs (ascii_row g y ++ T) false false ->
  ascii_filled g s0 y 0 s ->
  exists t,
    load_ascii_row (width g) (height g) y s = (Ok tt, t)
    /\ ascii_ifs t = mkIfs T false false /\ ascii_filled g s0 (y + 1) 0 t.
Proof.
  intros Hwf E0 Hy Hs HF.
  unfold ascii_row in Hs. rewrite <- app_assoc in Hs. cbn [app] in Hs.
  destruct (load_ascii_cells g s0 _ y s Hwf E0 Hy Hs HF) as (t & Hrow & Hts & HFt).
  eexists. split.
  - unfold load_ascii_row. unfold bind at 1. rewrite Hrow.
    unfold bind. rewrite (ascii_get_next _ _ _ Hts).
    rewrite byte_eqb_refl. reflexivity.
  - split; [reflexivity |].
    apply (ascii_filled_move g s0 (y + 1) 0 t); [reflexivity | exact HFt].
Qed.

(** All the rows read, whatever follows the cells of the last one. *)
Lemma load_ascii_rows (g : Grid) (tail : list byte) :
  Grid_wf g -> 0 < height g ->
  exists s',
    for_range 0 (height g) (fun y => load_ascii_row (width g) (height g) y)
      (mkAscii (mkIfs (lines_from (Z.to_nat (height g - 1)) 0 (ascii_row g)
                       ++ map cell_char (row_cells g (height g - 1)) ++ tail)
                  false false)
               (Grid_new (width g) (height g)))
    = (Ok tt, s')
    /\ ascii_grid s' = g.
Proof.
  intros Hwf Hpos. pose proof Hwf as [Hw Hh Ht Hc].
  set (h := height g) in *.
  set (last := map cell_char (row_cells g (h - 1)) ++ tail).
  set (s0 := mkAscii (mkIfs (lines_from (Z.to_nat (h - 1)) 0 (ascii_row g) ++ last)
                        false false)
               (Grid_new (width g) h)).
  assert (E0 : ascii_grid s0 = Grid_new (width g) (height g)) by reflexivity.
  destruct (for_range_inv (fun y => load_ascii_row (width g) h y)
              (fun y s => (y < h ->
                           ascii_ifs s
                           = mkIfs (lines_from (Z.to_nat (h - 1 - y)) y (ascii_row g)
                                    ++ last) false false)
                          /\ ascii_filled g s0 y 0 s)
              0 h s0) as (s' & Hrun & _ & HF).
  - lia.
  - split; [intros _; unfold s0; cbn [ascii_ifs]; rewrite Z.sub_0_r; reflexivity |].
    apply ascii_filled_start; assumption.
  - intros y s Hy (Hs & HF). specialize (Hs ltac:(lia)).
    destruct (Z.eq_dec y (h - 1)) as [-> | Hne].
    + replace (Z.to_nat (h - 1 - (h - 1))) with 0%nat in Hs by lia.
      cbn [lines_from app] in Hs. unfold last in Hs.
      destruct (load_ascii_cells g s0 tail (h - 1) s Hwf E0 ltac:(fold h; lia) Hs HF)
        as (t & Hrow & Hts & HFt).
      assert (Hget : exists inC t', ascii_get t = (Ok inC, t')
                                    /\ ascii_grid t' = ascii_grid t).
      { unfold ascii_get, ifs_get. rewrite Hts. cbn [eofbit failbit orb unread].
        destruct tail; eexists _, _; split; reflexivity. }
      destruct Hget as (inC & t' & Hget & Hgrid).
      exists t'. split.
      * unfold load_ascii_row. unfold bind at 1. rewrite Hrow.
        unfold bind. rewrite Hget.
        rewrite (u32_small (h - 1)) by lia. rewrite Z.eqb_refl.
        rewrite andb_false_r. reflexivity.
      * split; [intros; lia |]. apply (ascii_filled_move g s0 _ _ t); assumption.
    + replace (Z.to_nat (h - 1 - y)) with (S (Z.to_nat (h - 1 - (y + 1)))) in Hs by lia.
      cbn [lines_from] in Hs. rewrite <- app_assoc in Hs.
      destruct (load_ascii_row_reads g s0 _ y s Hwf E0 ltac:(fold h; lia) Hs HF)
        as (t & Hrow & Hts & HFt).
      exists t. split; [exact Hrow |]. split; [intros _; exact Hts | exact HFt].
  - exists s'. split; [exact Hrun |].
    apply (ascii_filled_all g s0); assumption.
Qed.

Lemma digits_have_no (delim : byte) (ds : list byte) :
  byte_val delim < 48 \/ 57 < byte_val delim ->
  Forall is_digit_byte ds -> Forall (fun b => Byte.eqb b delim = false) ds.
Proof.
  intros Hd Hds. induction Hds as [| b ds Hb _ IH]; constructor; [| exact IH].
  apply digit_is_not; assumption.
Qed.

(** Zoo::load_ascii on the header the encoder writes, up to the loops over
    the cells. *)
Lemma load_ascii_header (w h : Z) (rest : list byte) :
  0 <= w < 2 ^ 32 -> 0 <= h < 2 ^ 32 ->
  load_ascii (Some (to_decimal w ++ [x20] ++ to_decimal h ++ [x0a] ++ rest))
  = if w <? 2 ^ 31
    then if h <? 2 ^ 31
         then Some (let? s :=
                      run_local
                        (for_range 0 h (fun y => load_ascii_row w h y))
                        (mkAscii (mkIfs rest false false) (Grid_new w h)) in
                    Ok (ascii_grid s))
         else Some (Throw (runtime_error
                             "load_ascii() : Cannot parse height, out of range."))
    else Some (Throw (runtime_error "load_ascii() : Cannot parse width, out of range.")).
Proof.
  intros Hw Hh.
  destruct (to_decimal_read_back w Hw) as (Hnew & Hallw & _).
  destruct (to_decimal_read_back h Hh) as (_ & Hallh & _).
  pose proof (stoi_to_decimal w [] Hw (or_introl eq_refl)) as Hsw.
  pose proof (stoi_to_decimal h [x20] Hh (or_intror eq_refl)) as Hsh.
  cbn [app] in Hsw, Hsh.
  destruct (to_decimal w) as [| b ds] eqn:Ew; [contradiction |].
  pose proof (Forall_inv Hallw) as Hb. pose proof (Forall_inv_tail Hallw) as Hds.
  cbv beta in Hb.
  unfold load_ascii. cbn [app].
  unfold ifs_get at 1. cbn [eofbit failbit orb unread].
  rewrite (read_until_stops x20 ds b [] _ (digit_is_not b x20 Hb ltac:(left; reflexivity))
             (digits_have_no x20 ds ltac:(left; reflexivity) Hds)).
  cbn [app]. rewrite Hsw.
  destruct (w <? 2 ^ 31) eqn:Ewr; [| reflexivity].
  rewrite (read_until_stops x0a (to_decimal h) x20 [] _ eq_refl
             (digits_have_no x0a _ ltac:(left; reflexivity) Hallh)).
  cbn [app]. rewrite Hsh.
  destruct (h <? 2 ^ 31) eqn:Ehr; [| reflexivity].
  rewrite (u32_small w), (u32_small h) by lia. reflexivity.
Qed.

Lemma lines_from_snoc (n : nat) (line : Z -> list byte) :
  forall y, lines_from (S n) y line = lines_from n y line ++ line (y + Z.of_nat n).
Proof.
  induction n as [|n IH]; intros y.
  - cbn [lines_from app]. rewrite app_nil_r. replace (y + Z.of_nat 0) with y by lia.
    reflexivity.
  - change (lines_from (S (S n)) y line) with (line y ++ lines_from (S n) (y + 1) line).
    rewrite IH. cbn [lines_from]. rewrite <- app_assoc.
    replace (y + 1 + Z.of_nat n) with (y + Z.of_nat (S n)) by lia. reflexivity.
Qed.

Lemma ascii_text_closed (g : Grid) :
  0 < height g -> ascii_text g = ascii_text_open g ++ [x0a].
Proof.
  intros Hpos. unfold ascii_text, ascii_text_open, ascii_header.
  replace (Z.to_nat (height g)) with (S (Z.to_nat (height g - 1))) by lia.
  rewrite lines_from_snoc. unfold ascii_row at 2.
  replace (0 + Z.of_nat (Z.to_nat (height g - 1))) with (height g - 1) by lia.
  rewrite <- !app_assoc. reflexivity.
Qed.

Lemma load_ascii_open_text (g : Grid) (tail : list byte) :
  Grid_wf g -> width g < 2 ^ 31 -> 0 < height g < 2 ^ 31 ->
  load_ascii (Some (ascii_text_open g ++ tail)) = Some (Ok g).
Proof.
  intros Hwf Hw31 Hh31. pose proof Hwf as [Hw Hh Ht Hc].
  unfold ascii_text_open, ascii_header. rewrite <- !app_assoc.
  rewrite (load_ascii_header (width g) (height g)) by assumption.
  replace (width g <? 2 ^ 31) with true by lia.
  replace (height g <? 2 ^ 31) with true by lia.
  destruct (load_ascii_rows g tail Hwf ltac:(lia)) as (s' & Hrun & Hg).
  unfold run_local. rewrite Hrun. cbn [rbind]. rewrite Hg. reflexivity.
Qed.

Lemma load_ascii_no_rows (g : Grid) (tail : list byte) :
  Grid_wf g -> width g < 2 ^ 31 -> height g = 0 ->
  load_ascii (Some (ascii_text g ++ tail)) = Some (Ok g).
Proof.
  intros Hwf Hw31 Hh0. pose proof Hwf as [Hw Hh Ht Hc].
  unfold ascii_text, ascii_header. rewrite <- !app_assoc.
  rewrite (load_ascii_header (width g) (height g)) by assumption.
  replace (width g <? 2 ^ 31) with true by lia. rewrite Hh0.
  change (0 <? 2 ^ 31) with true. cbv iota.
  unfold for_range. cbn [Z.to_nat Z.sub for_iter run_local ret rbind ascii_grid].
  f_equal. f_equal. destruct g as [w h v]. cbn [width height gridVector] in *. subst h.
  unfold Grid_new. rewrite Z.mul_0_r. cbn.
  destruct v; [reflexivity | cbn [length] in Hc; lia].
Qed.

(** X26. Zoo::save_ascii writes, for a grid with the class invariant, the
    width and the height in decimal, separated by a space and ended by a new
    line, then each row as its cell characters and a new line. When both
    extents are below 2^31, Zoo::load_ascii on this text returns a grid equal
    to the one saved, and it does so whatever bytes follow the text. *)
Theorem load_ascii_reads_back_what_save_ascii_wrote (g : Grid) (junk : list byte) :
  Grid_wf g -> get_width g < 2 ^ 31 -> get_height g < 2 ^ 31 ->
  exists text,
    save_ascii true g = Ok text
    /\ text = ascii_text g
    /\ load_ascii (Some text) = Some (Ok g)
    /\ load_ascii (Some (text ++ junk)) = Some (Ok g).
Proof.
  unfold get_width, get_height.
  intros Hwf Hw31 Hh31. pose proof Hwf as [Hw Hh Ht Hc].
  exists (ascii_text g). split; [apply save_ascii_text; exact Hwf |].
  split; [reflexivity |].
  assert (Hload : forall tail, load_ascii (Some (ascii_text g ++ tail)) = Some (Ok g)).
  { intros tail. destruct (Z.eq_dec (height g) 0) as [E0 | Hne].
    - apply load_ascii_no_rows; assumption.
    - rewrite ascii_text_closed by lia. rewrite <- app_assoc.
      apply load_ascii_open_text; try assumption; lia. }
  split; [| apply Hload].
  rewrite <- (app_nil_r (ascii_text g)). apply Hload.
Qed.

Lemma load_ascii_reads_back_what_save_ascii_wrote_witness :
  Grid_wf (mkGrid 2 1 [ALIVE; DEAD]) /\ get_width (mkGrid 2 1 [ALIVE; DEAD]) < 2 ^ 31
  /\ get_height (mkGrid 2 1 [ALIVE; DEAD]) < 2 ^ 31
  /\ exists text,
       save_ascii true (mkGrid 2 1 [ALIVE; DEAD]) = Ok text
       /\ text = ascii_text (mkGrid 2 1 [ALIVE; DEAD])
       /\ load_ascii (Some text) = Some (Ok (mkGrid 2 1 [ALIVE; DEAD]))
       /\ load_ascii (Some (text ++ [x23; x0a])) = Some (Ok (mkGrid 2 1 [ALIVE; DEAD])).
Proof.
  assert (Hwf : Grid_wf (mkGrid 2 1 [ALIVE; DEAD])) by (constructor; simpl; lia).
  split; [exact Hwf |]. split; [reflexivity |]. split; [reflexivity |].
  apply (load_ascii_reads_back_what_save_ascii_wrote _ [x23; x0a] Hwf); reflexivity.
Defined.

(** X27. The new line that ends the last row is optional for
    Zoo::load_ascii: the text of a grid with at least one row, cut after the
    last cell, is read back as the grid, and so is this text followed by any
    bytes at all. *)
Theorem load_ascii_takes_any_end_of_the_last_row (g : Grid) (tail : list byte) :
  Grid_wf g -> get_width g < 2 ^ 31 -> 0 < get_height g < 2 ^ 31 ->
  ascii_text g = ascii_text_open g ++ [x0a]
  /\ load_ascii (Some (ascii_text_open g)) = Some (Ok g)
  /\ load_ascii (Some (ascii_text_open g ++ tail)) = Some (Ok g).
Proof.
  unfold get_width, get_height. intros Hwf Hw31 Hh31.
  split; [apply ascii_text_closed; lia |].
  split; [| apply load_ascii_open_text; assumption].
  rewrite <- (app_nil_r (ascii_text_open g)). apply load_ascii_open_text; assumption.
Qed.

Lemma load_ascii_takes_any_end_of_the_last_row_witness :
  Grid_wf (mkGrid 2 1 [ALIVE; DEAD]) /\ get_width (mkGrid 2 1 [ALIVE; DEAD]) < 2 ^ 31
  /\ 0 < get_height (mkGrid 2 1 [ALIVE; DEAD]) < 2 ^ 31
  /\ ascii_text (mkGrid 2 1 [ALIVE; DEAD])
     = ascii_text_open (mkGrid 2 1 [ALIVE; DEAD]) ++ [x0a]
  /\ load_ascii (Some (ascii_text_open (mkGrid 2 1 [ALIVE; DEAD])))
     = Some (Ok (mkGrid 2 1 [ALIVE; DEAD]))
  /\ load_ascii (Some (ascii_text_open (mkGrid 2 1 [ALIVE; DEAD]) ++ [x58]))
     = Some (Ok (mkGrid 2 1 [ALIVE; DEAD])).
Proof.
  assert (Hwf : Grid_wf (mkGrid 2 1 [ALIVE; DEAD])) by (constructor; simpl; lia).
  split; [exact Hwf |]. split; [reflexivity |].
  split; [split; reflexivity |].
  apply (load_ascii_takes_any_end_of_the_last_row _ [x58] Hwf);
    [reflexivity | split; reflexivity].
Defined.

(** X28. Zoo::load_ascii cannot read what Zoo::save_ascii writes for a grid
    with an extent of 2^31 or more: the extents are written as unsigned ints
    and read with [std::stoi], whose std::out_of_range is rethrown as a
    std::runtime_error, for the width first. *)
Theorem load_ascii_rejects_extents_from_2_to_the_31 (g : Grid) :
  Grid_wf g -> 2 ^ 31 <= get_width g \/ 2 ^ 31 <= get_height g ->
  exists text what,
    save_ascii true g = Ok text
    /\ load_ascii (Some text) = Some (Throw (runtime_error what))
    /\ what = if 2 ^ 31 <=? get_width g
              then "load_ascii() : Cannot parse width, out of range."%string
              else "load_ascii() : Cannot parse height, out of range."%string.
Proof.
  unfold get_width, get_height.
  intros Hwf Hbig. pose proof Hwf as [Hw Hh Ht Hc].
  exists (ascii_text g). eexists.
  split; [apply save_ascii_text; exact Hwf |].
  split; [| reflexivity].
  unfold ascii_text, ascii_header. rewrite <- !app_assoc.
  rewrite (load_ascii_header (width g) (height g)) by assumption.
  destruct (2 ^ 31 <=? width g) eqn:E.
  - replace (width g <? 2 ^ 31) with false by lia. reflexivity.
  - replace (width g <? 2 ^ 31) with true by lia.
    replace (height g <? 2 ^ 31) with false by lia. reflexivity.
Qed.

Lemma load_ascii_rejects_extents_from_2_to_the_31_witness :
  Grid_wf (mkGrid 0 (2 ^ 31) [])
  /\ (2 ^ 31 <= get_width (mkGrid 0 (2 ^ 31) [])
      \/ 2 ^ 31 <= get_height (mkGrid 0 (2 ^ 31) []))
  /\ exists text what,
       save_ascii true (mkGrid 0 (2 ^ 31) []) = Ok text
       /\ load_ascii (Some text) = Some (Throw (runtime_error what))
       /\ what = if 2 ^ 31 <=? get_width (mkGrid 0 (2 ^ 31) [])
                 then "load_ascii() : Cannot parse width, out of range."%string
                 else "load_ascii() : Cannot parse height, out of range."%string.
Proof.
  assert (Hwf : Grid_wf (mkGrid 0 (2 ^ 31) [])) by (constructor; simpl; lia).
  split; [exact Hwf |]. split; [right; simpl; lia |].
  apply (load_ascii_rejects_extents_from_2_to_the_31 _ Hwf). right; simpl; lia.
Defined.

Lemma read_until_never (delim : byte) (cs : list byte) :
  forall c acc,
    Byte.eqb c delim = false ->
    Forall (fun b => Byte.eqb b delim = false) cs ->
    read_until delim c cs acc = None.
Proof.
  induction cs as [| b cs IH]; intros c acc Hc Hcs.
  - cbn [read_until]. rewrite Hc. reflexivity.
  - rewrite read_until_step by exact Hc.
    apply IH; [exact (Forall_inv Hcs) | exact (Forall_inv_tail Hcs)].
Qed.

(** X29. On a file without a space character Zoo::load_ascii does not
    return and does not throw its own exceptions: the loop that collects the
    width has no test for the end of the file, [get] returns the end-of-file
    character from then on and the loop appends it to the string without
    end. An empty file is such a file. *)
Theorem load_ascii_does_not_return_without_a_space (bytes : list byte) :
  ~ elem_of x20 bytes -> load_ascii (Some bytes) = None.
Proof.
  intros Hno.
  assert (Hall : Forall (fun b => Byte.eqb b x20 = false) bytes).
  { apply Forall_forall. intros b Hb.
    destruct (Byte.eqb b x20) eqn:E; [| reflexivity].
    apply Byte.byte_dec_bl in E. subst b. contradiction. }
  unfold load_ascii, ifs_get. cbn [eofbit failbit orb unread].
  destruct bytes as [| b rest].
  - reflexivity.
  - cbn [unread].
    rewrite (read_until_never x20 rest b []
               (Forall_inv Hall) (Forall_inv_tail Hall)).
    reflexivity.
Qed.

Lemma load_ascii_does_not_return_without_a_space_witness :
  ~ elem_of x20 [x33; x0a; x23; x23; x23; x0a] /\
  load_ascii (Some [x33; x0a; x23; x23; x23; x0a]) = None.
Proof.
  assert (H : ~ elem_of x20 [x33; x0a; x23; x23; x23; x0a]).
  { intros Hin. repeat (apply elem_of_cons in Hin; destruct Hin as [Hin | Hin];
                        [discriminate Hin |]).
    apply elem_of_nil in Hin. exact Hin. }
  split; [exact H |].
  exact (load_ascii_does_not_return_without_a_space _ H).
Defined.

Lemma read_until_delim_free (delim : byte) (pre post : list byte) :
  ~ elem_of delim pre ->
  match pre ++ delim :: post with
  | [] => False
  | c :: cs => read_until delim c cs [] = Some (pre, post)
  end.
Proof.
  intros Hno. destruct pre as [| c cs]; cbn [app].
  - apply read_until_at_delim.
  - assert (Hall : Forall (fun b => Byte.eqb b delim = false) (c :: cs)).
    { apply Forall_forall. intros b Hb.
      destruct (Byte.eqb b delim) eqn:E; [| reflexivity].
      apply Byte.byte_dec_bl in E. subst b. contradiction. }
    apply (read_until_stops delim cs c [] post (Forall_inv Hall) (Forall_inv_tail Hall)).
Qed.

(** Both exceptions of [std::stoi] are rethrown by Zoo::load_ascii as
    std::runtime_error, with the message for the width or for the height.
    The text of the height begins with the space that ended the width, which
    [std::stoi] skips. *)
Lemma load_ascii_rethrows_what_stoi_throws
    (pre mid post : list byte) (e : stoi_error) :
  ~ elem_of x20 pre ->
  (stoi pre = inl e ->
   load_ascii (Some (pre ++ x20 :: post))
   = Some (Throw (runtime_error
                    match e with
                    | stoi_invalid_argument =>
                        "load_ascii() : Cannot parse width, invalid input argument."
                    | stoi_out_of_range =>
                        "load_ascii() : Cannot parse width, out of range."
                    end)))
  /\ (forall w, stoi pre = inr w -> ~ elem_of x0a mid -> stoi (x20 :: mid) = inl e ->
      load_ascii (Some (pre ++ x20 :: mid ++ x0a :: post))
      = Some (Throw (runtime_error
                       match e with
                       | stoi_invalid_argument =>
                           "load_ascii() : Cannot parse height, invalid input argument."
                       | stoi_out_of_range =>
                           "load_ascii() : Cannot parse height, out of range."
                       end))).
Proof.
  intros Hno. split.
  - intros Hstoi.
    pose proof (read_until_delim_free x20 pre post Hno) as Hread.
    unfold load_ascii, ifs_get. cbn [eofbit failbit orb unread].
    destruct (pre ++ x20 :: post) as [| c cs]; [contradiction |].
    cbn [unread]. rewrite Hread, Hstoi. destruct e; reflexivity.
  - intros w Hw Hnl Hstoi.
    pose proof (read_until_delim_free x20 pre (mid ++ x0a :: post) Hno) as Hread.
    assert (Hmid : read_until x0a x20 (mid ++ x0a :: post) [] = Some (x20 :: mid, post)).
    { apply (read_until_stops x0a mid x20 [] post eq_refl).
      apply Forall_forall. intros b Hb.
      destruct (Byte.eqb b x0a) eqn:E; [| reflexivity].
      apply Byte.byte_dec_bl in E. subst b. contradiction. }
    unfold load_ascii, ifs_get. cbn [eofbit failbit orb unread].
    destruct (pre ++ x20 :: mid ++ x0a :: post) as [| c cs]; [contradiction |].
    cbn [unread]. rewrite Hread, Hw, Hmid, Hstoi. destruct e; reflexivity.
Qed.

Lemma load_ascii_throws_in_row (g : Grid) (y0 : Z) (rest : list byte) (e : exn) :
  Grid_wf g -> 0 <= y0 < height g ->
  (forall s0 s, ascii_grid s0 = Grid_new (width g) (height g) ->
     ascii_ifs s = mkIfs rest false false -> ascii_filled g s0 y0 0 s ->
     exists t, load_ascii_row (width g) (height g) y0 s = (Throw e, t)) ->
  exists t,
    for_range 0 (height g) (fun y => load_ascii_row (width g) (height g) y)
      (mkAscii (mkIfs (lines_from (Z.to_nat y0) 0 (ascii_row g) ++ rest) false false)
               (Grid_new (width g) (height g)))
    = (Throw e, t).
Proof.
  intros Hwf Hy0 Hthrow.
  set (s0 := mkAscii (mkIfs (lines_from (Z.to_nat y0) 0 (ascii_row g) ++ rest) false false)
               (Grid_new (width g) (height g))).
  assert (E0 : ascii_grid s0 = Grid_new (width g) (height g)) by reflexivity.
  apply (for_range_throws (fun y => load_ascii_row (width g) (height g) y)
           (fun y s => ascii_ifs s
                       = mkIfs (lines_from (Z.to_nat (y0 - y)) y (ascii_row g) ++ rest)
                           false false
                       /\ ascii_filled g s0 y 0 s)
           0 (height g) y0).
  - lia.
  - split; [unfold s0; cbn [ascii_ifs]; rewrite Z.sub_0_r; reflexivity |].
    apply ascii_filled_start; assumption.
  - intros y s Hy (Hs & HF).
    replace (Z.to_nat (y0 - y)) with (S (Z.to_nat (y0 - (y + 1)))) in Hs by lia.
    cbn [lines_from] in Hs. rewrite <- app_assoc in Hs.
    destruct (load_ascii_row_reads g s0 _ y s Hwf E0 ltac:(lia) Hs HF)
      as (t & Hrow & Hts & HFt).
    exists t. split; [exact Hrow |]. split; [exact Hts | exact HFt].
  - intros s (Hs & HF).
    replace (Z.to_nat (y0 - y0)) with 0%nat in Hs by lia. cbn [lines_from app] in Hs.
    apply (Hthrow s0 s E0 Hs HF).
Qed.

Lemma ascii_get_other (T : list byte) (avoid : byte) (s : ascii_state) :
  ascii_ifs s = mkIfs T false false ->
  avoid <> xff ->
  match T with [] => True | b :: _ => b <> avoid end ->
  exists inC t, ascii_get s = (Ok inC, t) /\ Byte.eqb inC avoid = false.
Proof.
  intros Hs Hff HT. unfold ascii_get, ifs_get. rewrite Hs.
  cbn [eofbit failbit orb unread].
  destruct T as [| b T'].
  - eexists _, _. split; [reflexivity |].
    destruct (Byte.eqb xff avoid) eqn:E; [| reflexivity].
    apply Byte.byte_dec_bl in E. congruence.
  - eexists _, _. split; [reflexivity |].
    destruct (Byte.eqb b avoid) eqn:E; [| reflexivity].
    apply Byte.byte_dec_bl in E. contradiction.
Qed.

(** X30. Zoo::load_ascii reads the rows of a text up to the first place
    that is wrong and throws there: at the place of a cell, a character that
    is neither [#] nor a space, or the end of the file, gives the
    std::runtime_error [Character for a cell is incorrect.]; after the cells
    of a row that is not the last, a character that is no new line, or the
    end of the file, gives [Missing new line character when expected.]. *)
Theorem load_ascii_throws_where_the_text_goes_wrong
    (g : Grid) (x0 y0 : Z) (tail : list byte) :
  Grid_wf g -> get_width g < 2 ^ 31 -> get_height g < 2 ^ 31 ->
  0 <= x0 <= get_width g -> 0 <= y0 < get_height g ->
  (x0 < get_width g ->
   match tail with [] => True | b :: _ => b <> x23 /\ b <> x20 end) ->
  (x0 = get_width g ->
   y0 < get_height g - 1 /\ match tail with [] => True | b :: _ => b <> x0a end) ->
  load_ascii
    (Some (ascii_header g ++ lines_from (Z.to_nat y0) 0 (ascii_row g)
           ++ map cell_char (take (Z.to_nat x0) (row_cells g y0)) ++ tail))
  = Some (Throw (runtime_error
                   (if x0 <? get_width g
                    then "load_ascii() : Character for a cell is incorrect."
                    else "load_ascii() : Missing new line character when expected."))).
Proof.
  unfold get_width, get_height.
  intros Hwf Hw31 Hh31 Hx0 Hy0 Hcell Hline. pose proof Hwf as [Hw Hh Ht Hc].
  unfold ascii_header. rewrite <- !app_assoc.
  rewrite (load_ascii_header (width g) (height g)) by assumption.
  replace (width g <? 2 ^ 31) with true by lia.
  replace (height g <? 2 ^ 31) with true by lia.
  pose proof (row_cells_length g y0 Hwf Hy0) as Hlen.
  destruct (load_ascii_throws_in_row g y0
              (map cell_char (take (Z.to_nat x0) (row_cells g y0)) ++ tail)
              (runtime_error
                 (if x0 <? width g
                  then "load_ascii() : Character for a cell is incorrect."
                  else "load_ascii() : Missing new line character when expected."))
              Hwf Hy0) as (t & Hrun).
  - intros s0 s E0 Hs HF.
    destruct (Z.ltb_spec x0 (width g)) as [Hlt | Hge].
    + specialize (Hcell Hlt).
      assert (Hinner : exists t,
                for_range 0 (width g) (fun x => load_ascii_cell x y0) s
                = (Throw (runtime_error
                            "load_ascii() : Character for a cell is incorrect."), t)).
      { apply (for_range_throws (fun x => load_ascii_cell x y0)
                 (fun x t => ascii_ifs t
                             = mkIfs (map cell_char
                                        (drop (Z.to_nat x)
                                           (take (Z.to_nat x0) (row_cells g y0)))
                                      ++ tail) false false
                             /\ ascii_filled g s0 y0 x t)
                 0 (width g) x0).
        - lia.
        - split; [exact Hs | exact HF].
        - intros x t Hx (Hts & HFt).
          destruct (row_cells_lookup g x y0 Hwf ltac:(lia) Hy0) as (c & Hl & Hg & _).
          assert (Hl' : take (Z.to_nat x0) (row_cells g y0) !! Z.to_nat x = Some c)
            by (rewrite lookup_take_lt by lia; exact Hl).
          rewrite (drop_S _ _ _ Hl') in Hts. cbn [map app] in Hts.
          assert (Ec : c = cell_of g x y0) by (unfold cell_of; rewrite Hg; reflexivity).
          rewrite Ec in Hts.
          destruct (load_ascii_cell_step g s0 _ x y0 t Hwf E0 ltac:(lia) Hy0 Hts HFt)
            as (t' & Ht' & Hi' & HF').
          exists t'. split; [exact Ht' |]. split; [| exact HF'].
          rewrite Hi'. replace (Z.to_nat (x + 1)) with (S (Z.to_nat x)) by lia.
          reflexivity.
        - intros t (Hts & _).
          rewrite drop_ge in Hts by (rewrite length_take; lia).
          cbn [map app] in Hts.
          unfold load_ascii_cell, bind, ascii_get, ifs_get. rewrite Hts.
          cbn [eofbit failbit orb unread].
          destruct tail as [| b tail'].
          + eexists. reflexivity.
          + destruct Hcell as [H23 H20].
            rewrite (byte_eqb_by_val b x23), (byte_eqb_by_val b x20).
            * eexists. reflexivity.
            * intros E. apply H20. apply (f_equal Z.to_N) in E.
              unfold byte_val in E. rewrite !N2Z.id in E.
              apply (f_equal Byte.of_N) in E. rewrite !Byte.of_to_N in E. congruence.
            * intros E. apply H23. apply (f_equal Z.to_N) in E.
              unfold byte_val in E. rewrite !N2Z.id in E.
              apply (f_equal Byte.of_N) in E. rewrite !Byte.of_to_N in E. congruence. }
      destruct Hinner as (t & Hinner).
      exists t. unfold load_ascii_row. unfold bind at 1. rewrite Hinner. reflexivity.
    + assert (Ex : x0 = width g) by lia. destruct (Hline Ex) as [Hnotlast Hnl].
      rewrite firstn_all2 in Hs by lia.
      destruct (load_ascii_cells g s0 tail y0 s Hwf E0 Hy0 Hs HF)
        as (t & Hrow & Hts & HFt).
      destruct (ascii_get_other tail x0a t Hts ltac:(discriminate) Hnl)
        as (inC & t' & Hget & Hne).
      exists t'. unfold load_ascii_row. unfold bind at 1. rewrite Hrow.
      unfold bind. rewrite Hget, Hne.
      rewrite (u32_small (height g - 1)) by lia.
      replace (y0 =? height g - 1) with false by lia. reflexivity.
  - unfold run_local. rewrite Hrun. reflexivity.
Qed.

Lemma load_ascii_throws_where_the_text_goes_wrong_witness :
  Grid_wf (mkGrid 2 2 [ALIVE; DEAD; DEAD; ALIVE])
  /\ get_width (mkGrid 2 2 [ALIVE; DEAD; DEAD; ALIVE]) < 2 ^ 31
  /\ get_height (mkGrid 2 2 [ALIVE; DEAD; DEAD; ALIVE]) < 2 ^ 31
  /\ 0 <= 1 <= get_width (mkGrid 2 2 [ALIVE; DEAD; DEAD; ALIVE])
  /\ 0 <= 1 < get_height (mkGrid 2 2 [ALIVE; DEAD; DEAD; ALIVE])
  /\ (1 < get_width (mkGrid 2 2 [ALIVE; DEAD; DEAD; ALIVE]) ->
      match @nil byte with [] => True | b :: _ => b <> x23 /\ b <> x20 end)
  /\ (1 = get_width (mkGrid 2 2 [ALIVE; DEAD; DEAD; ALIVE]) ->
      1 < get_height (mkGrid 2 2 [ALIVE; DEAD; DEAD; ALIVE]) - 1
      /\ match @nil byte with [] => True | b :: _ => b <> x0a end)
  /\ load_ascii
       (Some (ascii_header (mkGrid 2 2 [ALIVE; DEAD; DEAD; ALIVE])
              ++ lines_from (Z.to_nat 1) 0 (ascii_row (mkGrid 2 2 [ALIVE; DEAD; DEAD; ALIVE]))
              ++ map cell_char
                   (take (Z.to_nat 1) (row_cells (mkGrid 2 2 [ALIVE; DEAD; DEAD; ALIVE]) 1))
              ++ []))
     = Some (Throw (runtime_error
                      (if 1 <? get_width (mkGrid 2 2 [ALIVE; DEAD; DEAD; ALIVE])
                       then "load_ascii() : Character for a cell is incorrect."
                       else "load_ascii() : Missing new line character when expected."))).
Proof.
  assert (Hwf : Grid_wf (mkGrid 2 2 [ALIVE; DEAD; DEAD; ALIVE]))
    by (constructor; simpl; lia).
  split; [exact Hwf |]. split; [reflexivity |]. split; [reflexivity |].
  split; [simpl; lia |]. split; [simpl; lia |].
  split; [intros _; exact I |]. split; [simpl; intros H; discriminate H |].
  apply (load_ascii_throws_where_the_text_goes_wrong _ 1 1 [] Hwf);
    [reflexivity | reflexivity | simpl; lia | simpl; lia
    | intros _; exact I | simpl; intros H; discriminate H].
Defined.

(** ** Worked examples *)

(** The blinker of a 3x3 bounded world has period 2. *)
Example blinker_period_2 :
  exists w w1 w2,
    World_of_grid
      (mkGrid 3 3 [DEAD; DEAD; DEAD; ALIVE; ALIVE; ALIVE; DEAD; DEAD; DEAD]) = Ok w
    /\ World_step false w = (Ok tt, w1)
    /\ get_state w1 = mkGrid 3 3 [DEAD; ALIVE; DEAD; DEAD; ALIVE; DEAD; DEAD; ALIVE; DEAD]
    /\ World_step false w1 = (Ok tt, w2)
    /\ get_state w2 = mkGrid 3 3 [DEAD; DEAD; DEAD; ALIVE; ALIVE; ALIVE; DEAD; DEAD; DEAD].
Proof.
  do 3 eexists. split; [vm_compute; reflexivity |].
  split; [vm_compute; reflexivity |]. split; [reflexivity |].
  split; [vm_compute; reflexivity |]. reflexivity.
Qed.

(** On a 3x3 torus the cell [(2, 2)] is a neighbour of [(0, 0)]; in the
    bounded world it is not. *)
Example corner_neighbour_across_the_boundary :
  count_neighbours
    (mkWorld (mkGrid 3 3 [DEAD; DEAD; DEAD; DEAD; DEAD; DEAD; DEAD; DEAD; ALIVE])
             (Grid_new 3 3)) 0 0 true = Ok 1
  /\
  count_neighbours
    (mkWorld (mkGrid 3 3 [DEAD; DEAD; DEAD; DEAD; DEAD; DEAD; DEAD; DEAD; ALIVE])
             (Grid_new 3 3)) 0 0 false = Ok 0.
Proof. split; vm_compute; reflexivity. Qed.

(** The glider, a square grid, survives the round trip through the binary
    format: nine cells are one chunk, whose bits 1, 5, 6, 7 and 8 are set. *)
Example glider_binary_round_trip :
  save_binary true
    (mkGrid 3 3 [DEAD; ALIVE; DEAD; DEAD; DEAD; ALIVE; ALIVE; ALIVE; ALIVE])
  = Ok [x03; x00; x00; x00; x03; x00; x00; x00; xe2; x01; x00; x00]
  /\
  load_binary (Some [x03; x00; x00; x00; x03; x00; x00; x00; xe2; x01; x00; x00])
    (mkIndet 0 0 0)
  = Ok (mkGrid 3 3 [DEAD; ALIVE; DEAD; DEAD; DEAD; ALIVE; ALIVE; ALIVE; ALIVE]).
Proof. split; vm_compute; reflexivity. Qed.
